(** * HumanlikeAI: the realtime session engine, embedded and verified

    A shallow embedding of the affect model ([app/services/emotion_model.py],
    [app/services/emotion.py]), of the streaming adapter's reconnect routine
    ([app/services/gemini_live.py]), of the per-session orchestrator steps
    ([app/api/ws_handler.py]) and of the delayed proactive task
    ([app/api/message_routes.py]).

    Conventions of the embedding.
    - A Python [str] is the Rocq [string] of its UTF-8 bytes.  Substring
      search on the bytes agrees with substring search on code points, and
      [len] and indexing go through [codepoints].
    - A Python [float] is an exact rational ([Q]): arithmetic and comparisons
      are those of the real numbers, [round(x, 3)] is rounding to the
      nearest thousandth with ties to even.  States are compared with
      [emo_eq], which reads the coordinates up to [==].  This serves the
      statements that do not turn on the last bit of a double (ranges,
      bounds, orders of events).  What [apply_inertia] returns for a state
      blended with itself does turn on it, and is decided in the module
      [Binary64] on the kernel's primitive floats.
    - [math.hypot] is only ever compared with [<]; the embedding compares
      the squares, which order the same way.
    - [str.lower], [str.upper] and [str.strip] are builtins of the host
      language: they are the operations of the class [PyStr]; [AsciiStr] is
      the instance that agrees with them on ASCII text.
    - Awaited calls are deterministic functions of an oracle for what the
      outside world answers (whether a connection attempt succeeds, the
      clock, the running flag read after a sleep), and return the trace of
      effects they performed.
    - The routines of a session are tasks of one event loop and share the
      [SessionState]: what one writes during a wait of the other is part
      of the oracle ([bidirectional_streaming]). *)

From Stdlib Require Floats Uint63.
From Stdlib Require Import QArith Qround ZArith Lia Lqa String Ascii List Bool.
From stdpp Require Import base gmap strings.
Import ListNotations.
Open Scope string_scope.
Open Scope Q_scope.

(* ===================================================================== *)
(** * Python strings *)
(* ===================================================================== *)

(** A UTF-8 continuation byte is [10xxxxxx]. *)
Definition is_continuation (c : ascii) : bool :=
  match c with
  | Ascii _ _ _ _ _ _ b6 b7 => b7 && negb b6
  end.

Definition starts_with_continuation (s : string) : bool :=
  match s with
  | String c _ => is_continuation c
  | EmptyString => false
  end.

(** The code points of a string: a new one starts at every byte that is not
    a continuation byte. *)
Fixpoint codepoints (s : string) : list string :=
  match s with
  | EmptyString => []
  | String c rest =>
      match codepoints rest with
      | cp :: cps =>
          if starts_with_continuation rest
          then String c cp :: cps
          else String c EmptyString :: cp :: cps
      | [] => [String c EmptyString]
      end
  end.

(** [len(s)] *)
Definition py_len (s : string) : nat := List.length (codepoints s).

(** [s[i]] for [i >= 0]; [None] is Python's [IndexError]. *)
Definition py_index (s : string) (i : nat) : option string :=
  nth_error (codepoints s) i.

(** [s[:n]] *)
Definition py_slice_to (n : nat) (s : string) : string :=
  String.concat "" (firstn n (codepoints s)).

(** [needle in haystack] *)
Fixpoint py_in (needle haystack : string) : bool :=
  String.prefix needle haystack
  || match haystack with
     | String _ rest => py_in needle rest
     | EmptyString => false
     end.

(** Truthiness of [str | None]. *)
Definition truthy (s : option string) : bool :=
  match s with
  | Some (String _ _) => true
  | _ => false
  end.

(** The case and whitespace builtins.  [upper_len] is the one fact about
    them the code relies on: upper-casing never shortens a string (a code
    point maps to one or more code points), so the indices guarded by
    [len(mbti) < 4] exist in [mbti.upper()]. *)
Class PyStr := {
  lower : string -> string;
  upper : string -> string;
  strip : string -> string;
  upper_len : forall s, (py_len s <= py_len (upper s))%nat
}.

Definition map_string (f : ascii -> ascii) : string -> string :=
  fix go (s : string) : string :=
    match s with
    | EmptyString => EmptyString
    | String c rest => String (f c) (go rest)
    end.

Definition ascii_lower_char (c : ascii) : ascii :=
  let n := nat_of_ascii c in
  if (65 <=? n)%nat && (n <=? 90)%nat then ascii_of_nat (n + 32) else c.

Definition ascii_upper_char (c : ascii) : ascii :=
  let n := nat_of_ascii c in
  if (97 <=? n)%nat && (n <=? 122)%nat then ascii_of_nat (n - 32) else c.

(** ASCII white space as [str.isspace] sees it: TAB..CR, FS..US and space. *)
Definition ascii_is_space (c : ascii) : bool :=
  let n := nat_of_ascii c in
  ((9 <=? n)%nat && (n <=? 13)%nat) || ((28 <=? n)%nat && (n <=? 32)%nat).

Fixpoint lstrip (s : string) : string :=
  match s with
  | String c rest => if ascii_is_space c then lstrip rest else s
  | EmptyString => EmptyString
  end.

Fixpoint rstrip (s : string) : string :=
  match s with
  | String c rest =>
      match rstrip rest with
      | EmptyString => if ascii_is_space c then EmptyString else String c EmptyString
      | r => String c r
      end
  | EmptyString => EmptyString
  end.

Definition ascii_strip (s : string) : string := rstrip (lstrip s).

(* ===================================================================== *)
(** * Floats as rationals *)
(* ===================================================================== *)

Definition Qltb (x y : Q) : bool := negb (Qle_bool y x).

(** Python's [min(a, b)] and [max(a, b)]: the first argument wins ties. *)
Definition py_min (a b : Q) : Q := if Qltb b a then b else a.
Definition py_max (a b : Q) : Q := if Qltb a b then b else a.

(** Nearest integer, ties to even. *)
Definition round_half_even (x : Q) : Z :=
  let f := Qfloor x in
  let r := x - inject_Z f in
  if Qltb r (1 # 2) then f
  else if Qltb (1 # 2) r then (f + 1)%Z
  else if Z.even f then f else (f + 1)%Z.

(** [round(x, 3)] *)
Definition round3 (x : Q) : Q := Qred (round_half_even (x * 1000) # 1000).

(* ===================================================================== *)
(** * app/services/emotion_model.py *)
(* ===================================================================== *)

Record EmotionState := mkEmotionState {
  valence : Q;      (* -1.0 (negative) to +1.0 (positive) *)
  arousal : Q;      (* 0.0 (calm) to 1.0 (intense) *)
  label : string;
  intensity : string
}.

(** Equality of states, the coordinates read as numbers. *)
Definition emo_eq (s t : EmotionState) : Prop :=
  valence s == valence t /\ arousal s == arousal t
  /\ label s = label t /\ intensity s = intensity t.

(** Canonical circumplex coordinates, in declaration order. *)
Definition EMOTION_MAP : list (string * (Q * Q)) :=
  [ ("excited", (0.8, 0.9));
    ("happy", (0.7, 0.5));
    ("loving", (0.8, 0.4));
    ("neutral", (0.0, 0.2));
    ("thinking", (0.1, 0.4));
    ("surprised", (0.3, 0.85));
    ("jealous", (-0.5, 0.75));
    ("shy", (0.3, 0.35));
    ("anxious", (-0.4, 0.8));
    ("sad", (-0.7, 0.2));
    ("angry", (-0.8, 0.9));
    ("disappointed", (-0.6, 0.35));
    ("frustrated", (-0.5, 0.65));
    ("proud", (0.7, 0.65));
    ("grateful", (0.65, 0.25));
    ("bored", (-0.3, 0.1));
    ("curious", (0.3, 0.55));
    ("embarrassed", (-0.3, 0.55));
    ("playful", (0.55, 0.75));
    ("lonely", (-0.55, 0.15));
    ("confused", (-0.15, 0.45)) ].

Definition INTENSITY_LEVELS : list string := ["low"; "mid"; "high"].

(** [d.get(key)] on a table kept in declaration order. *)
Fixpoint assoc {A : Type} (key : string) (table : list (string * A)) : option A :=
  match table with
  | [] => None
  | (k, x) :: rest => if String.eqb key k then Some x else assoc key rest
  end.

Definition _clamp (value lo hi : Q) : Q := py_max lo (py_min hi value).

Definition _intensity_from_arousal (arousal : Q) : string :=
  if Qltb arousal 0.35 then "low"
  else if Qle_bool arousal 0.65 then "mid"
  else "high".

(** The square of [math.hypot(dv, da)]. *)
Definition dist2 (dv da : Q) : Q := dv * dv + da * da.

(** [dist < best_dist], where [None] is [float("inf")]. *)
Definition closer (dist : Q) (best_dist : option Q) : bool :=
  match best_dist with
  | None => true
  | Some b => Qltb dist b
  end.

Definition nearest_step (valence arousal : Q)
    (best : string * option Q) (entry : string * (Q * Q)) : string * option Q :=
  let '(label, (v, a)) := entry in
  let dist := dist2 (valence - v) (arousal - a) in
  if closer dist (snd best) then (label, Some dist) else best.

Definition nearest_in (table : list (string * (Q * Q))) (valence arousal : Q)
    (best : string * option Q) : string * option Q :=
  fold_left (nearest_step valence arousal) table best.

Definition _nearest_label (valence arousal : Q) : string :=
  fst (nearest_in EMOTION_MAP valence arousal ("neutral", None)).

Definition index_is (s : string) (i : nat) (c : string) : bool :=
  match py_index s i with
  | Some x => String.eqb x c
  | None => false
  end.

Definition _apply_mbti_modifiers `{PyStr} (valence arousal : Q)
    (mbti : option string) : Q * Q :=
  match mbti with
  | None => (valence, arousal)
  | Some m =>
      if negb (truthy mbti) || (py_len m <? 4)%nat then (valence, arousal)
      else
        let mbti_upper := upper m in
        (* E/I affects arousal *)
        let arousal :=
          if index_is mbti_upper 0 "E" then arousal * 1.15
          else if index_is mbti_upper 0 "I" then arousal * 0.85
          else arousal in
        (* T/F affects valence *)
        let valence :=
          if index_is mbti_upper 2 "F" then valence * 1.20
          else if index_is mbti_upper 2 "T" then valence * 0.80
          else valence in
        (_clamp valence (-1) 1, _clamp arousal 0 1)
  end.

Definition label_to_circumplex `{PyStr} (label : string)
    (mbti : option string) : EmotionState :=
  let '(valence, arousal) :=
    match assoc label EMOTION_MAP with
    | Some p => p
    | None => (0.0, 0.2)            (* EMOTION_MAP["neutral"] *)
    end in
  let '(valence, arousal) := _apply_mbti_modifiers valence arousal mbti in
  let final_label := _nearest_label valence arousal in
  let intensity := _intensity_from_arousal arousal in
  mkEmotionState (round3 valence) (round3 arousal) final_label intensity.

Definition _inertia_weights (prev : EmotionState) (familiarity_level : Z) : Q * Q :=
  if String.eqb (label prev) "neutral" then (0.3, 0.7)
  else if (8 <=? familiarity_level)%Z then (0.35, 0.65)
  else if (5 <=? familiarity_level)%Z then (0.50, 0.50)
  else (0.65, 0.35).

(** [apply_inertia(prev, new, familiarity_level)]; the default of the third
    argument is [DEFAULT_FAMILIARITY]. *)
Definition DEFAULT_FAMILIARITY : Z := 5.

Definition apply_inertia (prev new : EmotionState) (familiarity_level : Z)
    : EmotionState :=
  let '(w_prev, w_new) := _inertia_weights prev familiarity_level in
  let valence := _clamp (valence prev * w_prev + valence new * w_new) (-1) 1 in
  let arousal := _clamp (arousal prev * w_prev + arousal new * w_new) 0 1 in
  let label := _nearest_label valence arousal in
  let intensity := _intensity_from_arousal arousal in
  mkEmotionState (round3 valence) (round3 arousal) label intensity.

(* ===================================================================== *)
(** * app/services/emotion.py *)
(* ===================================================================== *)

(** The keyword lexicon, in declaration order (the order decides ties). *)
Definition EMOTION_KEYWORDS : list (string * list string) :=
  [ ("happy",
    [ "haha"; "wonderful"; "great"; "glad"; "awesome"; "amazing"; "yay";
      "fantastic"; "brilliant"; "delighted"; "fun"; "joy"; "happy";
      "laugh"; "smile"; "cool"; "sweet"; "nice"; "开心"; "高兴"; "哈哈"; "不错";
      "棒"; "太好了"; "好开心" ]);
    ("excited",
    [ "excited"; "wow"; "incredible"; "omg"; "can't wait"; "thrilled";
      "pumped"; "stoked"; "unbelievable"; "insane"; "let's go"; "太棒了";
      "激动"; "兴奋"; "天啊"; "厉害"; "震惊" ]);
    ("sad",
    [ "sorry"; "unfortunately"; "sad"; "miss"; "lost"; "difficult";
      "tough"; "heartbreaking"; "regret"; "painful"; "grief"; "cry";
      "tears"; "难过"; "伤心"; "可惜"; "遗憾"; "想念"; "心疼"; "委屈" ]);
    ("angry",
    [ "unfair"; "annoyed"; "upset"; "furious"; "angry"; "outrageous";
      "ridiculous"; "unacceptable"; "terrible"; "hate"; "生气"; "烦"; "讨厌";
      "气死"; "受不了"; "过分" ]);
    ("anxious",
    [ "worried"; "nervous"; "anxious"; "scared"; "afraid"; "stress";
      "uneasy"; "concerned"; "panic"; "overwhelmed"; "tense"; "担心"; "紧张";
      "焦虑"; "害怕"; "不安"; "压力" ]);
    ("loving",
    [ "love"; "adore"; "cherish"; "care about"; "precious"; "sweetheart";
      "darling"; "dear"; "miss you"; "warm"; "affection"; "tender"; "hug";
      "喜欢你"; "爱你"; "想你"; "在乎你"; "心疼你"; "亲爱的"; "宝贝" ]);
    ("surprised",
    [ "really"; "no way"; "what"; "seriously"; "unexpected";
      "didn't expect"; "oh my"; "shocking"; "whoa"; "真的吗"; "不会吧"; "没想到";
      "居然"; "竟然"; "吓到" ]);
    ("thinking",
    [ "hmm"; "let me think"; "consider"; "interesting"; "perhaps"; "maybe";
      "could be"; "wonder"; "actually"; "on the other hand"; "嗯"; "这个嘛";
      "让我想想"; "有意思"; "也许"; "好像" ]);
    ("jealous",
    [ "jealous"; "girlfriend"; "boyfriend"; "dating someone";
      "seeing someone"; "other girl"; "other guy"; "who is she";
      "who is he"; "don't like her"; "don't like him"; "mine";
      "belong to me"; "flirting"; "cheating"; "why her"; "why him"; "吃醋";
      "女朋友"; "男朋友"; "其他女生"; "其他男生"; "她是谁"; "他是谁"; "你是我的"; "不许"; "别跟她";
      "别跟他"; "醋意"; "嫉妒" ]);
    ("shy",
    [ "blush"; "shy"; "awkward"; "flattered"; "stop it"; "don't say that";
      "you're making me"; "too much"; "oh stop"; "you're sweet"; "害羞";
      "不好意思"; "脸红"; "别说了"; "讨厌啦"; "人家"; "哎呀"; "羞死了"; "你真会说" ]);
    ("disappointed",
    [ "disappointed"; "let down"; "expected more"; "not what i hoped";
      "underwhelming"; "letdown"; "hoped for"; "失望"; "不满意"; "不如预期" ]);
    ("frustrated",
    [ "frustrating"; "frustrated"; "ugh"; "so annoying"; "stuck";
      "can't figure out"; "nothing works"; "give up"; "烦死了"; "搞不定"; "好烦" ]);
    ("proud",
    [ "proud"; "nailed it"; "crushed it"; "achievement"; "accomplished";
      "did it"; "i'm so good"; "look what i did"; "骄傲"; "自豪"; "厉害了" ]);
    ("grateful",
    [ "grateful"; "thankful"; "appreciate"; "thanks so much";
      "means a lot"; "blessed"; "so kind"; "感恩"; "感谢"; "谢谢你"; "太感谢" ]);
    ("bored",
    [ "bored"; "boring"; "dull"; "nothing to do"; "meh"; "whatever";
      "yawn"; "so tired of"; "无聊"; "没意思"; "好闷" ]);
    ("curious",
    [ "curious"; "tell me more"; "how does"; "why does"; "i wonder";
      "what if"; "fascinating"; "好奇"; "想知道"; "怎么回事" ]);
    ("embarrassed",
    [ "embarrassed"; "embarrassing"; "cringe"; "so awkward";
      "want to disappear"; "mortified"; "humiliating"; "尴尬"; "丢人"; "好丢脸" ]);
    ("playful",
    [ "hehe"; "tease"; "playful"; "just kidding"; "gotcha";
      "bet you can't"; "catch me"; "wanna play"; "嘻嘻"; "逗你的"; "来玩" ]);
    ("lonely",
    [ "lonely"; "alone"; "no one"; "nobody"; "by myself"; "miss someone";
      "isolated"; "all alone"; "孤独"; "寂寞"; "一个人" ]);
    ("confused",
    [ "confused"; "don't understand"; "makes no sense"; "huh"; "lost me";
      "wait what"; "i'm so confused"; "困惑"; "搞不懂"; "什么意思" ]) ].

Definition RELATIONSHIP_EMOTION_BIAS : list (string * string) :=
  [ ("Romantic Partner", "loving");
    ("Ex-Partner", "sad");
    ("Best Friend", "happy");
    ("Friend", "happy");
    ("Mentor", "thinking");
    ("Companion", "happy");
    ("Confidant", "thinking");
    ("Rival", "excited");
    ("Frenemy", "surprised");
    ("Nemesis", "angry");
    ("Critic", "thinking");
    ("Stranger", "neutral");
    ("Acquaintance", "neutral");
    ("Colleague", "neutral");
    ("Study Buddy", "thinking");
    ("Advisor", "thinking") ].
(** The inner loop: [scores[emotion] += 1] for every keyword found. *)
Definition keyword_score (text_lower : string) (keywords : list string) : nat :=
  fold_left (fun score kw => if py_in kw text_lower then S score else score)
            keywords 0%nat.

Definition keyword_scores (text_lower : string) : list (string * nat) :=
  map (fun entry => (fst entry, keyword_score text_lower (snd entry)))
      EMOTION_KEYWORDS.

(** [max(scores, key=scores.get)]: the first key with the largest score.
    [max] of an empty dict raises; the lexicon is not empty, and the
    default is never used. *)
Definition max_score (scores : list (string * nat)) : string * nat :=
  match scores with
  | [] => ("neutral", 0%nat)
  | first :: rest =>
      fold_left (fun best entry =>
                   if (snd best <? snd entry)%nat then entry else best)
                rest first
  end.

Definition classify_emotion_heuristic `{PyStr} (text : string)
    (relationship_type : option string) (familiarity_level : Z) : string :=
  let text_lower := lower text in
  let '(best, best_score) := max_score (keyword_scores text_lower) in
  if (0 <? best_score)%nat then best
  else
    match relationship_type with
    | Some r =>
        match (if truthy relationship_type
               then assoc r RELATIONSHIP_EMOTION_BIAS else None) with
        | Some bias =>
            if (7 <=? familiarity_level)%Z then bias
            else if (4 <=? familiarity_level)%Z then
              (if (20 <? py_len text)%nat then bias else "neutral")
            else "neutral"
        | None => "neutral"
        end
    | None => "neutral"
    end.

(** [classify_to_circumplex]: the call on the last line of the source is
    [apply_inertia(prev_state, new_state)], with two arguments. *)
Definition classify_to_circumplex `{PyStr} (text : string)
    (relationship_type : option string) (familiarity_level : Z)
    (mbti : option string) (prev_state : option EmotionState) : EmotionState :=
  let label := classify_emotion_heuristic text relationship_type familiarity_level in
  let new_state := label_to_circumplex label mbti in
  match prev_state with
  | Some prev => apply_inertia prev new_state DEFAULT_FAMILIARITY
  | None => new_state
  end.

(* ===================================================================== *)
(** * Frames and effects *)
(* ===================================================================== *)

(** Server-to-client frames, [server_message(type, payload)]. *)
Inductive Frame :=
| Interrupted
| TurnComplete
| Audio (data : string) (emo : EmotionState)
| Text (text : string) (emo : EmotionState)
| Status (action tool : string)
| Error (code message : string).

(** What a routine does to the outside world, in order. *)
Inductive Effect :=
| AdapterClose
| AdapterConnect
| AdapterSendText (text : string)
| AdapterInject (system_text : string)
| Sleep (seconds : Q)
| WsSend (frame : Frame)
| SpawnProactiveSearch (user_text : string).

(* ===================================================================== *)
(** * app/services/gemini_live.py *)
(* ===================================================================== *)

(** [GeminiLiveSession.reconnect].  [connect_ok attempt] tells whether
    [connect()] returns at that attempt (it raises otherwise); [close()]
    swallows its own errors.  The result is the returned flag and the trace
    of the calls made. *)
Fixpoint reconnect_from (connect_ok : nat -> bool) (attempt remaining : nat)
    : bool * list Effect :=
  match remaining with
  | O => (false, [])
  | S remaining' =>
      let this :=
        ([AdapterClose]
         ++ (if (1 <? attempt)%nat
             then [Sleep (0.5 * inject_Z (Z.of_nat attempt))] else [])
         ++ [AdapterConnect])%list in
      if connect_ok attempt then (true, this)
      else
        let '(ok, later) := reconnect_from connect_ok (S attempt) remaining' in
        (ok, (this ++ later)%list)
  end.

Definition reconnect (max_retries : nat) (connect_ok : nat -> bool)
    : bool * list Effect :=
  reconnect_from connect_ok 1 max_retries.

Definition DEFAULT_MAX_RETRIES : nat := 3.

(** The pauses of a trace, one per connection attempt: the seconds slept
    since the previous attempt (or since the start). *)
Fixpoint waits_from (pending : Q) (trace : list Effect) : list Q :=
  match trace with
  | [] => []
  | Sleep d :: rest => waits_from (pending + d) rest
  | AdapterConnect :: rest => pending :: waits_from 0 rest
  | _ :: rest => waits_from pending rest
  end.

Definition waits (trace : list Effect) : list Q := waits_from 0 trace.

(* ===================================================================== *)
(** * app/api/ws_handler.py *)
(* ===================================================================== *)

Record TranscriptEntry := mkEntry {
  entry_role : string;
  entry_text : string;
  entry_emotion : option string
}.

Record SessionState := mkSession {
  current_emotion : EmotionState;
  transcript_buffer : list TranscriptEntry;
  running : bool;
  last_activity_time : Q;
  relationship_type : option string;
  familiarity_level : Z;
  mbti : option string;
  user_interacted_since_last_emotion : bool;
  burst_count : nat;
  burst_cooldown_until : Q
}.

(** [SessionState()] *)
Definition initial_session : SessionState :=
  mkSession (mkEmotionState 0.0 0.2 "neutral" "low") [] true 0.0
            None 5 None true 0 0.0.

Definition with_emotion (e : EmotionState) (flag : bool) (st : SessionState) :=
  mkSession e (transcript_buffer st) (running st) (last_activity_time st)
            (relationship_type st) (familiarity_level st) (mbti st)
            flag (burst_count st) (burst_cooldown_until st).

Definition with_flag (flag : bool) (st : SessionState) :=
  with_emotion (current_emotion st) flag st.

Definition append_transcript (e : TranscriptEntry) (st : SessionState) :=
  mkSession (current_emotion st) (transcript_buffer st ++ [e])%list (running st)
            (last_activity_time st) (relationship_type st) (familiarity_level st)
            (mbti st) (user_interacted_since_last_emotion st)
            (burst_count st) (burst_cooldown_until st).

Definition with_activity (now : Q) (st : SessionState) :=
  mkSession (current_emotion st) (transcript_buffer st) (running st) now
            (relationship_type st) (familiarity_level st) (mbti st)
            (user_interacted_since_last_emotion st)
            (burst_count st) (burst_cooldown_until st).

Definition with_running (r : bool) (st : SessionState) :=
  mkSession (current_emotion st) (transcript_buffer st) r
            (last_activity_time st) (relationship_type st) (familiarity_level st)
            (mbti st) (user_interacted_since_last_emotion st)
            (burst_count st) (burst_cooldown_until st).

Definition with_burst (count : nat) (cooldown : Q) (st : SessionState) :=
  mkSession (current_emotion st) (transcript_buffer st) (running st)
            (last_activity_time st) (relationship_type st) (familiarity_level st)
            (mbti st) (user_interacted_since_last_emotion st) count cooldown.

Definition BURST_AROUSAL_THRESHOLD : Q := 0.7.
Definition BURST_MAX_FOLLOW_UPS : nat := 3.
Definition BURST_COOLDOWN_SECONDS : Q := 30.0.
Definition BURST_FOLLOW_UP_PROMPTS : list string :=
  [ "你还有更多想说的，继续表达你的感受，自然地补充一两句。";
    "你觉得意犹未尽，再说一点你的想法。";
    "你还想再说点什么，简短地补充。" ].

(** Default starting emotions per relationship type. *)
Definition RELATIONSHIP_DEFAULT_EMOTIONS : list (string * EmotionState) :=
  [ ("Romantic Partner", mkEmotionState 0.6 0.5 "loving" "medium");
    ("Best Friend", mkEmotionState 0.5 0.4 "happy" "medium");
    ("Friend", mkEmotionState 0.3 0.3 "happy" "low");
    ("Companion", mkEmotionState 0.3 0.3 "happy" "low");
    ("Mentor", mkEmotionState 0.2 0.3 "thinking" "low");
    ("Confidant", mkEmotionState 0.2 0.3 "thinking" "low");
    ("Rival", mkEmotionState 0.1 0.5 "excited" "medium");
    ("Frenemy", mkEmotionState 0.0 0.4 "surprised" "low");
    ("Nemesis", mkEmotionState (-0.2) 0.5 "angry" "low");
    ("Critic", mkEmotionState 0.0 0.3 "thinking" "low");
    ("Ex-Partner", mkEmotionState (-0.3) 0.4 "sad" "low");
    ("Stranger", mkEmotionState 0.0 0.2 "neutral" "low");
    ("Acquaintance", mkEmotionState 0.1 0.2 "neutral" "low");
    ("Colleague", mkEmotionState 0.1 0.2 "neutral" "low");
    ("Study Buddy", mkEmotionState 0.2 0.3 "thinking" "low");
    ("Advisor", mkEmotionState 0.2 0.3 "thinking" "low") ].

(** The last persisted AI message, as [get_last_ai_emotion] returns it. *)
Record LastAi := mkLastAi {
  last_emotion : option string;
  last_valence : option Q;
  last_arousal : option Q;
  last_intensity : option string
}.

(** [x or default] on [float | None]: zero is falsy. *)
Definition or_float (x : option Q) (default : Q) : Q :=
  match x with
  | Some v => if Qeq_bool v 0 then default else v
  | None => default
  end.

(** [x or default] on [str | None]. *)
Definition or_str (x : option string) (default : string) : string :=
  match x with
  | Some (String c s) => String c s
  | _ => default
  end.

(** The [elif] branch of the seeding: the relationship default, when the
    character has a relationship type the table knows. *)
Definition relationship_default (character_relationship : option string)
    (st : SessionState) : EmotionState :=
  match character_relationship with
  | Some r =>
      match (if truthy character_relationship
             then assoc r RELATIONSHIP_DEFAULT_EMOTIONS else None) with
      | Some e => e
      | None => current_emotion st
      end
  | None => current_emotion st
  end.

(** The seeding of [state.current_emotion] in [websocket_endpoint], for a
    session opened on a character. *)
Definition seed_emotion (last_ai : option LastAi)
    (character_relationship : option string) (st : SessionState) : EmotionState :=
  match last_ai with
  | Some la =>
      if truthy (last_emotion la) then
        mkEmotionState (or_float (last_valence la) 0.0)
                       (or_float (last_arousal la) 0.2)
                       (or_str (last_emotion la) "")
                       (or_str (last_intensity la) "low")
      else relationship_default character_relationship st
  | None => relationship_default character_relationship st
  end.

(** An upstream event, as [_forward_gemini_to_client] reads it with
    [getattr]. *)
Record InlineData := mkInline {
  mime_type : option string;
  data : string
}.

Record ServerContent := mkContent {
  interrupted : bool;
  turn_complete : bool;
  model_turn : list (option InlineData);   (* the parts; [None]: no inline data *)
  output_transcription : option string;    (* the transcription's text *)
  input_transcription : option string
}.

Record Response := mkResponse {
  go_away : bool;
  server_content : option ServerContent
}.

(** How the body of the [async for] ends for one event. *)
Inductive Flow := Next | Break | Stop.

Definition audio_frames (emo : EmotionState) (parts : list (option InlineData))
    : list Effect :=
  flat_map (fun part =>
              match part with
              | Some inline =>
                  match mime_type inline with
                  | Some m =>
                      if truthy (mime_type inline) && py_in "audio" m
                      then [WsSend (Audio (data inline) emo)] else []
                  | None => []
                  end
              | None => []
              end) parts.

(** The block "Handle output transcription". *)
Definition handle_output_transcription `{PyStr} (text : string)
    (st : SessionState) : SessionState * list Effect :=
  let '(st, emo) :=
    if user_interacted_since_last_emotion st then
      let emo := classify_to_circumplex text (relationship_type st)
                   (familiarity_level st) (mbti st) (Some (current_emotion st)) in
      (with_emotion emo false st, emo)
    else (st, current_emotion st) in
  if truthy (Some (strip text)) then
    (append_transcript (mkEntry "model" text (Some (label emo))) st,
     [WsSend (Text text emo)])
  else (st, []).

(** The block "Handle input transcription". *)
Definition handle_input_transcription (user_text : string)
    (st : SessionState) : SessionState * list Effect :=
  (with_flag true (append_transcript (mkEntry "user" user_text None) st),
   [SpawnProactiveSearch user_text]).

(** One iteration of the [async for] over the upstream events. *)
Definition handle_response `{PyStr} (now : Q) (response : Response)
    (st : SessionState) : SessionState * list Effect * Flow :=
  if negb (running st) then (st, [], Stop)
  else if go_away response then (st, [], Break)
  else
    match server_content response with
    | None => (st, [], Next)
    | Some content =>
        if interrupted content then (st, [WsSend Interrupted], Next)
        else if turn_complete content then
          (with_activity now st, [WsSend TurnComplete], Next)
        else
          let audio := audio_frames (current_emotion st) (model_turn content) in
          let '(st, out) :=
            match output_transcription content with
            | Some text =>
                if truthy (output_transcription content)
                then handle_output_transcription text st else (st, [])
            | None => (st, [])
            end in
          let '(st, inp) :=
            match input_transcription content with
            | Some user_text =>
                if truthy (input_transcription content)
                then handle_input_transcription user_text st else (st, [])
            | None => (st, [])
            end in
          (st, (audio ++ out ++ inp)%list, Next)
    end.

Definition stamp (now : Q) (effects : list Effect) : list (Q * Effect) :=
  map (pair now) effects.

(** The [async for] over the events of one turn, each with the clock value
    at which it is handled.  The stream ending is [Next]. *)
Fixpoint handle_responses `{PyStr} (events : list (Q * Response))
    (st : SessionState) : SessionState * list (Q * Effect) * Flow :=
  match events with
  | [] => (st, [], Next)
  | (now, response) :: rest =>
      let '(st, effects, flow) := handle_response now response st in
      match flow with
      | Next =>
          let '(st, later, flow) := handle_responses rest st in
          (st, (stamp now effects ++ later)%list, flow)
      | _ => (st, stamp now effects, flow)
      end
  end.

Definition nl : string := String (ascii_of_nat 10) "".

Definition context_line (entry : TranscriptEntry) : string :=
  (if String.eqb (entry_role entry) "user" then "用户" else "你")
  ++ ": " ++ py_slice_to 150 (entry_text entry).

(** [buffer[-n:]] *)
Definition last_n {A : Type} (n : nat) (buffer : list A) : list A :=
  skipn (List.length buffer - n) buffer.

Definition context_message (buffer : list TranscriptEntry) : string :=
  "之前的对话记录:" ++ nl
  ++ String.concat nl (map context_line (last_n 20 buffer))
  ++ nl ++ nl ++ "继续自然地聊天，等用户说话。".

(** "Feature 1: Emotional burst", evaluated at clock value [now];
    [running_after_sleep] is [state.running] as read after the 0.8 s
    sleep. *)
Definition burst_rule (now : Q) (running_after_sleep : bool)
    (st : SessionState) : SessionState * list Effect :=
  let emo := current_emotion st in
  if Qle_bool BURST_AROUSAL_THRESHOLD (arousal emo)
     && (burst_count st <? BURST_MAX_FOLLOW_UPS)%nat
     && Qle_bool (burst_cooldown_until st) now
  then
    let prompt :=
      nth (burst_count st mod List.length BURST_FOLLOW_UP_PROMPTS)
          BURST_FOLLOW_UP_PROMPTS "" in
    let st := with_burst (S (burst_count st)) (burst_cooldown_until st) st in
    (with_running running_after_sleep st,
     (Sleep 0.8 :: if running_after_sleep then [AdapterSendText prompt] else [])%list)
  else if (0 <? burst_count st)%nat then
    (with_burst 0 (now + BURST_COOLDOWN_SECONDS) st, [])
  else (st, []).

(** How an iteration of the outer [while] ends. *)
Inductive Outcome := Continue | Return.

Definition GEMINI_DISCONNECTED : Frame :=
  Error "GEMINI_DISCONNECTED" "Lost connection to AI".

(** The code after the [async for]: "Generator ended - reconnect fast". *)
Definition turn_boundary (connect_ok : nat -> bool) (now : Q)
    (running_after_sleep : bool) (st : SessionState)
    : SessionState * list Effect * Outcome :=
  if negb (running st) then (st, [], Return)
  else
    let '(ok, trace) := reconnect DEFAULT_MAX_RETRIES connect_ok in
    if negb ok then (st, (trace ++ [WsSend GEMINI_DISCONNECTED])%list, Return)
    else
      let inject :=
        match transcript_buffer st with
        | [] => []
        | _ => [AdapterInject (context_message (transcript_buffer st))]
        end in
      let '(st, burst) := burst_rule now running_after_sleep st in
      (st, (trace ++ inject ++ burst)%list, Continue).

(** The handler [except Exception] of the outer loop. *)
Definition recover_after_error (connect_ok : nat -> bool) (st : SessionState)
    : list Effect * Outcome :=
  if negb (running st) then ([], Return)
  else
    let '(ok, trace) := reconnect DEFAULT_MAX_RETRIES connect_ok in
    (Sleep 1 :: trace, if ok then Continue else Return).

(** What the outside world does during one iteration of the outer loop:
    the events the stream yields before it ends, whether it ends by
    raising, the fate of the connection attempts, the clock at the turn
    boundary and the running flag read after the burst's sleep. *)
Record Turn := mkTurn {
  events : list (Q * Response);
  stream_error : bool;
  connect_ok : nat -> bool;
  boundary_time : Q;
  running_after_sleep : bool
}.

(** [_forward_gemini_to_client]: the routine's state and timed trace after
    the given turns (the routine is cancelled after the last one). *)
Fixpoint _forward_gemini_to_client `{PyStr} (turns : list Turn)
    (st : SessionState) : SessionState * list (Q * Effect) :=
  match turns with
  | [] => (st, [])
  | turn :: rest =>
      if negb (running st) then (st, [])
      else
        let '(st, seen, flow) := handle_responses (events turn) st in
        match flow with
        | Stop => (st, seen)
        | _ =>
            let now := boundary_time turn in
            if stream_error turn then
              let '(effects, outcome) := recover_after_error (connect_ok turn) st in
              match outcome with
              | Return => (st, (seen ++ stamp now effects)%list)
              | Continue =>
                  let '(st, later) := _forward_gemini_to_client rest st in
                  (st, (seen ++ stamp now effects ++ later)%list)
              end
            else
              let '(st, effects, outcome) :=
                turn_boundary (connect_ok turn) now (running_after_sleep turn) st in
              match outcome with
              | Return => (st, (seen ++ stamp now effects)%list)
              | Continue =>
                  let '(st, later) := _forward_gemini_to_client rest st in
                  (st, (seen ++ stamp now effects ++ later)%list)
              end
        end
  end.

(** The three assignments that end the audio and the text branch of
    [_forward_client_to_gemini]. *)
Definition user_activity (now : Q) (st : SessionState) : SessionState :=
  with_burst 0 (burst_cooldown_until st) (with_flag true (with_activity now st)).








(** The clock values at which a follow-up prompt was sent upstream. *)
Definition burst_times (trace : list (Q * Effect)) : list Q :=
  flat_map (fun entry =>
              match snd entry with
              | AdapterSendText _ => [fst entry]
              | _ => []
              end) trace.

(** The frames a trace sends to the client. *)
Definition frames_sent (trace : list Effect) : list Frame :=
  flat_map (fun effect =>
              match effect with
              | WsSend frame => [frame]
              | _ => []
              end) trace.

(* ===================================================================== *)
(** * The ASCII instance of the string builtins *)
(* ===================================================================== *)

Lemma map_string_continuation (f : ascii -> ascii) (s : string) :
  (forall c, is_continuation (f c) = is_continuation c) ->
  starts_with_continuation (map_string f s) = starts_with_continuation s.
Proof.
  intros Hf. destruct s as [|c s]; simpl; [reflexivity | apply Hf].
Qed.

Lemma codepoints_map_string (f : ascii -> ascii) (s : string) :
  (forall c, is_continuation (f c) = is_continuation c) ->
  codepoints (map_string f s) = map (map_string f) (codepoints s).
Proof.
  intros Hf. induction s as [|c s IH]; [reflexivity|].
  change (map_string f (String c s)) with (String (f c) (map_string f s)).
  cbn [codepoints]. rewrite IH, (map_string_continuation f s Hf).
  destruct (codepoints s) as [|cp cps]; [reflexivity|].
  cbn [map]. destruct (starts_with_continuation s); reflexivity.
Qed.

Lemma ascii_upper_char_continuation (c : ascii) :
  is_continuation (ascii_upper_char c) = is_continuation c.
Proof.
  destruct c as [[] [] [] [] [] [] [] []]; reflexivity.
Qed.

Lemma ascii_upper_len (s : string) :
  (py_len s <= py_len (map_string ascii_upper_char s))%nat.
Proof.
  unfold py_len.
  rewrite (codepoints_map_string _ s ascii_upper_char_continuation).
  rewrite List.length_map. apply Nat.le_refl.
Qed.

#[export] Instance AsciiStr : PyStr := {
  lower := map_string ascii_lower_char;
  upper := map_string ascii_upper_char;
  strip := ascii_strip;
  upper_len := ascii_upper_len
}.

(* ===================================================================== *)
(** * Facts about the arithmetic *)
(* ===================================================================== *)

Lemma Qltb_lt (x y : Q) : Qltb x y = true <-> x < y.
Proof.
  unfold Qltb. rewrite negb_true_iff. split.
  - intros H. apply Qnot_le_lt. intros Hle.
    apply Qle_bool_iff in Hle. congruence.
  - intros H. destruct (Qle_bool y x) eqn:E; [|reflexivity].
    apply Qle_bool_iff in E. lra.
Qed.

Lemma Qltb_ge (x y : Q) : Qltb x y = false <-> y <= x.
Proof.
  unfold Qltb. rewrite negb_false_iff. apply Qle_bool_iff.
Qed.

Lemma Qltb_compat (x x' y y' : Q) :
  x == x' -> y == y' -> Qltb x y = Qltb x' y'.
Proof.
  intros Hx Hy.
  destruct (Qltb x y) eqn:E, (Qltb x' y') eqn:E'; try reflexivity.
  - apply Qltb_lt in E. apply Qltb_ge in E'. lra.
  - apply Qltb_ge in E. apply Qltb_lt in E'. lra.
Qed.

Lemma Qle_bool_compat (x x' y y' : Q) :
  x == x' -> y == y' -> Qle_bool x y = Qle_bool x' y'.
Proof.
  intros Hx Hy.
  destruct (Qle_bool x y) eqn:E, (Qle_bool x' y') eqn:E'; try reflexivity.
  - apply Qle_bool_iff in E.
    assert (~ x' <= y') by (rewrite <- Qle_bool_iff; congruence). lra.
  - apply Qle_bool_iff in E'.
    assert (~ x <= y) by (rewrite <- Qle_bool_iff; congruence). lra.
Qed.

Lemma py_min_spec (a b : Q) :
  (b < a /\ py_min a b = b) \/ (a <= b /\ py_min a b = a).
Proof.
  unfold py_min. destruct (Qltb b a) eqn:E.
  - left. apply Qltb_lt in E. auto.
  - right. apply Qltb_ge in E. auto.
Qed.

Lemma py_max_spec (a b : Q) :
  (a < b /\ py_max a b = b) \/ (b <= a /\ py_max a b = a).
Proof.
  unfold py_max. destruct (Qltb a b) eqn:E.
  - left. apply Qltb_lt in E. auto.
  - right. apply Qltb_ge in E. auto.
Qed.

(** [_clamp] lands in the interval, whatever the value. *)
Lemma _clamp_bounds (value lo hi : Q) :
  lo <= hi -> lo <= _clamp value lo hi <= hi.
Proof.
  intros Hlh. unfold _clamp.
  destruct (py_min_spec hi value) as [[H1 ->]|[H1 ->]];
    destruct (py_max_spec lo value) as [[H2 E]|[H2 E]];
    destruct (py_max_spec lo hi) as [[H3 E3]|[H3 E3]];
    rewrite ?E, ?E3; lra.
Qed.

(** [_clamp] leaves a value of the interval as it is. *)
Lemma _clamp_inside (value lo hi : Q) :
  lo <= value <= hi -> _clamp value lo hi == value.
Proof.
  intros [Hl Hh]. unfold _clamp.
  destruct (py_min_spec hi value) as [[H1 ->]|[H1 ->]].
  - destruct (py_max_spec lo value) as [[H2 ->]|[H2 ->]]; lra.
  - destruct (py_max_spec lo hi) as [[H2 ->]|[H2 ->]]; lra.
Qed.

Lemma round_half_even_compat (x y : Q) :
  x == y -> round_half_even x = round_half_even y.
Proof.
  intros H. unfold round_half_even.
  rewrite (Qfloor_comp x y H).
  rewrite (Qltb_compat (x - inject_Z (Qfloor y)) (y - inject_Z (Qfloor y))
                       (1 # 2) (1 # 2)) by lra.
  rewrite (Qltb_compat (1 # 2) (1 # 2)
                       (x - inject_Z (Qfloor y)) (y - inject_Z (Qfloor y))) by lra.
  reflexivity.
Qed.

Lemma round_half_even_Z (n : Z) : round_half_even (inject_Z n) = n.
Proof.
  unfold round_half_even. rewrite Qfloor_Z.
  assert (E : Qltb (inject_Z n - inject_Z n) (1 # 2) = true)
    by (apply Qltb_lt; lra).
  rewrite E. reflexivity.
Qed.

(** The rounded value is within one half of the argument. *)
Lemma round_half_even_close (x : Q) :
  x - (1 # 2) <= inject_Z (round_half_even x) <= x + (1 # 2).
Proof.
  pose proof (Qfloor_le x) as Hlo. pose proof (Qlt_floor x) as Hhi.
  rewrite inject_Z_plus in Hhi. change (inject_Z 1) with 1 in Hhi.
  unfold round_half_even.
  destruct (Qltb (x - inject_Z (Qfloor x)) (1 # 2)) eqn:E1.
  - apply Qltb_lt in E1. lra.
  - apply Qltb_ge in E1.
    assert (inject_Z (Qfloor x + 1) == inject_Z (Qfloor x) + 1) as E
      by (rewrite inject_Z_plus; reflexivity).
    destruct (Qltb (1 # 2) (x - inject_Z (Qfloor x))) eqn:E2.
    + rewrite E. lra.
    + apply Qltb_ge in E2. destruct (Z.even (Qfloor x)); [|rewrite E]; lra.
Qed.

(** Rounding keeps a value between two integers between them. *)
Lemma round_half_even_bounds (x : Q) (a b : Z) :
  inject_Z a <= x <= inject_Z b ->
  (a <= round_half_even x <= b)%Z.
Proof.
  intros [Ha Hb].
  pose proof (Qfloor_resp_le _ _ Ha) as Hfa. rewrite Qfloor_Z in Hfa.
  pose proof (Qfloor_resp_le _ _ Hb) as Hfb. rewrite Qfloor_Z in Hfb.
  pose proof (Qfloor_le x) as Hlo.
  assert (Hstep : inject_Z (Qfloor x) < x -> (Qfloor x + 1 <= b)%Z).
  { intros Hlt. assert (inject_Z (Qfloor x) < inject_Z b) as Hq by lra.
    rewrite <- Zlt_Qlt in Hq. lia. }
  unfold round_half_even.
  destruct (Qltb (x - inject_Z (Qfloor x)) (1 # 2)) eqn:E1; [lia|].
  apply Qltb_ge in E1.
  assert ((Qfloor x + 1 <= b)%Z) by (apply Hstep; lra).
  destruct (Qltb (1 # 2) (x - inject_Z (Qfloor x))); [lia|].
  destruct (Z.even (Qfloor x)); lia.
Qed.

Lemma Qmake_1000 (z : Z) : (z # 1000) == inject_Z z / 1000.
Proof.
  unfold Qeq, Qdiv, Qmult, Qinv, inject_Z. simpl. lia.
Qed.

Lemma round3_value (x : Q) :
  round3 x == inject_Z (round_half_even (x * 1000)) / 1000.
Proof.
  unfold round3. rewrite Qred_correct. apply Qmake_1000.
Qed.

Lemma round3_compat (x y : Q) : x == y -> round3 x = round3 y.
Proof.
  intros H. unfold round3.
  rewrite (round_half_even_compat (x * 1000) (y * 1000)); [reflexivity|].
  rewrite H. reflexivity.
Qed.

(** [round(x, 3)] moves a value by at most half a thousandth. *)
Lemma round3_close (x : Q) :
  x - (1 # 2000) <= round3 x <= x + (1 # 2000).
Proof.
  rewrite round3_value.
  pose proof (round_half_even_close (x * 1000)) as [H1 H2].
  split.
  - apply Qle_shift_div_l; [reflexivity|]. lra.
  - apply Qle_shift_div_r; [reflexivity|]. lra.
Qed.

Lemma round3_bounds (x : Q) (a b : Z) :
  inject_Z a <= x <= inject_Z b ->
  inject_Z a <= round3 x <= inject_Z b.
Proof.
  intros [Ha Hb]. rewrite round3_value.
  assert (inject_Z (a * 1000) <= x * 1000 <= inject_Z (b * 1000)) as H.
  { rewrite !inject_Z_mult. change (inject_Z 1000) with 1000. lra. }
  apply round_half_even_bounds in H. destruct H as [H1 H2].
  rewrite Zle_Qle in H1, H2. rewrite inject_Z_mult in H1, H2.
  change (inject_Z 1000) with 1000 in H1, H2.
  split.
  - apply Qle_shift_div_l; [reflexivity|]. exact H1.
  - apply Qle_shift_div_r; [reflexivity|]. exact H2.
Qed.

(** Rounding a rounded value changes nothing. *)
Lemma round3_idempotent (x : Q) : round3 (round3 x) = round3 x.
Proof.
  unfold round3 at 1.
  rewrite (round_half_even_compat _ (inject_Z (round_half_even (x * 1000)))).
  - rewrite round_half_even_Z. reflexivity.
  - rewrite round3_value. field.
Qed.

(* ===================================================================== *)
(** * The nearest-label search *)
(* ===================================================================== *)

(** The squared distance from a point to a table entry. *)
Definition entry_dist (v a : Q) (entry : string * (Q * Q)) : Q :=
  dist2 (v - fst (snd entry)) (a - snd (snd entry)).

(** What the loop knows after the entries [seen]: nothing yet, or the best
    so far is one of them and no entry seen is closer. *)
Definition best_of (v a : Q) (seen : list (string * (Q * Q)))
    (best : string * option Q) : Prop :=
  match snd best with
  | None => seen = []
  | Some d =>
      (exists p, In (fst best, p) seen /\ d == entry_dist v a (fst best, p))
      /\ forall entry, In entry seen -> d <= entry_dist v a entry
  end.

Lemma nearest_step_best (v a : Q) seen best entry :
  best_of v a seen best ->
  best_of v a (seen ++ [entry]) (nearest_step v a best entry).
Proof.
  destruct entry as [l [ev ea]]. destruct best as [bl [d|]];
    unfold best_of, nearest_step; cbn [fst snd closer].
  - intros [[p [Hin Hd]] Hmin].
    destruct (Qltb (dist2 (v - ev) (a - ea)) d) eqn:E; cbn [fst snd].
    + apply Qltb_lt in E. split.
      * exists (ev, ea). split; [apply in_or_app; right; left; reflexivity|].
        reflexivity.
      * intros e [He|[<-|[]]]%in_app_or.
        -- specialize (Hmin e He). lra.
        -- unfold entry_dist; cbn [fst snd]. lra.
    + apply Qltb_ge in E. split.
      * exists p. split; [apply in_or_app; left; exact Hin | exact Hd].
      * intros e [He|[<-|[]]]%in_app_or.
        -- apply Hmin, He.
        -- unfold entry_dist; cbn [fst snd]. exact E.
  - intros ->. cbn [fst snd app]. split.
    + exists (ev, ea). split; [left; reflexivity | reflexivity].
    + intros e [<-|[]]. unfold entry_dist; cbn [fst snd]. lra.
Qed.

Lemma nearest_in_best (v a : Q) table : forall seen best,
  best_of v a seen best ->
  best_of v a (seen ++ table) (nearest_in table v a best).
Proof.
  induction table as [|entry table IH]; intros seen best H.
  - rewrite app_nil_r. exact H.
  - cbn [nearest_in fold_left].
    replace (seen ++ entry :: table)%list with ((seen ++ [entry]) ++ table)%list
      by (rewrite <- app_assoc; reflexivity).
    apply IH, nearest_step_best, H.
Qed.

(** [_nearest_label] returns a label of the table, and no entry of the
    table is closer to the point than that label's. *)
Lemma _nearest_label_nearest (v a : Q) :
  exists p, In (_nearest_label v a, p) EMOTION_MAP
    /\ forall entry, In entry EMOTION_MAP ->
         entry_dist v a (_nearest_label v a, p) <= entry_dist v a entry.
Proof.
  pose proof (nearest_in_best v a EMOTION_MAP [] ("neutral", None) eq_refl) as H.
  unfold _nearest_label. cbn [app] in H.
  destruct (nearest_in EMOTION_MAP v a ("neutral", None)) as [l [d|]];
    unfold best_of in H; cbn [fst snd] in *.
  - destruct H as [[p [Hin Hd]] Hmin]. exists p. split; [exact Hin|].
    intros e He. rewrite <- Hd. apply Hmin, He.
  - discriminate H.
Qed.

(** Two runs of the search on equal numbers agree. *)
Definition same_best (x y : string * option Q) : Prop :=
  fst x = fst y
  /\ match snd x, snd y with
     | Some d, Some d' => d == d'
     | None, None => True
     | _, _ => False
     end.

Lemma nearest_step_compat (v v' a a' : Q) best best' entry :
  v == v' -> a == a' -> same_best best best' ->
  same_best (nearest_step v a best entry) (nearest_step v' a' best' entry).
Proof.
  intros Hv Ha [Hl Hd]. destruct entry as [l [ev ea]].
  destruct best as [bl [d|]], best' as [bl' [d'|]]; cbn [fst snd] in *;
    try contradiction; unfold nearest_step; cbn [snd closer].
  - assert (Hdist : dist2 (v - ev) (a - ea) == dist2 (v' - ev) (a' - ea))
      by (unfold dist2; rewrite Hv, Ha; reflexivity).
    rewrite (Qltb_compat _ _ _ _ Hdist Hd).
    destruct (Qltb (dist2 (v' - ev) (a' - ea)) d'); split; cbn [fst snd]; auto.
  - split; cbn [fst snd]; [reflexivity|].
    unfold dist2; rewrite Hv, Ha; reflexivity.
Qed.

Lemma nearest_in_compat (v v' a a' : Q) table : forall best best',
  v == v' -> a == a' -> same_best best best' ->
  same_best (nearest_in table v a best) (nearest_in table v' a' best').
Proof.
  induction table as [|entry table IH]; intros best best' Hv Ha H.
  - exact H.
  - cbn [nearest_in fold_left]. apply IH; try assumption.
    apply nearest_step_compat; assumption.
Qed.

Lemma _nearest_label_compat (v v' a a' : Q) :
  v == v' -> a == a' -> _nearest_label v a = _nearest_label v' a'.
Proof.
  intros Hv Ha.
  assert (H0 : same_best ("neutral", None) ("neutral", None))
    by (split; [reflexivity | exact I]).
  pose proof (nearest_in_compat v v' a a' EMOTION_MAP _ _ Hv Ha H0) as [H _].
  exact H.
Qed.

Lemma _intensity_from_arousal_compat (a a' : Q) :
  a == a' -> _intensity_from_arousal a = _intensity_from_arousal a'.
Proof.
  intros H. unfold _intensity_from_arousal.
  rewrite (Qltb_compat a a' 0.35 0.35 H (Qeq_refl _)).
  rewrite (Qle_bool_compat a a' 0.65 0.65 H (Qeq_refl _)).
  reflexivity.
Qed.

(** The thresholds of [_intensity_from_arousal], case by case. *)
Lemma _intensity_from_arousal_cases (a : Q) :
  (a < 0.35 /\ _intensity_from_arousal a = "low")
  \/ (0.35 <= a <= 0.65 /\ _intensity_from_arousal a = "mid")
  \/ (0.65 < a /\ _intensity_from_arousal a = "high").
Proof.
  unfold _intensity_from_arousal.
  destruct (Qltb a 0.35) eqn:E1.
  - left. apply Qltb_lt in E1. auto.
  - apply Qltb_ge in E1. destruct (Qle_bool a 0.65) eqn:E2.
    + right; left. apply Qle_bool_iff in E2. auto.
    + right; right. split; [|reflexivity].
      apply Qnot_le_lt. intros H. apply Qle_bool_iff in H. congruence.
Qed.

(* ===================================================================== *)
(** * Well-formed emotion states *)
(* ===================================================================== *)

(** The domain of the data model: coordinates in range, a label of the
    canonical table, one of the three intensity levels. *)
Definition valid_state (s : EmotionState) : Prop :=
  (-1 <= valence s <= 1) /\ (0 <= arousal s <= 1)
  /\ In (label s) (map fst EMOTION_MAP)
  /\ In (intensity s) INTENSITY_LEVELS.

Definition in_domain (p : Q * Q) : Prop :=
  (-1 <= fst p <= 1) /\ (0 <= snd p <= 1).

Definition in_domainb (p : Q * Q) : bool :=
  Qle_bool (-1) (fst p) && Qle_bool (fst p) 1
  && Qle_bool 0 (snd p) && Qle_bool (snd p) 1.

Lemma in_domainb_spec (p : Q * Q) : in_domainb p = true -> in_domain p.
Proof.
  unfold in_domainb, in_domain. rewrite !andb_true_iff, !Qle_bool_iff. tauto.
Qed.

Lemma assoc_In {A : Type} (key : string) (table : list (string * A)) (x : A) :
  assoc key table = Some x -> In (key, x) table.
Proof.
  induction table as [|[k y] table IH]; cbn [assoc]; [discriminate|].
  destruct (String.eqb key k) eqn:E.
  - apply String.eqb_eq in E. intros [= ->]. left. subst. reflexivity.
  - intros H. right. apply IH, H.
Qed.

Lemma EMOTION_MAP_in_domain (l : string) (p : Q * Q) :
  In (l, p) EMOTION_MAP -> in_domain p.
Proof.
  intros Hin. apply in_domainb_spec.
  assert (Hall : forallb (fun e => in_domainb (snd e)) EMOTION_MAP = true)
    by (vm_compute; reflexivity).
  rewrite forallb_forall in Hall. apply (Hall (l, p) Hin).
Qed.

Lemma nearest_in_label (table : list (string * (Q * Q))) (v a : Q) :
  table <> [] ->
  In (fst (nearest_in table v a ("neutral", None))) (map fst table).
Proof.
  intros Hne.
  pose proof (nearest_in_best v a table [] ("neutral", None) eq_refl) as H.
  cbn [app] in H.
  destruct (nearest_in table v a ("neutral", None)) as [l [d|]];
    unfold best_of in H; cbn [fst snd] in *.
  - destruct H as [[p [Hin _]] _].
    apply in_map_iff. exists (l, p). split; [reflexivity | exact Hin].
  - contradiction.
Qed.

Lemma EMOTION_MAP_not_empty : EMOTION_MAP <> [].
Proof. discriminate. Qed.

Lemma _nearest_label_in_table (v a : Q) :
  In (_nearest_label v a) (map fst EMOTION_MAP).
Proof.
  exact (nearest_in_label EMOTION_MAP v a EMOTION_MAP_not_empty).
Qed.

Lemma _intensity_from_arousal_level (a : Q) :
  In (_intensity_from_arousal a) INTENSITY_LEVELS.
Proof.
  destruct (_intensity_from_arousal_cases a) as [[_ ->]|[[_ ->]|[_ ->]]];
    cbn; auto.
Qed.

Lemma _apply_mbti_modifiers_in_domain `{PyStr} (v a : Q) (mbti : option string) :
  in_domain (v, a) -> in_domain (_apply_mbti_modifiers v a mbti).
Proof.
  intros Hd. unfold _apply_mbti_modifiers.
  destruct mbti as [m|]; [|exact Hd].
  destruct (negb (truthy (Some m)) || (py_len m <? 4)%nat); [exact Hd|].
  split; cbn [fst snd]; apply _clamp_bounds; lra.
Qed.

Lemma rounded_state_valid (v a : Q) :
  in_domain (v, a) ->
  valid_state (mkEmotionState (round3 v) (round3 a) (_nearest_label v a)
                              (_intensity_from_arousal a)).
Proof.
  intros [Hv Ha]. cbn [fst snd] in Hv, Ha.
  unfold valid_state; cbn [valence arousal label intensity].
  repeat split.
  - apply (round3_bounds v (-1) 1). exact Hv.
  - apply (round3_bounds v (-1) 1). exact Hv.
  - apply (round3_bounds a 0 1). exact Ha.
  - apply (round3_bounds a 0 1). exact Ha.
  - apply _nearest_label_in_table.
  - apply _intensity_from_arousal_level.
Qed.

Lemma label_to_circumplex_valid `{PyStr} (l : string) (m : option string) :
  valid_state (label_to_circumplex l m).
Proof.
  unfold label_to_circumplex.
  assert (Hd : in_domain match assoc l EMOTION_MAP with
                         | Some p => p
                         | None => (0.0, 0.2)
                         end).
  { destruct (assoc l EMOTION_MAP) as [p|] eqn:E.
    - apply (EMOTION_MAP_in_domain l p), assoc_In, E.
    - split; cbn [fst snd]; lra. }
  destruct (match assoc l EMOTION_MAP with Some p => p | None => (0.0, 0.2) end)
    as [v a].
  pose proof (_apply_mbti_modifiers_in_domain v a m Hd) as Hd'.
  destruct (_apply_mbti_modifiers v a m) as [v' a'].
  apply rounded_state_valid, Hd'.
Qed.

Lemma apply_inertia_valid (prev new : EmotionState) (f : Z) :
  valid_state (apply_inertia prev new f).
Proof.
  unfold apply_inertia. destruct (_inertia_weights prev f) as [w_prev w_new].
  apply rounded_state_valid.
  split; cbn [fst snd]; apply _clamp_bounds; lra.
Qed.

(** C9.  Every state returned by [label_to_circumplex] or [apply_inertia]
    has valence in [-1, 1], arousal in [0, 1], a label of the canonical
    table (which has 21 entries) and an intensity among low, mid, high:
    for every label, known or not, every MBTI string, and every pair of
    states to blend, whatever their coordinates. *)
Theorem returned_states_are_valid `{PyStr} :
  (forall (l : string) (m : option string), valid_state (label_to_circumplex l m))
  /\ (forall (prev new : EmotionState) (f : Z), valid_state (apply_inertia prev new f))
  /\ List.length EMOTION_MAP = 21%nat.
Proof.
  split; [|split].
  - intros l m. apply label_to_circumplex_valid.
  - intros prev new f. apply apply_inertia_valid.
  - reflexivity.
Qed.

(* ===================================================================== *)
(** * Inertia *)
(* ===================================================================== *)

Lemma _inertia_weights_sum (prev : EmotionState) (f : Z) :
  fst (_inertia_weights prev f) + snd (_inertia_weights prev f) == 1.
Proof.
  unfold _inertia_weights.
  destruct (String.eqb (label prev) "neutral"); [reflexivity|].
  destruct (8 <=? f)%Z; [reflexivity|].
  destruct (5 <=? f)%Z; reflexivity.
Qed.

(** The weights by case, as [_inertia_weights] computes them. *)
Lemma _inertia_weights_cases (prev : EmotionState) (f : Z) :
  (label prev = "neutral" /\ _inertia_weights prev f = (0.3, 0.7))
  \/ (label prev <> "neutral"
      /\ (((8 <= f)%Z /\ _inertia_weights prev f = (0.35, 0.65))
          \/ ((5 <= f < 8)%Z /\ _inertia_weights prev f = (0.50, 0.50))
          \/ ((f < 5)%Z /\ _inertia_weights prev f = (0.65, 0.35)))).
Proof.
  unfold _inertia_weights.
  destruct (String.eqb (label prev) "neutral") eqn:E.
  - left. apply String.eqb_eq in E. auto.
  - right. apply String.eqb_neq in E. split; [exact E|].
    destruct (8 <=? f)%Z eqn:E8; [left; split; [lia | reflexivity]|].
    destruct (5 <=? f)%Z eqn:E5.
    + right; left. split; [lia | reflexivity].
    + right; right. split; [lia | reflexivity].
Qed.

(** ** [apply_inertia] on binary64

    Python's [float] is the IEEE 754 binary64 format, which the kernel's
    primitive floats implement.  The weights of [apply_inertia] are not
    dyadic, so what it returns for a state blended with itself is decided
    here on the doubles themselves. *)
Module Binary64.
Import PrimFloat SpecFloat FloatOps.
Local Open Scope float_scope.
#[local] Set Warnings "-inexact-float".

Record EmotionState := mkEmotionState {
  valence : float;
  arousal : float;
  label : string;
  intensity : string
}.

Definition EMOTION_MAP : list (string * (float * float)) :=
  [ ("excited", (0.8, 0.9));
    ("happy", (0.7, 0.5));
    ("loving", (0.8, 0.4));
    ("neutral", (0.0, 0.2));
    ("thinking", (0.1, 0.4));
    ("surprised", (0.3, 0.85));
    ("jealous", (-0.5, 0.75));
    ("shy", (0.3, 0.35));
    ("anxious", (-0.4, 0.8));
    ("sad", (-0.7, 0.2));
    ("angry", (-0.8, 0.9));
    ("disappointed", (-0.6, 0.35));
    ("frustrated", (-0.5, 0.65));
    ("proud", (0.7, 0.65));
    ("grateful", (0.65, 0.25));
    ("bored", (-0.3, 0.1));
    ("curious", (0.3, 0.55));
    ("embarrassed", (-0.3, 0.55));
    ("playful", (0.55, 0.75));
    ("lonely", (-0.55, 0.15));
    ("confused", (-0.15, 0.45)) ].

(** Python's [min(a, b)] and [max(a, b)]: the second argument is taken
    only when it compares strictly below (above) the first. *)
Definition py_min (a b : float) : float := if b <? a then b else a.
Definition py_max (a b : float) : float := if a <? b then b else a.

Definition _clamp (value lo hi : float) : float := py_max lo (py_min hi value).

Definition _intensity_from_arousal (arousal : float) : string :=
  if arousal <? 0.35 then "low"
  else if arousal <=? 0.65 then "mid"
  else "high".

(** The number a finite double stands for. *)
Definition exact (x : float) : Q :=
  match Prim2SF x with
  | S754_finite negative m e =>
      let mantissa := if negative then Z.neg m else Z.pos m in
      if (0 <=? e)%Z then inject_Z (mantissa * 2 ^ e)
      else mantissa # Z.to_pos (2 ^ (- e))
  | _ => 0%Q
  end.

(** The double of an integer below 2^53 in absolute value. *)
Definition of_Z (n : Z) : float :=
  if (n <? 0)%Z then - of_uint63 (Uint63.of_Z (- n)) else of_uint63 (Uint63.of_Z n).

(** The double that Python reads for the decimal [n / 1000], which is
    also what [round(x, 3)] returns for it: the quotient of two integers
    is rounded to the nearest double. *)
Definition grid (n : Z) : float := of_Z n / 1000.

(** [round(x, 3)]: the exact value of [x] is rounded to three decimals,
    ties to even, and the decimal read back as a double; a zero keeps the
    sign of [x], and infinities and NaN are returned as they are. *)
Definition round3 (x : float) : float :=
  if is_nan x || is_infinity x then x
  else
    let n := round_half_even (exact x * 1000) in
    if (n =? 0)%Z && get_sign x then neg_zero else grid n.

Definition _inertia_weights (prev : EmotionState) (familiarity_level : Z)
    : float * float :=
  if String.eqb (label prev) "neutral" then (0.3, 0.7)
  else if (8 <=? familiarity_level)%Z then (0.35, 0.65)
  else if (5 <=? familiarity_level)%Z then (0.50, 0.50)
  else (0.65, 0.35).

Section Hypot.

(** [math.hypot], whatever the C library computes. *)
Variable hypot : float -> float -> float.

Definition nearest_step (valence arousal : float)
    (best : string * float) (entry : string * (float * float)) : string * float :=
  let '(label, (v, a)) := entry in
  let dist := hypot (valence - v) (arousal - a) in
  if dist <? snd best then (label, dist) else best.

Definition _nearest_label (valence arousal : float) : string :=
  fst (fold_left (nearest_step valence arousal) EMOTION_MAP ("neutral", infinity)).

Definition apply_inertia (prev new : EmotionState) (familiarity_level : Z)
    : EmotionState :=
  let '(w_prev, w_new) := _inertia_weights prev familiarity_level in
  let valence := _clamp (valence prev * w_prev + valence new * w_new) (-1.0) 1.0 in
  let arousal := _clamp (arousal prev * w_prev + arousal new * w_new) 0.0 1.0 in
  let label := _nearest_label valence arousal in
  let intensity := _intensity_from_arousal arousal in
  mkEmotionState (round3 valence) (round3 arousal) label intensity.

End Hypot.

(** [math.hypot] as the rounded square root of the rounded sum of the
    rounded squares. *)
Definition hypot_sqrt (x y : float) : float := sqrt (x * x + y * y).

(** The pairs of weights that [_inertia_weights] can return. *)
Definition WEIGHTS : list (float * float) :=
  [ (0.3, 0.7); (0.35, 0.65); (0.50, 0.50); (0.65, 0.35) ].

(** A coordinate blended with itself, before the rounding. *)
Definition self_blend (lo hi : float) (w : float * float) (x : float) : float :=
  _clamp (x * fst w + x * snd w) lo hi.

Fixpoint range (lo : Z) (n : nat) : list Z :=
  match n with
  | O => []
  | S k => lo :: range (lo + 1) k
  end.

Definition coordinate_kept (lo hi : float) (w : float * float) (n : Z) : bool :=
  Leibniz.eqb (round3 (self_blend lo hi w (grid n))) (grid n).

Definition intensity_kept (w : float * float) (n : Z) : bool :=
  String.eqb (_intensity_from_arousal (self_blend 0.0 1.0 w (grid n)))
             (_intensity_from_arousal (grid n)).

Definition blend_exact (lo hi : float) (n : Z) : bool :=
  Leibniz.eqb (self_blend lo hi (0.50, 0.50) (grid n)) (grid n).

Lemma In_range (k : Z) : forall n lo,
  (lo <= k < lo + Z.of_nat n)%Z -> In k (range lo n).
Proof.
  induction n as [|n IH]; intros lo Hk; [lia|].
  cbn [range]. destruct (Z.eq_dec lo k) as [->|Hne]; [left; reflexivity|].
  right. apply IH. lia.
Qed.

Lemma In_grid_valence (n : Z) :
  (-1000 <= n <= 1000)%Z -> In n (range (-1000) 2001).
Proof.
  intros Hn. apply In_range. change (Z.of_nat 2001) with 2001%Z. lia.
Qed.

Lemma In_grid_arousal (n : Z) :
  (0 <= n <= 1000)%Z -> In n (range 0 1001).
Proof.
  intros Hn. apply In_range. change (Z.of_nat 1001) with 1001%Z. lia.
Qed.

Lemma _inertia_weights_in (prev : EmotionState) (f : Z) :
  In (_inertia_weights prev f) WEIGHTS.
Proof.
  unfold _inertia_weights, WEIGHTS.
  destruct (String.eqb (label prev) "neutral"); [left; reflexivity|].
  destruct (8 <=? f)%Z; [right; left; reflexivity|].
  destruct (5 <=? f)%Z; [do 2 right; left; reflexivity|].
  do 3 right; left; reflexivity.
Qed.

Lemma valence_kept_checked :
  forallb (fun w => forallb (coordinate_kept (-1.0) 1.0 w) (range (-1000) 2001))
          WEIGHTS = true.
Proof. vm_compute. reflexivity. Qed.

Lemma arousal_kept_checked :
  forallb (fun w => forallb (fun n => coordinate_kept 0.0 1.0 w n && intensity_kept w n)
                            (range 0 1001))
          WEIGHTS = true.
Proof. vm_compute. reflexivity. Qed.

Lemma blend_exact_checked :
  forallb (blend_exact (-1.0) 1.0) (range (-1000) 2001)
  && forallb (blend_exact 0.0 1.0) (range 0 1001) = true.
Proof. vm_compute. reflexivity. Qed.

Lemma valence_kept (w : float * float) (n : Z) :
  In w WEIGHTS -> (-1000 <= n <= 1000)%Z ->
  round3 (self_blend (-1.0) 1.0 w (grid n)) = grid n.
Proof.
  intros Hw Hn. pose proof valence_kept_checked as H.
  rewrite forallb_forall in H. specialize (H w Hw).
  rewrite forallb_forall in H. specialize (H n (In_grid_valence n Hn)).
  apply FloatAxioms.Leibniz.eqb_spec in H. exact H.
Qed.

Lemma arousal_kept (w : float * float) (n : Z) :
  In w WEIGHTS -> (0 <= n <= 1000)%Z ->
  round3 (self_blend 0.0 1.0 w (grid n)) = grid n
  /\ _intensity_from_arousal (self_blend 0.0 1.0 w (grid n))
     = _intensity_from_arousal (grid n).
Proof.
  intros Hw Hn. pose proof arousal_kept_checked as H.
  rewrite forallb_forall in H. specialize (H w Hw).
  rewrite forallb_forall in H. specialize (H n (In_grid_arousal n Hn)).
  apply andb_true_iff in H. destruct H as [H1 H2].
  apply FloatAxioms.Leibniz.eqb_spec in H1. apply String.eqb_eq in H2.
  split; assumption.
Qed.

Lemma blend_exact_spec (n m : Z) :
  (-1000 <= n <= 1000)%Z -> (0 <= m <= 1000)%Z ->
  self_blend (-1.0) 1.0 (0.50, 0.50) (grid n) = grid n
  /\ self_blend 0.0 1.0 (0.50, 0.50) (grid m) = grid m.
Proof.
  intros Hn Hm. pose proof blend_exact_checked as H.
  apply andb_true_iff in H. destruct H as [H1 H2].
  rewrite forallb_forall in H1, H2.
  specialize (H1 n (In_grid_valence n Hn)).
  specialize (H2 m (In_grid_arousal m Hm)).
  apply FloatAxioms.Leibniz.eqb_spec in H1, H2. split; assumption.
Qed.

(** C8, as amended.  A state whose valence and arousal are the doubles of
    decimals with at most three digits, in [-1, 1] and [0, 1], and whose
    intensity is that of its arousal, blended with itself: for every
    familiarity level the valence, the arousal and the intensity come
    back as they are, whatever [math.hypot] computes; with the equal
    weights (familiarity 5 to 7 and a label other than "neutral") the
    blend is exact, and a state that also carries the nearest label of
    its own point comes back whole. *)
Theorem apply_inertia_self (hypot : float -> float -> float)
    (s : EmotionState) (f n m : Z) :
  (-1000 <= n <= 1000)%Z -> (0 <= m <= 1000)%Z ->
  valence s = grid n -> arousal s = grid m ->
  intensity s = _intensity_from_arousal (arousal s) ->
  let r := apply_inertia hypot s s f in
  valence r = valence s /\ arousal r = arousal s /\ intensity r = intensity s
  /\ (label s = _nearest_label hypot (valence s) (arousal s) ->
      label s <> "neutral" -> (5 <= f <= 7)%Z ->
      r = s).
Proof.
  destruct s as [v a l i]. cbn [valence arousal intensity label].
  intros Hn Hm -> -> ->. cbv zeta.
  pose proof (_inertia_weights_in (mkEmotionState (grid n) (grid m) l
                (_intensity_from_arousal (grid m))) f) as Hw.
  unfold apply_inertia.
  destruct (_inertia_weights _ f) as [w_prev w_new] eqn:Ew.
  cbn [valence arousal intensity label].
  pose proof (valence_kept (w_prev, w_new) n Hw Hn) as Kv.
  destruct (arousal_kept (w_prev, w_new) m Hw Hm) as [Ka Ki].
  unfold self_blend in Kv, Ka, Ki. cbn [fst snd] in Kv, Ka, Ki.
  split; [exact Kv|]. split; [exact Ka|]. split; [exact Ki|].
  intros Hl Hneutral Hf.
  assert (Eq : (w_prev, w_new) = (0.50, 0.50)).
  { rewrite <- Ew. unfold _inertia_weights. cbn [label].
    destruct (String.eqb_spec l "neutral") as [E|_]; [contradiction|].
    destruct (Z.leb_spec 8 f); [lia|].
    destruct (Z.leb_spec 5 f); [reflexivity | lia]. }
  injection Eq as -> ->.
  destruct (blend_exact_spec n m Hn Hm) as [Ev Ea].
  unfold self_blend in Ev, Ea. cbn [fst snd] in Ev, Ea.
  rewrite Kv, Ka, Ki, Ev, Ea, <- Hl. reflexivity.
Qed.

Lemma apply_inertia_self_witness :
  let s := mkEmotionState 0.3 0.45 "shy" "mid" in
  (apply_inertia hypot_sqrt s s 9).(arousal) = 0.45
  /\ (apply_inertia hypot_sqrt s s 9).(intensity) = "mid"
  /\ apply_inertia hypot_sqrt s s 5 = s.
Proof.
  cbv zeta.
  pose proof (fun f => apply_inertia_self hypot_sqrt
                (mkEmotionState 0.3 0.45 "shy" "mid") f 300 450
                ltac:(lia) ltac:(lia) eq_refl eq_refl eq_refl) as H.
  cbv zeta in H.
  destruct (H 9%Z) as (_ & Ha & Hi & _).
  destruct (H 5%Z) as (_ & _ & _ & Hs).
  split; [exact Ha|]. split; [exact Hi|].
  apply Hs; [vm_compute; reflexivity | discriminate | lia].
Defined.

(** C8, as stated, fails twice.  A state that is not its own
    discretization, such as the relationship default (0.6, 0.5, loving,
    medium), comes back with another label and intensity.  And the state
    (0.3, 0.45, shy, mid), which is its own discretization, comes back as
    "curious" for familiarity 9 and 2: 0.45 * 0.35 + 0.45 * 0.65 is
    0.45000000000000007 in binary64, the valence stays 0.3, the valence
    of "shy" and of "curious", and the arousal is now nearer to 0.55 than
    to 0.35. *)
Lemma apply_inertia_self_counterexample :
  let loving := mkEmotionState 0.6 0.5 "loving" "medium" in
  let shy := mkEmotionState 0.3 0.45 "shy" "mid" in
  apply_inertia hypot_sqrt loving loving 5 = mkEmotionState 0.6 0.5 "happy" "mid"
  /\ (label shy = _nearest_label hypot_sqrt (valence shy) (arousal shy)
      /\ intensity shy = _intensity_from_arousal (arousal shy)
      /\ valence shy = grid 300 /\ arousal shy = grid 450)
  /\ apply_inertia hypot_sqrt shy shy 9 = mkEmotionState 0.3 0.45 "curious" "mid"
  /\ apply_inertia hypot_sqrt shy shy 2 = mkEmotionState 0.3 0.45 "curious" "mid"
  /\ (0.45 * 0.35 + 0.45 * 0.65 = 0.45000000000000007
      /\ 0.3 * 0.35 + 0.3 * 0.65 = 0.3
      /\ abs (0.45000000000000007 - 0.35) = 0.10000000000000009
      /\ abs (0.45000000000000007 - 0.55) = 0.09999999999999998).
Proof.
  cbv zeta. repeat split; vm_compute; reflexivity.
Qed.

End Binary64.

(* ===================================================================== *)
(** * Discretization of the states a session holds *)
(* ===================================================================== *)

(** [s] carries the nearest label and the intensity of the point
    [(v, a)]. *)
Definition discretizes (v a : Q) (s : EmotionState) : Prop :=
  (exists p, In (label s, p) EMOTION_MAP
     /\ forall entry, In entry EMOTION_MAP ->
          entry_dist v a (label s, p) <= entry_dist v a entry)
  /\ (a < 0.35 -> intensity s = "low")
  /\ (0.35 <= a <= 0.65 -> intensity s = "mid")
  /\ (0.65 < a -> intensity s = "high").

(** The invariant of the data model, read on the stored coordinates. *)
Definition well_discretized (s : EmotionState) : Prop :=
  discretizes (valence s) (arousal s) s.

Lemma rounded_state_discretizes (v a : Q) :
  discretizes v a (mkEmotionState (round3 v) (round3 a) (_nearest_label v a)
                                  (_intensity_from_arousal a)).
Proof.
  unfold discretizes; cbn [label intensity]. split.
  - apply _nearest_label_nearest.
  - destruct (_intensity_from_arousal_cases a) as [[H ->]|[[H ->]|[H ->]]];
      repeat split; intros; try reflexivity; lra.
Qed.

(** What the affect model returns: the rounding of a point of the domain,
    with the label and the intensity of that point. *)
Definition discretized_before_rounding (s : EmotionState) : Prop :=
  exists v a, in_domain (v, a)
    /\ valence s = round3 v /\ arousal s = round3 a
    /\ discretizes v a s.

Lemma label_to_circumplex_discretized `{PyStr} (l : string) (m : option string) :
  discretized_before_rounding (label_to_circumplex l m).
Proof.
  unfold label_to_circumplex.
  assert (Hd : in_domain match assoc l EMOTION_MAP with
                         | Some p => p
                         | None => (0.0, 0.2)
                         end).
  { destruct (assoc l EMOTION_MAP) as [p|] eqn:E.
    - apply (EMOTION_MAP_in_domain l p), assoc_In, E.
    - split; cbn [fst snd]; lra. }
  destruct (match assoc l EMOTION_MAP with Some p => p | None => (0.0, 0.2) end)
    as [v a].
  pose proof (_apply_mbti_modifiers_in_domain v a m Hd) as Hd'.
  destruct (_apply_mbti_modifiers v a m) as [v' a'].
  exists v', a'. repeat split; try apply Hd'; try reflexivity;
    apply rounded_state_discretizes.
Qed.

Lemma apply_inertia_discretized (prev new : EmotionState) (f : Z) :
  discretized_before_rounding (apply_inertia prev new f).
Proof.
  unfold apply_inertia. destruct (_inertia_weights prev f) as [w_prev w_new].
  eexists _, _. split; [|split; [reflexivity|split; [reflexivity|]]].
  - split; cbn [fst snd]; apply _clamp_bounds; lra.
  - apply rounded_state_discretizes.
Qed.

Lemma classify_to_circumplex_discretized `{PyStr} (text : string)
    (rel : option string) (fam : Z) (m : option string)
    (prev : option EmotionState) :
  discretized_before_rounding (classify_to_circumplex text rel fam m prev).
Proof.
  unfold classify_to_circumplex. destruct prev as [p|].
  - apply apply_inertia_discretized.
  - apply label_to_circumplex_discretized.
Qed.

Lemma current_emotion_append (e : TranscriptEntry) (st : SessionState) :
  current_emotion (append_transcript e st) = current_emotion st.
Proof. reflexivity. Qed.

(** C3, as amended.  The state a reclassification stores as the session's
    current emotion is the rounding to three decimals of a point of the
    domain, and carries the nearest label and the intensity of that point
    (not of the rounded one). *)
Theorem reclassified_emotion_discretized `{PyStr} (text : string)
    (st : SessionState) :
  user_interacted_since_last_emotion st = true ->
  discretized_before_rounding
    (current_emotion (fst (handle_output_transcription text st))).
Proof.
  intros Hflag. unfold handle_output_transcription. rewrite Hflag.
  destruct (truthy (Some (strip text))); cbn [fst];
    rewrite ?current_emotion_append; cbn [with_emotion current_emotion];
    apply classify_to_circumplex_discretized.
Qed.

Lemma reclassified_emotion_discretized_witness :
  user_interacted_since_last_emotion initial_session = true
  /\ discretized_before_rounding
       (current_emotion
          (fst (handle_output_transcription "haha that's awesome!" initial_session))).
Proof.
  split; [reflexivity|].
  apply (reclassified_emotion_discretized "haha that's awesome!" initial_session).
  reflexivity.
Defined.

(** An upstream event that carries an output transcription and the
    transcription of what the user said next. *)
Definition exchange (text : string) : Q * Response :=
  (0, mkResponse false (Some (mkContent false false [] (Some text) (Some "ok")))).

(** C3, as stated, fails twice.  On the state seeded from the relationship
    default table: for a "Nemesis" the session starts from
    (-0.2, 0.5, angry, low), whose nearest label is not "angry" and whose
    arousal asks for "mid".  And on a reclassified state: after five
    exchanges a fresh session holds (-0.006, 0.233, neutral, low); the
    transcript "hmm" then blends its arousal with that of "thinking" into
    0.233 * 0.3 + 0.4 * 0.7 = 0.3499, which is "low", and the state is
    stored with the rounded arousal 0.35, which asks for "mid". *)
Lemma stored_emotion_counterexample :
  (seed_emotion None (Some "Nemesis") initial_session
     = mkEmotionState (-0.2) 0.5 "angry" "low"
   /\ ~ well_discretized (seed_emotion None (Some "Nemesis") initial_session)
   /\ _nearest_label (-0.2) 0.5 = "confused")
  /\ (let st := fst (fst (handle_responses
                            (map exchange ["boring"; "grateful"; "whoa"; "boring"; "ok"])
                            initial_session)) in
      let stored := current_emotion (fst (handle_output_transcription "hmm" st)) in
      emo_eq (current_emotion st) (mkEmotionState (-0.006) 0.233 "neutral" "low")
      /\ user_interacted_since_last_emotion st = true
      /\ emo_eq stored (mkEmotionState 0.068 0.35 "thinking" "low")
      /\ 0.233 * 0.3 + 0.4 * 0.7 == 0.3499
      /\ _intensity_from_arousal 0.3499 = "low"
      /\ _intensity_from_arousal 0.35 = "mid"
      /\ ~ well_discretized stored).
Proof.
  split.
  - split; [reflexivity|]. split; [|vm_compute; reflexivity].
    intros (_ & _ & Hmid & _).
    cbn in Hmid. assert (H : "low" = "mid") by (apply Hmid; lra).
    discriminate H.
  - cbv zeta.
    assert (E : current_emotion
                  (fst (handle_output_transcription "hmm"
                     (fst (fst (handle_responses
                        (map exchange ["boring"; "grateful"; "whoa"; "boring"; "ok"])
                        initial_session)))))
                = mkEmotionState (17 # 250) (7 # 20) "thinking" "low")
      by (vm_compute; reflexivity).
    split; [vm_compute; repeat split; reflexivity|].
    split; [vm_compute; reflexivity|].
    split; [rewrite E; unfold emo_eq; cbn; repeat split; reflexivity|].
    split; [reflexivity|]. split; [reflexivity|]. split; [reflexivity|].
    rewrite E. intros (_ & _ & Hmid & _).
    cbn in Hmid. assert (H : "low" = "mid") by (apply Hmid; lra).
    discriminate H.
Qed.

(** The relationship defaults that the nearest-label search would label
    differently, and those whose intensity is not the one of their
    arousal. *)
Definition default_label_off (e : string * EmotionState) : bool :=
  negb (String.eqb (label (snd e))
                   (_nearest_label (valence (snd e)) (arousal (snd e)))).

Definition default_intensity_off (e : string * EmotionState) : bool :=
  negb (String.eqb (intensity (snd e))
                   (_intensity_from_arousal (arousal (snd e)))).

(* ===================================================================== *)
(** * The blend inside [classify_to_circumplex] *)
(* ===================================================================== *)

(** Whatever familiarity is supplied, the blend is the one of familiarity
    5: [apply_inertia] is called without its third argument. *)
Lemma classify_to_circumplex_blend `{PyStr} (text : string)
    (rel : option string) (fam : Z) (m : option string) (prev : EmotionState) :
  classify_to_circumplex text rel fam m (Some prev)
  = apply_inertia prev
      (label_to_circumplex (classify_emotion_heuristic text rel fam) m) 5.
Proof. reflexivity. Qed.

(** C2 at the failing input: previous state (0.7, 0.5, happy, mid), empty
    text, familiarity 9.  The code blends with weights (0.5, 0.5) and
    returns (0.35, 0.35); the weights (0.35, 0.65) of the claim give
    (0.245, 0.305). *)
Lemma classify_blend_at_familiarity_9 :
  let prev := mkEmotionState 0.7 0.5 "happy" "mid" in
  let got := classify_to_circumplex "" None 9 None (Some prev) in
  let claimed := apply_inertia prev (label_to_circumplex "neutral" None) 9 in
  classify_emotion_heuristic "" None 9 = "neutral"
  /\ valence got == 0.35 /\ arousal got == 0.35
  /\ valence claimed == 0.245 /\ arousal claimed == 0.305
  /\ ~ emo_eq got claimed.
Proof.
  cbv zeta. repeat split; try (vm_compute; reflexivity).
  intros (Hv & _). vm_compute in Hv. discriminate Hv.
Qed.

(* ===================================================================== *)
(** * The keyword heuristic *)
(* ===================================================================== *)

(** No keyword of the lexicon occurs in the lower-cased text. *)
Definition no_keyword (text_lower : string) : Prop :=
  forall emotion keywords kw,
    In (emotion, keywords) EMOTION_KEYWORDS -> In kw keywords ->
    py_in kw text_lower = false.

Definition no_keywordb (text_lower : string) : bool :=
  forallb (fun entry => forallb (fun kw => negb (py_in kw text_lower)) (snd entry))
          EMOTION_KEYWORDS.

Lemma no_keywordb_spec (text_lower : string) :
  no_keywordb text_lower = true -> no_keyword text_lower.
Proof.
  unfold no_keywordb, no_keyword. intros H emotion keywords kw Hin Hkw.
  rewrite forallb_forall in H. specialize (H _ Hin). cbn [snd] in H.
  rewrite forallb_forall in H. specialize (H _ Hkw).
  apply negb_true_iff, H.
Qed.

(** The bias entry of a relationship type, if any. *)
Definition bias_of (relationship_type : option string) : option string :=
  match relationship_type with
  | Some r => assoc r RELATIONSHIP_EMOTION_BIAS
  | None => None
  end.

Lemma keyword_score_from (text_lower : string) (keywords : list string) :
  forall start,
  (forall kw, In kw keywords -> py_in kw text_lower = false) ->
  fold_left (fun score kw => if py_in kw text_lower then S score else score)
            keywords start = start.
Proof.
  induction keywords as [|kw keywords IH]; intros start H; [reflexivity|].
  cbn [fold_left]. rewrite (H kw (or_introl eq_refl)).
  apply IH. intros kw' Hin. apply H. right. exact Hin.
Qed.

Lemma keyword_scores_zero (text_lower : string) :
  no_keyword text_lower ->
  forall entry, In entry (keyword_scores text_lower) -> snd entry = 0%nat.
Proof.
  intros Hno entry Hin. unfold keyword_scores in Hin.
  apply in_map_iff in Hin. destruct Hin as [[emotion keywords] [<- Hin]].
  cbn [fst snd]. apply keyword_score_from.
  intros kw Hkw. apply (Hno emotion keywords kw Hin Hkw).
Qed.

Lemma max_score_fold_zero (rest : list (string * nat)) :
  forall first,
  snd first = 0%nat -> (forall entry, In entry rest -> snd entry = 0%nat) ->
  snd (fold_left (fun best entry =>
                    if (snd best <? snd entry)%nat then entry else best)
                 rest first) = 0%nat.
Proof.
  induction rest as [|entry rest IH]; intros first H0 Hall; [exact H0|].
  cbn [fold_left]. apply IH.
  - destruct (snd first <? snd entry)%nat; [|exact H0].
    apply Hall. left. reflexivity.
  - intros e He. apply Hall. right. exact He.
Qed.

Lemma max_score_zero (scores : list (string * nat)) :
  (forall entry, In entry scores -> snd entry = 0%nat) ->
  snd (max_score scores) = 0%nat.
Proof.
  intros Hall. destruct scores as [|first rest]; [reflexivity|].
  cbn [max_score]. apply max_score_fold_zero.
  - apply Hall. left. reflexivity.
  - intros e He. apply Hall. right. exact He.
Qed.

(** Without a keyword the classifier falls through to the bias. *)
Lemma classify_emotion_heuristic_no_keyword `{PyStr} (text : string)
    (rel : option string) (fam : Z) :
  no_keyword (lower text) ->
  classify_emotion_heuristic text rel fam
  = match bias_of rel with
    | Some bias =>
        if (7 <=? fam)%Z then bias
        else if (4 <=? fam)%Z then
          (if (20 <? py_len text)%nat then bias else "neutral")
        else "neutral"
    | None => "neutral"
    end.
Proof.
  intros Hno. unfold classify_emotion_heuristic.
  pose proof (max_score_zero _ (keyword_scores_zero _ Hno)) as Hz.
  destruct (max_score (keyword_scores (lower text))) as [best score].
  cbn [snd] in Hz. subst score. cbn [Nat.ltb Nat.leb].
  destruct rel as [r|]; [|reflexivity].
  unfold bias_of. destruct r as [|c r]; [reflexivity|reflexivity].
Qed.

(** C6.  For a text in which no keyword occurs (after lower-casing, as the
    classifier searches): with a bias entry for the relationship type, the
    bias label when familiarity is at least 7; when it is 4 to 6, the bias
    label if the text has more than 20 characters and "neutral" otherwise;
    and "neutral" when familiarity is below 4 or there is no bias entry. *)
Theorem heuristic_without_keyword `{PyStr} (text : string)
    (rel : option string) (fam : Z) :
  no_keyword (lower text) ->
  (forall bias, bias_of rel = Some bias -> (7 <= fam)%Z ->
     classify_emotion_heuristic text rel fam = bias)
  /\ (forall bias, bias_of rel = Some bias -> (4 <= fam <= 6)%Z ->
        ((20 < py_len text)%nat -> classify_emotion_heuristic text rel fam = bias)
        /\ ((py_len text <= 20)%nat ->
            classify_emotion_heuristic text rel fam = "neutral"))
  /\ ((fam < 4)%Z \/ bias_of rel = None ->
      classify_emotion_heuristic text rel fam = "neutral").
Proof.
  intros Hno. rewrite (classify_emotion_heuristic_no_keyword text rel fam Hno).
  split; [|split].
  - intros bias -> Hf. destruct (7 <=? fam)%Z eqn:E; [reflexivity | lia].
  - intros bias -> Hf.
    destruct (7 <=? fam)%Z eqn:E7; [lia|].
    destruct (4 <=? fam)%Z eqn:E4; [|lia].
    split; intros Hlen.
    + destruct (20 <? py_len text)%nat eqn:E; [reflexivity|].
      apply Nat.ltb_ge in E. lia.
    + destruct (20 <? py_len text)%nat eqn:E; [|reflexivity].
      apply Nat.ltb_lt in E. lia.
  - intros [Hf|Hb].
    + destruct (bias_of rel); [|reflexivity].
      destruct (7 <=? fam)%Z eqn:E7; [lia|].
      destruct (4 <=? fam)%Z eqn:E4; [lia | reflexivity].
    + rewrite Hb. reflexivity.
Qed.

Lemma heuristic_without_keyword_witness :
  no_keyword (lower "we meet again") 
  /\ bias_of (Some "Nemesis") = Some "angry"
  /\ classify_emotion_heuristic "we meet again" (Some "Nemesis") 8 = "angry".
Proof.
  assert (Hno : no_keyword (lower "we meet again"))
    by (apply no_keywordb_spec; vm_compute; reflexivity).
  split; [exact Hno|]. split; [reflexivity|].
  apply (proj1 (heuristic_without_keyword "we meet again" (Some "Nemesis") 8 Hno)
               "angry").
  - reflexivity.
  - lia.
Defined.

(* ===================================================================== *)
(** * Reconnecting *)
(* ===================================================================== *)

(** The pauses the code takes before its first, second and third attempt. *)
Definition BACKOFF : list Q := [0; 1.0; 1.5].

(** C5, as amended.  [reconnect()] makes at most three connection
    attempts, after pauses of 0, 1.0 and 1.5 seconds (half a second times
    the attempt number, from the second attempt on); it returns false
    exactly when all three attempts fail. *)
Theorem reconnect_backoff (connect_ok : nat -> bool) :
  let ok := fst (reconnect DEFAULT_MAX_RETRIES connect_ok) in
  let trace := snd (reconnect DEFAULT_MAX_RETRIES connect_ok) in
  (List.length (waits trace) <= 3)%nat
  /\ Forall2 Qeq (waits trace) (firstn (List.length (waits trace)) BACKOFF)
  /\ (ok = false <->
      connect_ok 1%nat = false /\ connect_ok 2%nat = false
      /\ connect_ok 3%nat = false)
  /\ (ok = false -> List.length (waits trace) = 3%nat).
Proof.
  unfold reconnect, DEFAULT_MAX_RETRIES, BACKOFF.
  cbn [reconnect_from Nat.ltb Nat.leb].
  destruct (connect_ok 1%nat) eqn:E1;
    [|destruct (connect_ok 2%nat) eqn:E2;
      [|destruct (connect_ok 3%nat) eqn:E3]];
    cbn [fst snd app]; unfold waits; cbn [waits_from List.length firstn];
    (split; [lia|]);
    (split; [repeat constructor; reflexivity|]);
    (split; [split; [discriminate || (intros _; repeat split; reflexivity)
                    | (intros (H1 & H2 & H3); discriminate) || reflexivity]
            | discriminate || reflexivity]).
Qed.

(** C5, as stated, fails: the pauses before the second and the third
    attempt are 1.0 s and 1.5 s, not 0.5 s and 1.0 s. *)
Lemma reconnect_backoff_counterexample :
  Forall2 Qeq (waits (snd (reconnect DEFAULT_MAX_RETRIES (fun _ => false))))
          [0; 1.0; 1.5]
  /\ ~ Forall2 Qeq (waits (snd (reconnect DEFAULT_MAX_RETRIES (fun _ => false))))
               [0; 0.5; 1.0].
Proof.
  split.
  - vm_compute. repeat constructor.
  - intros H. vm_compute in H. inversion H as [|? ? ? ? _ H1]; subst.
    inversion H1 as [|? ? ? ? H2 _]; subst. vm_compute in H2. discriminate H2.
Qed.

Lemma reconnect_exhausted (connect_ok : nat -> bool) :
  (forall attempt, connect_ok attempt = false) ->
  reconnect DEFAULT_MAX_RETRIES connect_ok
  = (false, [AdapterClose; AdapterConnect;
             AdapterClose; Sleep (0.5 * inject_Z 2); AdapterConnect;
             AdapterClose; Sleep (0.5 * inject_Z 3); AdapterConnect]).
Proof.
  intros H. unfold reconnect, DEFAULT_MAX_RETRIES.
  cbn [reconnect_from Nat.ltb Nat.leb]. rewrite !H. reflexivity.
Qed.

Lemma frames_sent_app (t u : list Effect) :
  frames_sent (t ++ u) = (frames_sent t ++ frames_sent u)%list.
Proof. unfold frames_sent. apply flat_map_app. Qed.

(** The calls of [reconnect] send nothing to the client. *)
Lemma reconnect_silent (connect_ok : nat -> bool) : forall remaining attempt,
  frames_sent (snd (reconnect_from connect_ok attempt remaining)) = [].
Proof.
  induction remaining as [|remaining IH]; intros attempt; [reflexivity|].
  cbn [reconnect_from].
  destruct (connect_ok attempt).
  - cbn [snd]. destruct (1 <? attempt)%nat; reflexivity.
  - specialize (IH (S attempt)).
    destruct (reconnect_from connect_ok (S attempt) remaining) as [ok later].
    cbn [snd] in *. rewrite frames_sent_app, IH.
    destruct (1 <? attempt)%nat; reflexivity.
Qed.

(** C1, as amended.  When every attempt of [reconnect()] fails it returns
    false; at a turn boundary the orchestrator then sends exactly one
    frame to the client, the error frame with code GEMINI_DISCONNECTED,
    and the routine returns, leaving the session state as it was (the
    running flag included). *)
Theorem reconnect_exhausted_at_turn_boundary (connect_ok : nat -> bool)
    (now : Q) (running_after_sleep : bool) (st : SessionState) :
  running st = true ->
  (forall attempt, connect_ok attempt = false) ->
  fst (reconnect DEFAULT_MAX_RETRIES connect_ok) = false
  /\ frames_sent (snd (fst (turn_boundary connect_ok now running_after_sleep st)))
     = [Error "GEMINI_DISCONNECTED" "Lost connection to AI"]
  /\ snd (turn_boundary connect_ok now running_after_sleep st) = Return
  /\ fst (fst (turn_boundary connect_ok now running_after_sleep st)) = st.
Proof.
  intros Hrun Hfail. unfold turn_boundary. rewrite Hrun.
  rewrite (reconnect_exhausted connect_ok Hfail). cbn [negb fst snd].
  repeat split; reflexivity.
Qed.

Lemma reconnect_exhausted_at_turn_boundary_witness :
  running initial_session = true
  /\ frames_sent (snd (fst (turn_boundary (fun _ => false) 12 true initial_session)))
     = [Error "GEMINI_DISCONNECTED" "Lost connection to AI"].
Proof.
  split; [reflexivity|].
  apply (reconnect_exhausted_at_turn_boundary (fun _ => false) 12 true
           initial_session eq_refl (fun _ => eq_refl)).
Defined.

(** C1, as stated, fails: with every connection attempt failing, the turn
    boundary sends no frame with code UPSTREAM_DISCONNECTED and leaves the
    running flag set, and the recovery path of the same routine returns
    without sending any frame. *)
Lemma reconnect_exhausted_counterexample :
  let boundary := turn_boundary (fun _ => false) 12 true initial_session in
  fst (reconnect DEFAULT_MAX_RETRIES (fun _ => false)) = false
  /\ (forall message,
        ~ In (Error "UPSTREAM_DISCONNECTED" message)
             (frames_sent (snd (fst boundary))))
  /\ running (fst (fst boundary)) = true
  /\ recover_after_error (fun _ => false) initial_session
     = ([Sleep 1; AdapterClose; AdapterConnect;
         AdapterClose; Sleep (0.5 * inject_Z 2); AdapterConnect;
         AdapterClose; Sleep (0.5 * inject_Z 3); AdapterConnect], Return)
  /\ frames_sent (fst (recover_after_error (fun _ => false) initial_session)) = [].
Proof.
  cbv zeta. split; [reflexivity|]. split; [|split; [reflexivity|split; reflexivity]].
  intros message [H|[]]. discriminate H.
Qed.

(* ===================================================================== *)
(** * Handling one upstream event *)
(* ===================================================================== *)

Definition is_text_frame (frame : Frame) : bool :=
  match frame with
  | Text _ _ => true
  | _ => false
  end.

Lemma audio_frames_no_text (emo : EmotionState) (parts : list (option InlineData)) :
  forallb (fun frame => negb (is_text_frame frame))
          (frames_sent (audio_frames emo parts)) = true.
Proof.
  induction parts as [|part parts IH]; [reflexivity|].
  unfold audio_frames in *. cbn [flat_map]. rewrite frames_sent_app.
  rewrite forallb_app, IH, andb_true_r.
  destruct part as [inline|]; [|reflexivity].
  destruct (mime_type inline) as [m|]; [|reflexivity].
  destruct (truthy (Some m) && py_in "audio" m); reflexivity.
Qed.

(** C10.  An event that reaches the transcription blocks with an output
    transcription that is not empty but strips to nothing, while the
    interaction-pending flag is set: the current emotion becomes the
    reclassification of that text against the previous emotion, the flag
    is cleared, the transcript buffer is unchanged and no text frame is
    sent (the frames are the audio frames of the event's parts). *)
Theorem whitespace_transcript_reclassifies `{PyStr} (now : Q)
    (content : ServerContent) (text : string) (st : SessionState) :
  running st = true ->
  user_interacted_since_last_emotion st = true ->
  interrupted content = false ->
  turn_complete content = false ->
  output_transcription content = Some text ->
  text <> "" ->
  strip text = "" ->
  input_transcription content = None ->
  let result := handle_response now (mkResponse false (Some content)) st in
  let st' := fst (fst result) in
  let frames := frames_sent (snd (fst result)) in
  current_emotion st'
  = classify_to_circumplex text (relationship_type st) (familiarity_level st)
      (mbti st) (Some (current_emotion st))
  /\ user_interacted_since_last_emotion st' = false
  /\ transcript_buffer st' = transcript_buffer st
  /\ forallb (fun frame => negb (is_text_frame frame)) frames = true
  /\ frames = frames_sent (audio_frames (current_emotion st) (model_turn content)).
Proof.
  intros Hrun Hflag Hint Htc Hout Hne Hstrip Hin.
  unfold handle_response. rewrite Hrun. cbn [negb go_away server_content].
  rewrite Hint, Htc, Hout, Hin.
  destruct text as [|c text]; [contradiction Hne; reflexivity|].
  cbn [truthy]. unfold handle_output_transcription.
  rewrite Hflag, Hstrip. cbn [truthy fst snd].
  rewrite app_nil_r.
  repeat split; try reflexivity. apply audio_frames_no_text.
Qed.

Lemma whitespace_transcript_reclassifies_witness :
  let st := with_emotion (mkEmotionState 0.7 0.5 "happy" "mid") true initial_session in
  let content := mkContent false false [] (Some "  ") None in
  let st' := fst (fst (handle_response 3 (mkResponse false (Some content)) st)) in
  strip "  " = ""
  /\ current_emotion st' = mkEmotionState (7 # 20) (7 # 20) "shy" "mid"
  /\ user_interacted_since_last_emotion st' = false
  /\ transcript_buffer st' = [].
Proof.
  cbv zeta.
  pose proof (whitespace_transcript_reclassifies 3
                (mkContent false false [] (Some "  ") None) "  "
                (with_emotion (mkEmotionState 0.7 0.5 "happy" "mid") true
                              initial_session)
                eq_refl eq_refl eq_refl eq_refl eq_refl
                ltac:(discriminate) eq_refl eq_refl) as (He & Hf & Ht & _).
  split; [reflexivity|]. split; [|split; [exact Hf | exact Ht]].
  rewrite He. vm_compute. reflexivity.
Defined.

(* ===================================================================== *)
(** * The emotional burst *)
(* ===================================================================== *)




Lemma burst_times_app (t u : list (Q * Effect)) :
  burst_times (t ++ u) = (burst_times t ++ burst_times u)%list.
Proof. unfold burst_times. apply flat_map_app. Qed.






























(* ===================================================================== *)
(** * app/api/message_routes.py: the delayed proactive task *)
(* ===================================================================== *)

(** Where a task running [_maybe_send_proactive] stands.  A task runs
    without interruption from one [await] to the next: the test
    [lock.locked()] and the acquisition of a free lock by [async with]
    form one step. *)
Inductive Stage :=
| Created       (* scheduled by [create_task], not yet run *)
| Sleeping      (* holds the lock, in [asyncio.sleep(delay)] *)
| Generating    (* holds the lock, in the generate-and-persist block *)
| Finished      (* left [async with]: the lock is released *)
| Dropped.      (* returned at once: the lock was held *)

Record ProactiveTask := mkTask {
  task_key : string * string;       (* (character_id, user_id) *)
  task_emotion : EmotionState;
  task_stage : Stage
}.

(** The module-level lock table (a key maps to whether its lock is held)
    and the tasks of the event loop, in creation order. *)
Record Loop := mkLoop {
  _proactive_locks : gmap (string * string) bool;
  tasks : list ProactiveTask
}.

Definition empty_loop : Loop := mkLoop ∅ [].

Definition PROACTIVE_AROUSAL : Q := 0.65.

(** [_fire_proactive_task(user_id, character_id, emotion)] *)
Definition _fire_proactive_task (user_id character_id : string)
    (emotion : EmotionState) (loop : Loop) : Loop :=
  if Qle_bool (arousal emotion) PROACTIVE_AROUSAL then loop
  else
    let key := (character_id, user_id) in
    let locks :=
      match _proactive_locks loop !! key with
      | None => <[key := false]> (_proactive_locks loop)
      | Some _ => _proactive_locks loop
      end in
    mkLoop locks (tasks loop ++ [mkTask key emotion Created])%list.

(** [lock.locked()] *)
Definition locked (loop : Loop) (key : string * string) : bool :=
  match _proactive_locks loop !! key with
  | Some held => held
  | None => false
  end.

Definition at_stage (stage : Stage) (task : ProactiveTask) : ProactiveTask :=
  mkTask (task_key task) (task_emotion task) stage.

(** The event loop resumes task [i] until its next [await]. *)
Definition _maybe_send_proactive (i : nat) (loop : Loop) : Loop :=
  match tasks loop !! i with
  | None => loop
  | Some task =>
      let key := task_key task in
      match task_stage task with
      | Created =>
          if locked loop key
          then mkLoop (_proactive_locks loop)
                      (<[i := at_stage Dropped task]> (tasks loop))
          else mkLoop (<[key := true]> (_proactive_locks loop))
                      (<[i := at_stage Sleeping task]> (tasks loop))
      | Sleeping =>
          mkLoop (_proactive_locks loop)
                 (<[i := at_stage Generating task]> (tasks loop))
      | Generating =>
          mkLoop (<[key := false]> (_proactive_locks loop))
                 (<[i := at_stage Finished task]> (tasks loop))
      | Finished | Dropped => loop
      end
  end.

(** What happens on the event loop: a trigger, or a task being resumed. *)
Inductive LoopEvent :=
| Trigger (user_id character_id : string) (emotion : EmotionState)
| Resume (task : nat).

Definition react (loop : Loop) (event : LoopEvent) : Loop :=
  match event with
  | Trigger user_id character_id emotion =>
      _fire_proactive_task user_id character_id emotion loop
  | Resume i => _maybe_send_proactive i loop
  end.

Definition run_loop (schedule : list LoopEvent) (loop : Loop) : Loop :=
  fold_left react schedule loop.

(** The task holds its lock. *)
Definition holding (task : ProactiveTask) : bool :=
  match task_stage task with
  | Sleeping | Generating => true
  | _ => false
  end.

(** The task has entered the generate-and-persist block. *)
Definition executed (task : ProactiveTask) : bool :=
  match task_stage task with
  | Generating | Finished => true
  | _ => false
  end.

Definition stage_of (loop : Loop) (i : nat) : option Stage :=
  task_stage <$> tasks loop !! i.

Definition key_of (loop : Loop) (i : nat) : option (string * string) :=
  task_key <$> tasks loop !! i.

(** At most one task holds the lock of a key, and the table says so. *)
Definition lock_invariant (loop : Loop) : Prop :=
  (forall i t, tasks loop !! i = Some t -> holding t = true ->
     _proactive_locks loop !! task_key t = Some true)
  /\ (forall i j t u,
        tasks loop !! i = Some t -> tasks loop !! j = Some u ->
        holding t = true -> holding u = true ->
        task_key t = task_key u -> i = j).

Lemma lookup_updated (l : list ProactiveTask) (i j : nat) (new t : ProactiveTask) :
  <[i := new]> l !! j = Some t ->
  (j = i /\ t = new) \/ (j <> i /\ l !! j = Some t).
Proof.
  intros H. destruct (decide (i = j)) as [->|Hne].
  - left. split; [reflexivity|].
    assert (j < length l)%nat as Hlt.
    { apply lookup_lt_Some in H. rewrite length_insert in H. exact H. }
    rewrite list_lookup_insert_eq in H by exact Hlt. congruence.
  - right. rewrite list_lookup_insert_ne in H by exact Hne. auto.
Qed.

Lemma lookup_appended (l : list ProactiveTask) (j : nat) (new t : ProactiveTask) :
  (l ++ [new])%list !! j = Some t ->
  l !! j = Some t \/ t = new.
Proof.
  intros H. apply lookup_app_Some in H as [H|[_ H]]; [left; exact H|].
  right. destruct (j - length l)%nat as [|n]; by simplify_eq/=.
Qed.

Lemma _fire_proactive_task_invariant (user_id character_id : string)
    (emotion : EmotionState) (loop : Loop) :
  lock_invariant loop ->
  lock_invariant (_fire_proactive_task user_id character_id emotion loop).
Proof.
  intros [Inv1 Inv2]. unfold _fire_proactive_task.
  destruct (Qle_bool (arousal emotion) PROACTIVE_AROUSAL); [split; assumption|].
  split; cbn [tasks _proactive_locks].
  - intros i t Ht Hh. apply lookup_appended in Ht as [Ht| ->]; [|discriminate Hh].
    specialize (Inv1 i t Ht Hh).
    destruct (_proactive_locks loop !! (character_id, user_id)) eqn:E; [exact Inv1|].
    rewrite lookup_insert_ne; [exact Inv1|]. intros Ek. rewrite <- Ek in Inv1. congruence.
  - intros i j t u Ht Hu Hht Hhu Hk.
    apply lookup_appended in Ht as [Ht| ->]; [|discriminate Hht].
    apply lookup_appended in Hu as [Hu| ->]; [|discriminate Hhu].
    apply (Inv2 i j t u); assumption.
Qed.

Lemma _maybe_send_proactive_invariant (i : nat) (loop : Loop) :
  lock_invariant loop -> lock_invariant (_maybe_send_proactive i loop).
Proof.
  intros [Inv1 Inv2]. unfold _maybe_send_proactive.
  destruct (tasks loop !! i) as [task|] eqn:Ei; [|split; assumption].
  destruct (task_stage task) eqn:Es.
  - (* Created *)
    unfold locked.
    destruct (_proactive_locks loop !! task_key task) as [[|]|] eqn:El.
    + split; cbn [tasks _proactive_locks].
      * intros i' t Ht Hh. apply lookup_updated in Ht as [[-> ->]|[Hne Ht]];
          [discriminate Hh | exact (Inv1 i' t Ht Hh)].
      * intros a b t u Ht Hu Hht Hhu Hk.
        apply lookup_updated in Ht as [[-> ->]|[Hna Ht]]; [discriminate Hht|].
        apply lookup_updated in Hu as [[-> ->]|[Hnb Hu]]; [discriminate Hhu|].
        apply (Inv2 a b t u); assumption.
    + split; cbn [tasks _proactive_locks].
      * intros i' t Ht Hh. apply lookup_updated in Ht as [[-> ->]|[Hne Ht]].
        -- cbn [at_stage task_key]. apply lookup_insert_eq.
        -- specialize (Inv1 i' t Ht Hh).
           rewrite lookup_insert_ne; [exact Inv1|]. intros E. rewrite E in El. congruence.
      * intros a b t u Ht Hu Hht Hhu Hk.
        apply lookup_updated in Ht as [[-> ->]|[Hna Ht]];
          apply lookup_updated in Hu as [[-> ->]|[Hnb Hu]].
        -- reflexivity.
        -- cbn [at_stage task_key] in Hk. specialize (Inv1 b u Hu Hhu).
           rewrite <- Hk in Inv1. congruence.
        -- cbn [at_stage task_key] in Hk. specialize (Inv1 a t Ht Hht).
           rewrite Hk in Inv1. congruence.
        -- apply (Inv2 a b t u); assumption.
    + split; cbn [tasks _proactive_locks].
      * intros i' t Ht Hh. apply lookup_updated in Ht as [[-> ->]|[Hne Ht]].
        -- cbn [at_stage task_key]. apply lookup_insert_eq.
        -- specialize (Inv1 i' t Ht Hh).
           rewrite lookup_insert_ne; [exact Inv1|]. intros E. rewrite E in El. congruence.
      * intros a b t u Ht Hu Hht Hhu Hk.
        apply lookup_updated in Ht as [[-> ->]|[Hna Ht]];
          apply lookup_updated in Hu as [[-> ->]|[Hnb Hu]].
        -- reflexivity.
        -- cbn [at_stage task_key] in Hk. specialize (Inv1 b u Hu Hhu).
           rewrite <- Hk in Inv1. congruence.
        -- cbn [at_stage task_key] in Hk. specialize (Inv1 a t Ht Hht).
           rewrite Hk in Inv1. congruence.
        -- apply (Inv2 a b t u); assumption.
  - (* Sleeping *)
    assert (Hold : holding task = true) by (unfold holding; rewrite Es; reflexivity).
    split; cbn [tasks _proactive_locks].
    + intros i' t Ht Hh. apply lookup_updated in Ht as [[-> ->]|[Hne Ht]].
      * cbn [at_stage task_key]. exact (Inv1 i task Ei Hold).
      * exact (Inv1 i' t Ht Hh).
    + intros a b t u Ht Hu Hht Hhu Hk.
      apply lookup_updated in Ht as [[-> ->]|[Hna Ht]];
        apply lookup_updated in Hu as [[-> ->]|[Hnb Hu]].
      * reflexivity.
      * symmetry. apply (Inv2 b i u task Hu Ei Hhu Hold). symmetry. exact Hk.
      * apply (Inv2 a i t task Ht Ei Hht Hold). exact Hk.
      * apply (Inv2 a b t u); assumption.
  - (* Generating *)
    assert (Hold : holding task = true) by (unfold holding; rewrite Es; reflexivity).
    split; cbn [tasks _proactive_locks].
    + intros i' t Ht Hh. apply lookup_updated in Ht as [[-> ->]|[Hne Ht]];
        [discriminate Hh|].
      rewrite lookup_insert_ne; [exact (Inv1 i' t Ht Hh)|].
      intros E. apply Hne. apply (Inv2 i' i t task Ht Ei Hh Hold). symmetry. exact E.
    + intros a b t u Ht Hu Hht Hhu Hk.
      apply lookup_updated in Ht as [[-> ->]|[Hna Ht]]; [discriminate Hht|].
      apply lookup_updated in Hu as [[-> ->]|[Hnb Hu]]; [discriminate Hhu|].
      apply (Inv2 a b t u); assumption.
  - split; assumption.
  - split; assumption.
Qed.

Lemma run_loop_invariant (schedule : list LoopEvent) : forall loop,
  lock_invariant loop -> lock_invariant (run_loop schedule loop).
Proof.
  induction schedule as [|event schedule IH]; intros loop Hinv; [exact Hinv|].
  cbn [run_loop fold_left]. apply IH.
  destruct event as [user_id character_id emotion|i]; cbn [react].
  - apply _fire_proactive_task_invariant, Hinv.
  - apply _maybe_send_proactive_invariant, Hinv.
Qed.

Lemma empty_loop_invariant : lock_invariant empty_loop.
Proof.
  split; cbn [tasks empty_loop]; intros; rewrite lookup_nil in *; discriminate.
Qed.

(** The stage after a resumption; [held] is [lock.locked()] at that
    moment. *)
Definition next_stage (held : bool) (stage : Stage) : Stage :=
  match stage with
  | Created => if held then Dropped else Sleeping
  | Sleeping => Generating
  | Generating => Finished
  | Finished => Finished
  | Dropped => Dropped
  end.

Definition executed_at (loop : Loop) (i : nat) : option bool :=
  executed <$> tasks loop !! i.

Lemma at_stage_same (task : ProactiveTask) :
  at_stage (task_stage task) task = task.
Proof. destruct task; reflexivity. Qed.

Lemma resume_self (loop : Loop) (i : nat) (task : ProactiveTask) :
  tasks loop !! i = Some task ->
  tasks (_maybe_send_proactive i loop) !! i
  = Some (at_stage (next_stage (locked loop (task_key task)) (task_stage task)) task).
Proof.
  intros Hi. pose proof (lookup_lt_Some _ _ _ Hi) as Hlt.
  unfold _maybe_send_proactive. rewrite Hi.
  destruct (task_stage task) eqn:Es; cbn [next_stage].
  - destruct (locked loop (task_key task)); cbn [tasks];
      apply list_lookup_insert_eq, Hlt.
  - cbn [tasks]. apply list_lookup_insert_eq, Hlt.
  - cbn [tasks]. apply list_lookup_insert_eq, Hlt.
  - rewrite Hi, <- Es, at_stage_same. reflexivity.
  - rewrite Hi, <- Es, at_stage_same. reflexivity.
Qed.

Lemma react_other (loop : Loop) (event : LoopEvent) (i : nat)
    (task : ProactiveTask) :
  event <> Resume i ->
  tasks loop !! i = Some task ->
  tasks (react loop event) !! i = Some task.
Proof.
  intros Hne Hi. destruct event as [user_id character_id emotion|j]; cbn [react].
  - unfold _fire_proactive_task.
    destruct (Qle_bool (arousal emotion) PROACTIVE_AROUSAL); [exact Hi|].
    cbn [tasks]. rewrite lookup_app_l; [exact Hi|].
    apply (lookup_lt_Some _ _ _ Hi).
  - assert (j <> i) as Hji by congruence.
    unfold _maybe_send_proactive.
    destruct (tasks loop !! j) as [other|]; [|exact Hi].
    destruct (task_stage other); try exact Hi;
      try (destruct (locked loop (task_key other)));
      cbn [tasks]; rewrite list_lookup_insert_ne by exact Hji; exact Hi.
Qed.

Definition resumes (event : LoopEvent) (i : nat) : bool :=
  match event with
  | Resume j => Nat.eqb j i
  | Trigger _ _ _ => false
  end.

Lemma resumes_spec (event : LoopEvent) (i : nat) :
  if resumes event i then event = Resume i else event <> Resume i.
Proof.
  destruct event as [user_id character_id emotion|j]; cbn [resumes].
  - discriminate.
  - destruct (Nat.eqb_spec j i) as [->|Hne]; [reflexivity | congruence].
Qed.

(** One event moves a task along its stages, and only its own resumption
    moves it. *)
Lemma react_stage (loop : Loop) (event : LoopEvent) (i : nat)
    (task : ProactiveTask) :
  tasks loop !! i = Some task ->
  exists held,
    tasks (react loop event) !! i
    = Some (if resumes event i
            then at_stage (next_stage held (task_stage task)) task
            else task).
Proof.
  intros Hi. pose proof (resumes_spec event i) as Hspec.
  destruct (resumes event i).
  - subst event. exists (locked loop (task_key task)). cbn [react].
    apply resume_self, Hi.
  - exists false. apply react_other; assumption.
Qed.

Lemma dropped_stays (schedule : list LoopEvent) : forall loop i task,
  tasks loop !! i = Some task -> task_stage task = Dropped ->
  tasks (run_loop schedule loop) !! i = Some task.
Proof.
  induction schedule as [|event schedule IH]; intros loop i task Hi Hs; [exact Hi|].
  cbn [run_loop fold_left]. apply IH; [|exact Hs].
  destruct (react_stage loop event i task Hi) as [held ->].
  destruct (resumes event i); [|reflexivity].
  rewrite Hs. cbn [next_stage]. rewrite <- Hs, at_stage_same. reflexivity.
Qed.

Lemma executed_stays (schedule : list LoopEvent) : forall loop i,
  executed_at loop i = Some true ->
  executed_at (run_loop schedule loop) i = Some true.
Proof.
  induction schedule as [|event schedule IH]; intros loop i He; [exact He|].
  cbn [run_loop fold_left]. apply IH.
  unfold executed_at in *.
  destruct (tasks loop !! i) as [task|] eqn:Hi; [|discriminate He].
  destruct (react_stage loop event i task Hi) as [held ->].
  cbn [fmap option_fmap option_map] in *.
  destruct (resumes event i); [|exact He].
  unfold executed in *. cbn [at_stage task_stage].
  destruct (task_stage task); cbn [next_stage]; congruence.
Qed.

Lemma sleeping_progress (schedule : list LoopEvent) : forall loop i,
  stage_of loop i = Some Sleeping ->
  (In (Resume i) schedule -> executed_at (run_loop schedule loop) i = Some true)
  /\ (stage_of (run_loop schedule loop) i = Some Sleeping
      \/ executed_at (run_loop schedule loop) i = Some true).
Proof.
  induction schedule as [|event schedule IH]; intros loop i Hs.
  - split; [intros []|left; exact Hs].
  - cbn [run_loop fold_left]. unfold stage_of in Hs.
    destruct (tasks loop !! i) as [task|] eqn:Hi; [|discriminate Hs].
    cbn [fmap option_fmap option_map] in Hs. injection Hs as Hs.
    destruct (react_stage loop event i task Hi) as [held Hr].
    pose proof (resumes_spec event i) as Hne.
    destruct (resumes event i); [subst event|].
    + assert (He : executed_at (react loop (Resume i)) i = Some true).
      { unfold executed_at. rewrite Hr, Hs. reflexivity. }
      pose proof (executed_stays schedule _ i He) as Hlater.
      split; [intros _; exact Hlater | right; exact Hlater].
    + assert (Hs' : stage_of (react loop event) i = Some Sleeping).
      { unfold stage_of. rewrite Hr. cbn. rewrite Hs. reflexivity. }
      destruct (IH _ i Hs') as [IH1 IH2]. split; [|exact IH2].
      intros [E|Hin]; [congruence | exact (IH1 Hin)].
Qed.

(** C7.  In a state the event loop can reach, let task [i] hold the lock
    of a pair (it is in its lock-hold window) when the task [j] of a
    second trigger for the same pair is first resumed.  Then [j] returns
    at once and stays dropped whatever runs later, so it never enters the
    generate-and-persist block; [i] is not disturbed and enters the block
    as soon as it is resumed: of the two tasks exactly [i] executes. *)
Theorem concurrent_trigger_dropped (history later : list LoopEvent)
    (i j : nat) (key : string * string) :
  let loop := run_loop history empty_loop in
  let after := run_loop (Resume j :: later) loop in
  key_of loop i = Some key ->
  key_of loop j = Some key ->
  (holding <$> tasks loop !! i) = Some true ->
  stage_of loop j = Some Created ->
  stage_of after j = Some Dropped
  /\ executed_at after j = Some false
  /\ (stage_of loop i = Some Generating \/ In (Resume i) later ->
      executed_at after i = Some true)
  /\ (stage_of after i = Some Sleeping \/ executed_at after i = Some true).
Proof.
  cbv zeta. intros Hki Hkj Hhold Hcreated.
  set (loop := run_loop history empty_loop) in *.
  assert (Hinv : lock_invariant loop)
    by (apply run_loop_invariant, empty_loop_invariant).
  unfold key_of, stage_of in Hki, Hkj, Hcreated.
  destruct (tasks loop !! i) as [ti|] eqn:Hi; [|discriminate Hki].
  destruct (tasks loop !! j) as [tj|] eqn:Hj; [|discriminate Hkj].
  cbn [fmap option_fmap option_map] in Hki, Hkj, Hcreated, Hhold.
  injection Hki as Hki. injection Hkj as Hkj.
  injection Hcreated as Hcreated. injection Hhold as Hhold.
  assert (Hij : Resume j <> Resume i).
  { intros [= ->]. rewrite Hi in Hj. injection Hj as ->.
    unfold holding in Hhold. rewrite Hcreated in Hhold. discriminate Hhold. }
  assert (Hlocked : locked loop (task_key tj) = true).
  { unfold locked. rewrite Hkj, <- Hki.
    rewrite (proj1 Hinv i ti Hi Hhold). reflexivity. }
  cbn [run_loop fold_left].
  set (loop1 := react loop (Resume j)).
  assert (Hj1 : tasks loop1 !! j = Some (at_stage Dropped tj)).
  { subst loop1. cbn [react]. rewrite (resume_self loop j tj Hj).
    rewrite Hlocked, Hcreated. reflexivity. }
  assert (Hi1 : tasks loop1 !! i = Some ti).
  { subst loop1. apply react_other; [exact Hij | exact Hi]. }
  pose proof (dropped_stays later loop1 j _ Hj1 eq_refl) as Hjl.
  fold (run_loop later loop1).
  split; [|split; [|split]].
  - unfold stage_of. rewrite Hjl. reflexivity.
  - unfold executed_at. rewrite Hjl. reflexivity.
  - unfold holding in Hhold. destruct (task_stage ti) eqn:Es; try discriminate Hhold.
    + intros [Hg|Hin];
        [unfold stage_of in Hg; rewrite Hi in Hg; cbn in Hg; congruence|].
      apply (sleeping_progress later loop1 i); [|exact Hin].
      unfold stage_of. rewrite Hi1. cbn. rewrite Es. reflexivity.
    + intros _. apply executed_stays. unfold executed_at. rewrite Hi1. cbn.
      unfold executed. rewrite Es. reflexivity.
  - unfold holding in Hhold. destruct (task_stage ti) eqn:Es; try discriminate Hhold.
    + apply (sleeping_progress later loop1 i).
      unfold stage_of. rewrite Hi1. cbn. rewrite Es. reflexivity.
    + right. apply executed_stays. unfold executed_at. rewrite Hi1. cbn.
      unfold executed. rewrite Es. reflexivity.
Qed.

Lemma concurrent_trigger_dropped_witness :
  let e := mkEmotionState 0.8 0.9 "excited" "high" in
  let history := [Trigger "u" "c" e; Resume 0%nat; Trigger "u" "c" e] in
  let later := [Resume 0%nat; Resume 0%nat; Resume 1%nat] in
  let after := run_loop (Resume 1%nat :: later) (run_loop history empty_loop) in
  stage_of after 1 = Some Dropped
  /\ executed_at after 1 = Some false
  /\ executed_at after 0 = Some true.
Proof.
  cbv zeta.
  pose proof (concurrent_trigger_dropped
                [Trigger "u" "c" (mkEmotionState 0.8 0.9 "excited" "high");
                 Resume 0%nat;
                 Trigger "u" "c" (mkEmotionState 0.8 0.9 "excited" "high")]
                [Resume 0%nat; Resume 0%nat; Resume 1%nat]
                0%nat 1%nat ("c", "u")
                eq_refl eq_refl eq_refl eq_refl) as (Hd & He & Hi & _).
  split; [exact Hd|]. split; [exact He|].
  apply Hi. right. left. reflexivity.
Defined.


(* ===================================================================== *)
(** * More of the affect model *)
(* ===================================================================== *)

(** [emotion_to_image_key]: ["{label}_{intensity}"]. *)
Definition emotion_to_image_key (state : EmotionState) : string :=
  label state ++ "_" ++ intensity state.

Definition EMOTION_LABELS : list string := map fst EMOTION_MAP.

(** [ALL_IMAGE_KEYS]: every label with every intensity level. *)
Definition ALL_IMAGE_KEYS : list string :=
  flat_map (fun label => map (fun intensity => label ++ "_" ++ intensity)
                             INTENSITY_LEVELS)
           EMOTION_LABELS.

(** [VALID_EMOTIONS] of [emotion.py]. *)
Definition VALID_EMOTIONS : list string :=
  [ "happy"; "sad"; "angry"; "neutral"; "thinking";
    "excited"; "surprised"; "loving"; "anxious";
    "jealous"; "shy";
    "disappointed"; "frustrated"; "proud"; "grateful";
    "bored"; "curious"; "embarrassed"; "playful";
    "lonely"; "confused" ].

Definition state_eqb (s t : EmotionState) : bool :=
  Qeq_bool (valence s) (valence t) && Qeq_bool (arousal s) (arousal t)
  && String.eqb (label s) (label t) && String.eqb (intensity s) (intensity t).

Lemma state_eqb_spec (s t : EmotionState) : state_eqb s t = true -> emo_eq s t.
Proof.
  unfold state_eqb, emo_eq.
  rewrite !andb_true_iff, !Qeq_bool_iff, !String.eqb_eq. tauto.
Qed.

(** Without a personality code nothing of the string builtins is used. *)
Definition canonical_state (label : string) : EmotionState :=
  let '(valence, arousal) :=
    match assoc label EMOTION_MAP with
    | Some p => p
    | None => (0.0, 0.2)
    end in
  mkEmotionState (round3 valence) (round3 arousal)
                 (_nearest_label valence arousal)
                 (_intensity_from_arousal arousal).

Lemma label_to_circumplex_no_mbti `{PyStr} (l : string) :
  label_to_circumplex l None = canonical_state l.
Proof.
  unfold label_to_circumplex, canonical_state.
  destruct (match assoc l EMOTION_MAP with Some p => p | None => (0.0, 0.2) end).
  reflexivity.
Qed.

Lemma canonical_states_checked :
  forallb (fun entry =>
             state_eqb (canonical_state (fst entry))
                       (mkEmotionState (fst (snd entry)) (snd (snd entry))
                                       (fst entry)
                                       (_intensity_from_arousal (snd (snd entry)))))
          EMOTION_MAP = true.
Proof. vm_compute. reflexivity. Qed.

(** X1. A canonical label goes to its own point and comes back: without a
    personality code, [label_to_circumplex] of a label of the table is the
    table's point for it, with that same label and the intensity of its
    arousal. *)
Theorem canonical_label_round_trip `{PyStr} (l : string) (v a : Q) :
  In (l, (v, a)) EMOTION_MAP ->
  emo_eq (label_to_circumplex l None)
         (mkEmotionState v a l (_intensity_from_arousal a)).
Proof.
  intros Hin. rewrite label_to_circumplex_no_mbti.
  pose proof canonical_states_checked as Hall.
  rewrite forallb_forall in Hall. specialize (Hall (l, (v, a)) Hin).
  apply state_eqb_spec in Hall. exact Hall.
Qed.

Lemma canonical_label_round_trip_witness :
  In ("jealous", (-0.5, 0.75)) EMOTION_MAP
  /\ emo_eq (label_to_circumplex "jealous" None)
            (mkEmotionState (-0.5) 0.75 "jealous" "high").
Proof.
  assert (Hin : In ("jealous", (-0.5, 0.75)) EMOTION_MAP)
    by (cbn; do 6 right; left; reflexivity).
  split; [exact Hin|].
  exact (canonical_label_round_trip "jealous" (-0.5) 0.75 Hin).
Defined.


Lemma index_is_exclusive (s : string) (i : nat) (c d : string) :
  c <> d -> index_is s i c = true -> index_is s i d = false.
Proof.
  unfold index_is. destruct (py_index s i) as [x|]; [|discriminate].
  intros Hne Hc. apply String.eqb_eq in Hc. subst x.
  apply String.eqb_neq. exact Hne.
Qed.

(** X2. An unknown label is read as "neutral": whatever the personality
    code, the state has valence 0, label "neutral" and intensity "low",
    and its arousal is 0.2 scaled by the code: 0.23 for an extravert, 0.17
    for an introvert, 0.2 otherwise. *)
Theorem unknown_label_is_neutral `{PyStr} (l : string) (m : option string) :
  assoc l EMOTION_MAP = None ->
  let s := label_to_circumplex l m in
  valence s == 0 /\ label s = "neutral" /\ intensity s = "low"
  /\ (arousal s == 0.2 \/ arousal s == 0.23 \/ arousal s == 0.17).
Proof.
  intros Hnone. cbv zeta. unfold label_to_circumplex. rewrite Hnone.
  unfold _apply_mbti_modifiers.
  destruct m as [m|]; [|repeat split; try reflexivity; left; reflexivity].
  destruct (negb (truthy (Some m)) || (py_len m <? 4)%nat);
    [repeat split; try reflexivity; left; reflexivity|].
  destruct (index_is (upper m) 0 "E"), (index_is (upper m) 0 "I"),
           (index_is (upper m) 2 "F"), (index_is (upper m) 2 "T");
    (repeat split; try (vm_compute; reflexivity));
    first [ left; vm_compute; reflexivity
          | right; left; vm_compute; reflexivity
          | right; right; vm_compute; reflexivity ].
Qed.

Lemma unknown_label_is_neutral_witness :
  assoc "furious" EMOTION_MAP = None
  /\ label (label_to_circumplex "furious" (Some "ENFP")) = "neutral"
  /\ arousal (label_to_circumplex "furious" (Some "ENFP")) == 0.23.
Proof.
  assert (Hnone : assoc "furious" EMOTION_MAP = None) by reflexivity.
  pose proof (unknown_label_is_neutral "furious" (Some "ENFP") Hnone)
    as (_ & Hl & _ & _).
  split; [exact Hnone|]. split; [exact Hl | vm_compute; reflexivity].
Defined.

(** X3. The personality code moves a point of the domain in one direction
    only and keeps it in the domain: an extravert's arousal is not lower
    and an introvert's not higher than the unmodified one, a feeler's
    valence is not closer to zero and a thinker's not farther; a missing
    code, an empty one or one of fewer than 4 characters changes
    nothing. *)
Theorem mbti_modifier_direction `{PyStr} (v a : Q) (mbti : option string) :
  in_domain (v, a) ->
  let v' := fst (_apply_mbti_modifiers v a mbti) in
  let a' := snd (_apply_mbti_modifiers v a mbti) in
  in_domain (v', a')
  /\ (forall m, mbti = Some m -> (4 <= py_len m)%nat ->
        (index_is (upper m) 0 "E" = true -> a <= a')
        /\ (index_is (upper m) 0 "I" = true -> a' <= a)
        /\ (index_is (upper m) 2 "F" = true -> v * v <= v' * v')
        /\ (index_is (upper m) 2 "T" = true -> v' * v' <= v * v))
  /\ ((mbti = None \/ exists m, mbti = Some m /\ (py_len m < 4)%nat) ->
      v' = v /\ a' = a).
Proof.
  intros [Hv Ha]. cbn [fst snd] in Hv, Ha. cbv zeta.
  split; [apply _apply_mbti_modifiers_in_domain; split; assumption|].
  split.
  - intros m -> Hlen. unfold _apply_mbti_modifiers.
    assert (Hguard : negb (truthy (Some m)) || (py_len m <? 4)%nat = false).
    { apply orb_false_iff. split.
      - destruct m; [cbn in Hlen; lia | reflexivity].
      - apply Nat.ltb_ge. exact Hlen. }
    rewrite Hguard. cbn [fst snd].
    repeat split.
    + intros HE. rewrite HE.
      destruct (_clamp_bounds (a * 1.15) 0 1) as [_ Hc]; [lra|].
      unfold _clamp in *.
      destruct (py_min_spec 1 (a * 1.15)) as [[H1 E1]|[H1 E1]]; rewrite E1 in *;
        destruct (py_max_spec 0 (a * 1.15)) as [[H2 E2]|[H2 E2]];
        destruct (py_max_spec 0 1) as [[H3 E3]|[H3 E3]];
        rewrite ?E2, ?E3; lra.
    + intros HI. rewrite (index_is_exclusive _ _ "I" "E") by (discriminate || exact HI).
      rewrite HI.
      unfold _clamp.
      destruct (py_min_spec 1 (a * 0.85)) as [[H1 E1]|[H1 E1]]; rewrite E1;
        destruct (py_max_spec 0 (a * 0.85)) as [[H2 E2]|[H2 E2]];
        destruct (py_max_spec 0 1) as [[H3 E3]|[H3 E3]];
        rewrite ?E2, ?E3; lra.
    + intros HF. rewrite HF.
      unfold _clamp.
      destruct (py_min_spec 1 (v * 1.20)) as [[H1 E1]|[H1 E1]]; rewrite E1;
        destruct (py_max_spec (-1) (v * 1.20)) as [[H2 E2]|[H2 E2]];
        destruct (py_max_spec (-1) 1) as [[H3 E3]|[H3 E3]];
        rewrite ?E2, ?E3; nra.
    + intros HT. rewrite (index_is_exclusive _ _ "T" "F") by (discriminate || exact HT).
      rewrite HT.
      unfold _clamp.
      destruct (py_min_spec 1 (v * 0.80)) as [[H1 E1]|[H1 E1]]; rewrite E1;
        destruct (py_max_spec (-1) (v * 0.80)) as [[H2 E2]|[H2 E2]];
        destruct (py_max_spec (-1) 1) as [[H3 E3]|[H3 E3]];
        rewrite ?E2, ?E3; nra.
  - intros [->|(m & -> & Hlen)]; [split; reflexivity|].
    unfold _apply_mbti_modifiers.
    apply Nat.ltb_lt in Hlen. rewrite Hlen, orb_true_r. split; reflexivity.
Qed.

Lemma mbti_modifier_direction_witness :
  in_domain (0.7, 0.5)
  /\ 0.5 <= snd (_apply_mbti_modifiers 0.7 0.5 (Some "enfp"))
  /\ _apply_mbti_modifiers 0.7 0.5 (Some "enf") = (0.7, 0.5).
Proof.
  assert (Hd : in_domain (0.7, 0.5)) by (split; cbn; lra).
  pose proof (mbti_modifier_direction 0.7 0.5 (Some "enfp") Hd) as (_ & Hdir & _).
  destruct (Hdir "enfp" eq_refl ltac:(vm_compute; lia)) as (HE & _).
  split; [exact Hd|]. split; [apply HE; reflexivity | reflexivity].
Defined.


Lemma _inertia_weights_nonneg (prev : EmotionState) (f : Z) :
  0 <= fst (_inertia_weights prev f) /\ 0 <= snd (_inertia_weights prev f).
Proof.
  destruct (_inertia_weights_cases prev f)
    as [[_ ->]|[_ [[_ ->]|[[_ ->]|[_ ->]]]]]; cbn [fst snd]; split; lra.
Qed.

(** X4. A blend stays between what it blends: for two states of the domain
    and every familiarity level, the valence and the arousal of
    [apply_inertia(prev, new)] lie between those of [prev] and [new], up
    to the half thousandth of the final rounding. *)
Theorem blend_between (prev new : EmotionState) (f : Z) :
  in_domain (valence prev, arousal prev) ->
  in_domain (valence new, arousal new) ->
  let s := apply_inertia prev new f in
  (py_min (valence prev) (valence new) - (1 # 2000) <= valence s
   /\ valence s <= py_max (valence prev) (valence new) + (1 # 2000))
  /\ (py_min (arousal prev) (arousal new) - (1 # 2000) <= arousal s
      /\ arousal s <= py_max (arousal prev) (arousal new) + (1 # 2000)).
Proof.
  intros [Hpv Hpa] [Hnv Hna]. cbn [fst snd] in *. cbv zeta.
  pose proof (_inertia_weights_sum prev f) as Hsum.
  pose proof (_inertia_weights_nonneg prev f) as [Hw1 Hw2].
  unfold apply_inertia. destruct (_inertia_weights prev f) as [w_prev w_new].
  cbn [fst snd valence arousal] in *.
  assert (Hmix : forall p n, 
            py_min p n <= p * w_prev + n * w_new <= py_max p n).
  { intros p n.
    assert (Hn : w_new == 1 - w_prev) by lra.
    destruct (py_min_spec p n) as [[H1 ->]|[H1 ->]];
      destruct (py_max_spec p n) as [[H2 ->]|[H2 ->]];
      rewrite Hn; split; nra. }
  assert (Hmin_max : forall p n lo hi, lo <= p <= hi -> lo <= n <= hi ->
            lo <= py_min p n /\ py_max p n <= hi).
  { intros p n lo hi Hp Hn.
    destruct (py_min_spec p n) as [[H1 ->]|[H1 ->]];
      destruct (py_max_spec p n) as [[H2 ->]|[H2 ->]]; lra. }
  split.
  - pose proof (Hmix (valence prev) (valence new)) as [H1 H2].
    pose proof (Hmin_max _ _ (-1) 1 Hpv Hnv) as [H3 H4].
    pose proof (round3_close (_clamp (valence prev * w_prev + valence new * w_new) (-1) 1))
      as [H5 H6].
    pose proof (_clamp_inside (valence prev * w_prev + valence new * w_new) (-1) 1
                  ltac:(lra)) as Hc.
    lra.
  - pose proof (Hmix (arousal prev) (arousal new)) as [H1 H2].
    pose proof (Hmin_max _ _ 0 1 Hpa Hna) as [H3 H4].
    pose proof (round3_close (_clamp (arousal prev * w_prev + arousal new * w_new) 0 1))
      as [H5 H6].
    pose proof (_clamp_inside (arousal prev * w_prev + arousal new * w_new) 0 1
                  ltac:(lra)) as Hc.
    lra.
Qed.

Lemma blend_between_witness :
  let prev := mkEmotionState (-0.8) 0.9 "angry" "high" in
  let new := mkEmotionState 0.7 0.5 "happy" "mid" in
  in_domain (valence prev, arousal prev)
  /\ in_domain (valence new, arousal new)
  /\ 0.5 - (1 # 2000) <= arousal (apply_inertia prev new 2).
Proof.
  cbv zeta.
  assert (Hp : in_domain (-0.8, 0.9)) by (split; cbn; lra).
  assert (Hn : in_domain (0.7, 0.5)) by (split; cbn; lra).
  pose proof (blend_between (mkEmotionState (-0.8) 0.9 "angry" "high")
                            (mkEmotionState 0.7 0.5 "happy" "mid") 2 Hp Hn)
    as (_ & Ha & _).
  split; [exact Hp|]. split; [exact Hn|]. exact Ha.
Defined.

(** The rank of an intensity level. *)
Definition intensity_rank (intensity : string) : nat :=
  if String.eqb intensity "low" then 0
  else if String.eqb intensity "mid" then 1
  else 2.

(** X5. The intensity never goes down when the arousal goes up: low
    before mid before high. *)
Theorem intensity_monotone (a a' : Q) :
  a <= a' ->
  (intensity_rank (_intensity_from_arousal a)
   <= intensity_rank (_intensity_from_arousal a'))%nat.
Proof.
  intros Hle.
  destruct (_intensity_from_arousal_cases a) as [[H ->]|[[H ->]|[H ->]]];
    destruct (_intensity_from_arousal_cases a') as [[H' ->]|[[H' ->]|[H' ->]]];
    cbn; try lia; lra.
Qed.

Lemma intensity_monotone_witness :
  0.35 <= 0.65
  /\ (intensity_rank (_intensity_from_arousal 0.35)
      <= intensity_rank (_intensity_from_arousal 0.65))%nat.
Proof.
  assert (H : 0.35 <= 0.65) by lra.
  split; [exact H | exact (intensity_monotone 0.35 0.65 H)].
Defined.

Lemma image_key_in_all (l i : string) :
  In l EMOTION_LABELS -> In i INTENSITY_LEVELS ->
  In (l ++ "_" ++ i) ALL_IMAGE_KEYS.
Proof.
  intros Hl Hi. unfold ALL_IMAGE_KEYS. apply in_flat_map.
  exists l. split; [exact Hl|].
  apply in_map_iff. exists i. split; [reflexivity | exact Hi].
Qed.

(** X6. Every state the affect model returns has a pre-cached image: the
    key of a state returned by [label_to_circumplex] or [apply_inertia]
    is one of [ALL_IMAGE_KEYS], which holds 63 keys, all different. *)
Theorem image_key_is_cached `{PyStr} :
  (forall l m, In (emotion_to_image_key (label_to_circumplex l m)) ALL_IMAGE_KEYS)
  /\ (forall prev new f,
        In (emotion_to_image_key (apply_inertia prev new f)) ALL_IMAGE_KEYS)
  /\ List.length ALL_IMAGE_KEYS = 63%nat
  /\ List.NoDup ALL_IMAGE_KEYS.
Proof.
  split; [|split; [|split]].
  - intros l m. destruct (label_to_circumplex_valid l m) as (_ & _ & Hl & Hi).
    apply image_key_in_all; assumption.
  - intros prev new f. destruct (apply_inertia_valid prev new f) as (_ & _ & Hl & Hi).
    apply image_key_in_all; assumption.
  - reflexivity.
  - apply (NoDup_count_occ' String.string_dec).
    intros key Hin.
    assert (Hall : forallb (fun k => Nat.eqb (count_occ String.string_dec ALL_IMAGE_KEYS k) 1)
                           ALL_IMAGE_KEYS = true)
      by (vm_compute; reflexivity).
    rewrite forallb_forall in Hall. apply Nat.eqb_eq, Hall, Hin.
Qed.


(* ===================================================================== *)
(** * More of the keyword heuristic *)
(* ===================================================================== *)

(** [max] returns the first entry with the largest score. *)
Lemma max_score_fold_spec (rest : list (string * nat)) : forall first seen,
  (In first seen /\ forall e, In e seen -> (snd e <= snd first)%nat) ->
  let best := fold_left (fun best entry =>
                           if (snd best <? snd entry)%nat then entry else best)
                        rest first in
  In best (seen ++ rest) /\ forall e, In e (seen ++ rest) -> (snd e <= snd best)%nat.
Proof.
  induction rest as [|entry rest IH]; intros first seen [Hin Hmax]; cbv zeta.
  - rewrite app_nil_r. cbn [fold_left]. auto.
  - cbn [fold_left].
    replace (seen ++ entry :: rest)%list with ((seen ++ [entry]) ++ rest)%list
      by (rewrite <- app_assoc; reflexivity).
    apply IH. destruct (snd first <? snd entry)%nat eqn:E.
    + apply Nat.ltb_lt in E. split; [apply in_or_app; right; left; reflexivity|].
      intros e [He|[<-|[]]]%in_app_or; [specialize (Hmax e He); lia | lia].
    + apply Nat.ltb_ge in E. split; [apply in_or_app; left; exact Hin|].
      intros e [He|[<-|[]]]%in_app_or; [exact (Hmax e He) | exact E].
Qed.

Lemma max_score_spec (scores : list (string * nat)) :
  scores <> [] ->
  In (max_score scores) scores
  /\ forall e, In e scores -> (snd e <= snd (max_score scores))%nat.
Proof.
  destruct scores as [|first rest]; [contradiction|]. intros _.
  cbn [max_score].
  apply (max_score_fold_spec rest first [first]).
  split; [left; reflexivity|]. intros e [<-|[]]. lia.
Qed.

Lemma keyword_scores_not_empty (text_lower : string) :
  keyword_scores text_lower <> [].
Proof. discriminate. Qed.

Lemma keyword_scores_labels (text_lower : string) (e : string * nat) :
  In e (keyword_scores text_lower) -> In (fst e) (map fst EMOTION_KEYWORDS).
Proof.
  unfold keyword_scores. intros Hin.
  apply in_map_iff in Hin. destruct Hin as [entry [<- Hin]].
  cbn [fst]. apply in_map, Hin.
Qed.

Lemma lexicon_labels_canonical :
  forallb (fun l => existsb (String.eqb l) EMOTION_LABELS)
          (map fst EMOTION_KEYWORDS ++ map snd RELATIONSHIP_EMOTION_BIAS
           ++ VALID_EMOTIONS) = true.
Proof. vm_compute. reflexivity. Qed.

Lemma canonical_by_check (l : string) :
  In l (map fst EMOTION_KEYWORDS ++ map snd RELATIONSHIP_EMOTION_BIAS
        ++ VALID_EMOTIONS) ->
  In l EMOTION_LABELS.
Proof.
  intros Hin. pose proof lexicon_labels_canonical as Hall.
  rewrite forallb_forall in Hall. specialize (Hall l Hin).
  apply existsb_exists in Hall. destruct Hall as [x [Hx Heq]].
  apply String.eqb_eq in Heq. subst x. exact Hx.
Qed.

Lemma assoc_In_snd {A : Type} (key : string) (table : list (string * A)) (x : A) :
  assoc key table = Some x -> In x (map snd table).
Proof.
  intros Hx. apply assoc_In in Hx. apply (in_map snd) in Hx. exact Hx.
Qed.

(** X7. The heuristic classifier only ever answers with a label that has
    canonical coordinates, for every text, relationship type and
    familiarity: a label of the lexicon, a bias label or "neutral", all 21
    of which are keys of [EMOTION_MAP] (so [label_to_circumplex] never
    falls back on one of its answers). *)
Theorem heuristic_label_is_canonical `{PyStr} (text : string)
    (rel : option string) (fam : Z) :
  In (classify_emotion_heuristic text rel fam) EMOTION_LABELS
  /\ assoc (classify_emotion_heuristic text rel fam) EMOTION_MAP <> None.
Proof.
  assert (Hin : In (classify_emotion_heuristic text rel fam) EMOTION_LABELS).
  { unfold classify_emotion_heuristic.
    pose proof (max_score_spec _ (keyword_scores_not_empty (lower text))) as [Hbest _].
    apply keyword_scores_labels in Hbest.
    destruct (max_score (keyword_scores (lower text))) as [best score].
    cbn [fst] in Hbest.
    assert (Hneutral : In "neutral" EMOTION_LABELS)
      by (apply canonical_by_check; apply in_or_app; right; apply in_or_app; right;
          cbn; tauto).
    destruct (0 <? score)%nat.
    - apply canonical_by_check, in_or_app. left. exact Hbest.
    - destruct rel as [r|]; [|exact Hneutral].
      destruct (if truthy (Some r) then assoc r RELATIONSHIP_EMOTION_BIAS else None)
        as [bias|] eqn:Eb; [|exact Hneutral].
      assert (Hbias : In bias EMOTION_LABELS).
      { destruct (truthy (Some r)); [|discriminate Eb].
        apply assoc_In_snd in Eb.
        apply canonical_by_check, in_or_app. right. apply in_or_app. left. exact Eb. }
      destruct (7 <=? fam)%Z; [exact Hbias|].
      destruct (4 <=? fam)%Z; [|exact Hneutral].
      destruct (20 <? py_len text)%nat; [exact Hbias | exact Hneutral]. }
  split; [exact Hin|].
  generalize dependent (classify_emotion_heuristic text rel fam). intros l Hl.
  unfold EMOTION_LABELS in Hl. apply in_map_iff in Hl.
  destruct Hl as [[l' p] [<- Hl]]. cbn [fst].
  assert (Hall : forallb (fun e => match assoc (fst e) EMOTION_MAP with
                                   | Some _ => true
                                   | None => false
                                   end) EMOTION_MAP = true)
    by (vm_compute; reflexivity).
  rewrite forallb_forall in Hall. specialize (Hall _ Hl). cbn [fst] in Hall.
  destruct (assoc l' EMOTION_MAP); [discriminate | discriminate Hall].
Qed.

Lemma keyword_score_found (text_lower : string) (keywords : list string) (kw : string) :
  In kw keywords -> py_in kw text_lower = true ->
  forall start,
  (start < fold_left (fun score k => if py_in k text_lower then S score else score)
                     keywords start)%nat.
Proof.
  assert (Hmono : forall ks start,
            (start <= fold_left (fun score k => if py_in k text_lower then S score else score)
                                ks start)%nat).
  { induction ks as [|k ks IH]; intros start; [cbn; lia|].
    cbn [fold_left]. destruct (py_in k text_lower).
    - specialize (IH (S start)). lia.
    - apply IH. }
  induction keywords as [|k keywords IH]; intros Hin Hfound start; [destruct Hin|].
  cbn [fold_left]. destruct Hin as [->|Hin].
  - rewrite Hfound. specialize (Hmono keywords (S start)). lia.
  - destruct (py_in k text_lower).
    + specialize (IH Hin Hfound (S start)). lia.
    + apply (IH Hin Hfound).
Qed.

(** X8. A keyword decides: when some keyword of the lexicon occurs in the
    lower-cased text, the answer is a label of the lexicon whose own
    score is positive and is the largest of all scores, and the
    relationship type and the familiarity play no part. *)
Theorem heuristic_with_keyword `{PyStr} (text : string) (rel : option string)
    (fam : Z) (emotion : string) (keywords : list string) (kw : string) :
  In (emotion, keywords) EMOTION_KEYWORDS -> In kw keywords ->
  py_in kw (lower text) = true ->
  let answer := classify_emotion_heuristic text rel fam in
  (exists score, In (answer, score) (keyword_scores (lower text))
     /\ (0 < score)%nat
     /\ forall e, In e (keyword_scores (lower text)) -> (snd e <= score)%nat)
  /\ answer = classify_emotion_heuristic text None 0.
Proof.
  intros Hentry Hkw Hfound. cbv zeta. unfold classify_emotion_heuristic.
  pose proof (max_score_spec _ (keyword_scores_not_empty (lower text))) as [Hbest Hmax].
  assert (Hscore : In (emotion, keyword_score (lower text) keywords)
                      (keyword_scores (lower text))).
  { unfold keyword_scores. apply in_map_iff. exists (emotion, keywords). auto. }
  pose proof (keyword_score_found (lower text) keywords kw Hkw Hfound 0%nat) as Hpos.
  fold (keyword_score (lower text) keywords) in Hpos.
  specialize (Hmax _ Hscore) as Hle. cbn [snd] in Hle.
  destruct (max_score (keyword_scores (lower text))) as [best score].
  cbn [fst snd] in *.
  assert (E : (0 <? score)%nat = true) by (apply Nat.ltb_lt; lia).
  rewrite E. split; [|reflexivity].
  exists score. split; [exact Hbest|]. split; [lia | exact Hmax].
Qed.

Lemma heuristic_with_keyword_witness :
  classify_emotion_heuristic "haha that's awesome!" (Some "Nemesis") 9 = "happy"
  /\ classify_emotion_heuristic "haha that's awesome!" (Some "Nemesis") 9
     = classify_emotion_heuristic "haha that's awesome!" None 0.
Proof.
  assert (Hentry : exists keywords,
             In ("happy", keywords) EMOTION_KEYWORDS /\ In "haha" keywords).
  { eexists. split; [left; reflexivity | left; reflexivity]. }
  destruct Hentry as (keywords & Hentry & Hkw).
  pose proof (heuristic_with_keyword "haha that's awesome!" (Some "Nemesis") 9
                "happy" keywords "haha" Hentry Hkw eq_refl) as (_ & Hsame).
  split; [vm_compute; reflexivity | exact Hsame].
Defined.


(** Nothing later beats a best that nothing exceeds. *)
Lemma max_score_keeps (rest : list (string * nat)) : forall best,
  (forall e, In e rest -> (snd e <= snd best)%nat) ->
  fold_left (fun best entry => if (snd best <? snd entry)%nat then entry else best)
            rest best = best.
Proof.
  induction rest as [|entry rest IH]; intros best Hle; [reflexivity|].
  cbn [fold_left].
  assert (E : (snd best <? snd entry)%nat = false)
    by (apply Nat.ltb_ge, Hle; left; reflexivity).
  rewrite E. apply IH. intros e He. apply Hle. right. exact He.
Qed.

Lemma max_score_reaches (before after : list (string * nat)) (l : string) (n : nat) :
  forall best,
  (snd best < n)%nat ->
  (forall e, In e before -> (snd e < n)%nat) ->
  (forall e, In e after -> (snd e <= n)%nat) ->
  fold_left (fun best entry => if (snd best <? snd entry)%nat then entry else best)
            (before ++ (l, n) :: after) best = (l, n).
Proof.
  induction before as [|b before IH]; intros best Hbest Hbefore Hafter.
  - cbn [app fold_left snd].
    assert (E : (snd best <? n)%nat = true) by (apply Nat.ltb_lt; exact Hbest).
    rewrite E. apply max_score_keeps. exact Hafter.
  - cbn [app fold_left]. apply IH; [|intros e He; apply Hbefore; right; exact He | exact Hafter].
    destruct (snd best <? snd b)%nat; [apply Hbefore; left; reflexivity | exact Hbest].
Qed.

(** X9. Ties go to the label declared first: when the scores of the
    lexicon read, in declaration order, smaller scores, then a positive
    score [n] for a label, then scores of at most [n], that label is the
    answer. *)
Theorem heuristic_tie_first_declared `{PyStr} (text : string) (rel : option string)
    (fam : Z) (before after : list (string * nat)) (l : string) (n : nat) :
  keyword_scores (lower text) = (before ++ (l, n) :: after)%list ->
  (0 < n)%nat ->
  (forall e, In e before -> (snd e < n)%nat) ->
  (forall e, In e after -> (snd e <= n)%nat) ->
  classify_emotion_heuristic text rel fam = l.
Proof.
  intros Hscores Hpos Hbefore Hafter. unfold classify_emotion_heuristic.
  rewrite Hscores.
  assert (Hmax : max_score (before ++ (l, n) :: after) = (l, n)).
  { destruct before as [|b before].
    - cbn [app max_score]. apply max_score_keeps. exact Hafter.
    - cbn [app max_score].
      apply max_score_reaches;
        [apply Hbefore; left; reflexivity
        | intros e He; apply Hbefore; right; exact He
        | exact Hafter]. }
  rewrite Hmax.
  assert (E : (0 <? n)%nat = true) by (apply Nat.ltb_lt; exact Hpos).
  rewrite E. reflexivity.
Qed.

Lemma heuristic_tie_first_declared_witness :
  keyword_score (lower "wow, you look sad") ["excited"; "wow"] = 1%nat
  /\ keyword_score (lower "wow, you look sad") ["sorry"; "sad"] = 1%nat
  /\ classify_emotion_heuristic "wow, you look sad" None 5 = "excited".
Proof.
  split; [reflexivity|]. split; [reflexivity|].
  apply (heuristic_tie_first_declared "wow, you look sad" None 5
           [("happy", 0%nat)] (tl (tl (keyword_scores (lower "wow, you look sad"))))
           "excited" 1%nat).
  - vm_compute. reflexivity.
  - lia.
  - intros e [<-|[]]. cbn. lia.
  - intros e He. vm_compute in He.
    repeat (destruct He as [<-|He]; [cbn; lia|]). destruct He.
Defined.


(* ===================================================================== *)
(** * app/services/gemini_live.py: the adapter object *)
(* ===================================================================== *)

(** The fields of a [GeminiLiveSession] that its methods read and write:
    whether [_session] and [_context_manager] are set, the running flag
    and the resumption handle. *)
Record Adapter := mkAdapter {
  _session : bool;
  _context_manager : bool;
  _running : bool;
  _session_handle : option string
}.

(** [GeminiLiveSession(...)] *)
Definition new_adapter : Adapter := mkAdapter false false false None.

(** The calls an adapter makes on the upstream client. *)
Inductive Call :=
| LiveConnect (handle : option string)   (* [live.connect(config)] and [__aenter__] *)
| LiveExit                               (* [__aexit__] *)
| RealtimeAudio (audio : string)
| RealtimeVideo (frame mime : string)
| ClientContent (text : string) (turn_complete : bool)
| ToolResponse (function_responses : list string)
| Pause (seconds : Q).

(** A method returns normally or raises. *)
Inductive Ending := Returned | Raised.

(** [connect()]; [ok] tells whether [__aenter__] returns. *)
Definition adapter_connect (ok : bool) (a : Adapter) : Adapter * list Call * Ending :=
  let calls := [LiveConnect (_session_handle a)] in
  if ok then (mkAdapter true true true (_session_handle a), calls, Returned)
  else (mkAdapter (_session a) true (_running a) (_session_handle a), calls, Raised).

(** [close()]: an error of [__aexit__] is logged and swallowed. *)
Definition adapter_close (a : Adapter) : Adapter * list Call :=
  if _context_manager a
  then (mkAdapter false false false (_session_handle a), [LiveExit])
  else (mkAdapter (_session a) false false (_session_handle a), []).

(** The guard [if self._session and self._running] of every send. *)
Definition adapter_send (call : Call) (ok : bool) (a : Adapter) : list Call * Ending :=
  if _session a && _running a
  then ([call], if ok then Returned else Raised)
  else ([], Returned).

Definition send_audio (audio : string) := adapter_send (RealtimeAudio audio).
Definition send_video_frame (frame mime : string) :=
  adapter_send (RealtimeVideo frame mime).
Definition send_text (text : string) := adapter_send (ClientContent text true).
Definition inject_context (system_text : string) :=
  adapter_send (ClientContent ("[SYSTEM UPDATE]: " ++ system_text) false).
Definition send_tool_response (function_responses : list string) :=
  adapter_send (ToolResponse function_responses).

(** [receive_responses()] over the events the upstream stream yields, each
    with the [new_handle] of its resumption update, if any: the events
    yielded to the caller, and the adapter afterwards. *)
Fixpoint capture_handles {A : Type} (stream : list (option string * A))
    (a : Adapter) : Adapter :=
  match stream with
  | [] => a
  | (new_handle, _) :: rest =>
      capture_handles rest
        (if truthy new_handle
         then mkAdapter (_session a) (_context_manager a) (_running a) new_handle
         else a)
  end.

Definition receive_responses {A : Type} (stream : list (option string * A))
    (a : Adapter) : Adapter * list A :=
  if _session a then (capture_handles stream a, map snd stream)
  else (a, []).

(** [reconnect(max_retries)] on the adapter object. *)
Fixpoint adapter_reconnect_from (connect_ok : nat -> bool)
    (attempt remaining : nat) (a : Adapter) : Adapter * list Call * bool :=
  match remaining with
  | O => (a, [], false)
  | S remaining' =>
      let '(a, closing) := adapter_close a in
      let pause :=
        if (1 <? attempt)%nat then [Pause (0.5 * inject_Z (Z.of_nat attempt))] else [] in
      let '(a, connecting, ending) := adapter_connect (connect_ok attempt) a in
      match ending with
      | Returned => (a, (closing ++ pause ++ connecting)%list, true)
      | Raised =>
          let '(a, later, ok) :=
            adapter_reconnect_from connect_ok (S attempt) remaining' a in
          (a, (closing ++ pause ++ connecting ++ later)%list, ok)
      end
  end.

Definition adapter_reconnect (max_retries : nat) (connect_ok : nat -> bool)
    (a : Adapter) : Adapter * list Call * bool :=
  adapter_reconnect_from connect_ok 1 max_retries a.

(** The handles presented upstream, one per connection attempt. *)
Definition handles_presented (calls : list Call) : list (option string) :=
  flat_map (fun call =>
              match call with
              | LiveConnect handle => [handle]
              | _ => []
              end) calls.

(** The last non-empty handle of a stream, if any. *)
Definition last_handle {A : Type} (stream : list (option string * A))
    : option string :=
  fold_left (fun found event => if truthy (fst event) then fst event else found)
            stream None.


(** X10. A closed adapter is silent: after [close()] every send method
    returns without calling upstream and without raising, whatever the
    adapter was before; closing again changes nothing and calls
    nothing. *)
Theorem closed_adapter_is_silent (a : Adapter) :
  let closed := fst (adapter_close a) in
  (forall call ok, adapter_send call ok closed = ([], Returned))
  /\ _running closed = false
  /\ adapter_close closed = (closed, []).
Proof.
  cbv zeta. unfold adapter_close, adapter_send.
  destruct a as [session manager running handle]; cbn [_context_manager].
  destruct manager; cbn [fst _session _running _context_manager _session_handle].
  - repeat split.
  - repeat split. intros call ok. rewrite andb_false_r. reflexivity.
Qed.

Lemma adapter_reconnect_from_failed (connect_ok : nat -> bool) :
  forall remaining attempt a,
  (forall k, connect_ok k = false) ->
  (0 < remaining)%nat ->
  let result := adapter_reconnect_from connect_ok attempt remaining a in
  snd result = false /\ _running (fst (fst result)) = false.
Proof.
  induction remaining as [|remaining IH]; intros attempt a Hfail Hpos; [lia|].
  cbv zeta. cbn [adapter_reconnect_from].
  destruct (adapter_close a) as [a1 closing] eqn:Hclose.
  assert (Hr1 : _running a1 = false).
  { unfold adapter_close in Hclose.
    destruct (_context_manager a); injection Hclose as <- _; reflexivity. }
  unfold adapter_connect. rewrite Hfail.
  destruct remaining as [|remaining'].
  - cbn [adapter_reconnect_from fst snd _running]. split; [reflexivity | exact Hr1].
  - specialize (IH (S attempt)
                   (mkAdapter (_session a1) true (_running a1) (_session_handle a1))
                   Hfail ltac:(lia)).
    cbv zeta in IH.
    destruct (adapter_reconnect_from connect_ok (S attempt) (S remaining')
                (mkAdapter (_session a1) true (_running a1) (_session_handle a1)))
      as [[a2 later] ok].
    cbn [fst snd] in *. exact IH.
Qed.

(** X11. A reconnection that fails leaves the adapter closed: when every
    attempt of [reconnect()] fails (with at least one attempt allowed) it
    returns false with the running flag cleared, so every later send
    returns without calling upstream and without raising. *)
Theorem failed_reconnect_silences_adapter (max_retries : nat)
    (connect_ok : nat -> bool) (a : Adapter) :
  (forall k, connect_ok k = false) ->
  (0 < max_retries)%nat ->
  let result := adapter_reconnect max_retries connect_ok a in
  snd result = false
  /\ _running (fst (fst result)) = false
  /\ forall call ok, adapter_send call ok (fst (fst result)) = ([], Returned).
Proof.
  intros Hfail Hpos. cbv zeta. unfold adapter_reconnect.
  pose proof (adapter_reconnect_from_failed connect_ok max_retries 1 a Hfail Hpos)
    as [Hok Hrun].
  cbv zeta in Hok, Hrun. split; [exact Hok|]. split; [exact Hrun|].
  intros call ok. unfold adapter_send. rewrite Hrun, andb_false_r. reflexivity.
Qed.

Lemma failed_reconnect_silences_adapter_witness :
  let a := fst (fst (adapter_connect true new_adapter)) in
  send_text "hello" true a = ([ClientContent "hello" true], Returned)
  /\ send_text "hello" true
       (fst (fst (adapter_reconnect 3 (fun _ => false) a))) = ([], Returned).
Proof.
  cbv zeta. split; [reflexivity|].
  apply (failed_reconnect_silences_adapter 3 (fun _ => false)
           (fst (fst (adapter_connect true new_adapter)))
           (fun _ => eq_refl) ltac:(lia)).
Defined.

Lemma capture_handles_fields {A : Type} (stream : list (option string * A)) :
  forall a,
  _session (capture_handles stream a) = _session a
  /\ _context_manager (capture_handles stream a) = _context_manager a
  /\ _running (capture_handles stream a) = _running a
  /\ _session_handle (capture_handles stream a)
     = fold_left (fun found event => if truthy (fst event) then fst event else found)
                 stream (_session_handle a).
Proof.
  induction stream as [|[new_handle x] stream IH]; intros a; [repeat split|].
  cbn [capture_handles fold_left fst].
  destruct (IH (if truthy new_handle
                then mkAdapter (_session a) (_context_manager a) (_running a) new_handle
                else a)) as (H1 & H2 & H3 & H4).
  rewrite H1, H2, H3, H4. destruct (truthy new_handle); repeat split.
Qed.

Lemma adapter_reconnect_from_handles (connect_ok : nat -> bool) :
  forall remaining attempt a,
  let result := adapter_reconnect_from connect_ok attempt remaining a in
  _session_handle (fst (fst result)) = _session_handle a
  /\ Forall (fun handle => handle = _session_handle a)
            (handles_presented (snd (fst result))).
Proof.
  induction remaining as [|remaining IH]; intros attempt a; cbv zeta.
  - split; [reflexivity | constructor].
  - cbn [adapter_reconnect_from].
    destruct (adapter_close a) as [a1 closing] eqn:Hclose.
    assert (Hh : _session_handle a1 = _session_handle a
                 /\ handles_presented closing = []).
    { unfold adapter_close in Hclose.
      destruct (_context_manager a); injection Hclose as <- <-; split; reflexivity. }
    destruct Hh as [Hh Hc].
    assert (Hp : handles_presented
                   (if (1 <? attempt)%nat
                    then [Pause (0.5 * inject_Z (Z.of_nat attempt))] else []) = [])
      by (destruct (1 <? attempt)%nat; reflexivity).
    unfold adapter_connect. destruct (connect_ok attempt).
    + cbn [fst snd _session_handle]. split; [exact Hh|].
      unfold handles_presented in *. rewrite !flat_map_app, Hc, Hp.
      cbn. constructor; [exact Hh | constructor].
    + specialize (IH (S attempt)
                     (mkAdapter (_session a1) true (_running a1) (_session_handle a1))).
      cbv zeta in IH.
      destruct (adapter_reconnect_from connect_ok (S attempt) remaining
                  (mkAdapter (_session a1) true (_running a1) (_session_handle a1)))
        as [[a2 later] ok].
      cbn [fst snd _session_handle] in *. destruct IH as [IH1 IH2].
      split; [congruence|].
      unfold handles_presented in *. rewrite !flat_map_app, Hc, Hp.
      cbn [flat_map app]. constructor; [exact Hh|].
      rewrite Hh in IH2. exact IH2.
Qed.

(** X12. The resumption handle is captured and presented: after
    [receive_responses()] has yielded a stream of events on a connected
    adapter, every connection attempt of the next [reconnect()] presents
    the last non-empty handle of that stream, or the handle the adapter
    already had if the stream brought none; the events are yielded
    unchanged and in order. *)
Theorem resumption_handle_presented {A : Type} (stream : list (option string * A))
    (max_retries : nat) (connect_ok : nat -> bool) (a : Adapter) :
  _session a = true ->
  let received := receive_responses stream a in
  let expected :=
    match last_handle stream with
    | Some handle => Some handle
    | None => _session_handle a
    end in
  snd received = map snd stream
  /\ Forall (fun handle => handle = expected)
            (handles_presented
               (snd (fst (adapter_reconnect max_retries connect_ok (fst received))))).
Proof.
  intros Hs. cbv zeta. unfold receive_responses. rewrite Hs. cbn [fst snd].
  split; [reflexivity|].
  pose proof (adapter_reconnect_from_handles connect_ok max_retries 1
                (capture_handles stream a)) as [_ Hall].
  cbv zeta in Hall. unfold adapter_reconnect.
  destruct (capture_handles_fields stream a) as (_ & _ & _ & Hh).
  rewrite Hh in Hall.
  assert (Hfold : forall (evs : list (option string * A)) start,
            fold_left (fun found event => if truthy (fst event) then fst event else found)
                      evs start
            = match fold_left (fun found event =>
                                 if truthy (fst event) then fst event else found)
                              evs None with
              | Some handle => Some handle
              | None => start
              end).
  { induction evs as [|[h x] evs IH]; intros start; [reflexivity|].
    cbn [fold_left fst]. destruct (truthy h) eqn:Et.
    - rewrite (IH h).
      destruct h as [[|c s]|]; try discriminate Et.
      destruct (fold_left _ evs None); reflexivity.
    - apply IH. }
  unfold last_handle. rewrite <- Hfold. exact Hall.
Qed.

Lemma resumption_handle_presented_witness :
  let a := fst (fst (adapter_connect true new_adapter)) in
  let stream := [(None, 1%nat); (Some "h1", 2%nat); (Some "", 3%nat)] in
  _session a = true
  /\ Forall (fun handle => handle = Some "h1")
            (handles_presented
               (snd (fst (adapter_reconnect 3 (fun k => Nat.eqb k 2)
                                            (fst (receive_responses stream a))))))
  /\ List.length
       (handles_presented
          (snd (fst (adapter_reconnect 3 (fun k => Nat.eqb k 2)
                                       (fst (receive_responses stream a))))))
     = 2%nat.
Proof.
  cbv zeta. split; [reflexivity|].
  pose proof (resumption_handle_presented
                [(None, 1%nat); (Some "h1", 2%nat); (Some "", 3%nat)]
                3 (fun k => Nat.eqb k 2)
                (fst (fst (adapter_connect true new_adapter))) eq_refl) as [_ Hall].
  cbv zeta in Hall. split; [exact Hall | reflexivity].
Defined.


(** The connection attempts and the [close()] calls of a trace. *)
Definition attempts_made (trace : list Effect) : nat :=
  List.length (flat_map (fun effect => match effect with
                                       | AdapterConnect => [tt]
                                       | _ => []
                                       end) trace).

Definition closes_made (trace : list Effect) : nat :=
  List.length (flat_map (fun effect => match effect with
                                       | AdapterClose => [tt]
                                       | _ => []
                                       end) trace).

Definition sleeps_of (trace : list Effect) : list Q :=
  flat_map (fun effect => match effect with
                          | Sleep seconds => [seconds]
                          | _ => []
                          end) trace.

Definition pauses_of (calls : list Call) : list Q :=
  flat_map (fun call => match call with
                        | Pause seconds => [seconds]
                        | _ => []
                        end) calls.

Lemma reconnect_from_attempts (connect_ok : nat -> bool) :
  forall remaining attempt,
  let ok := fst (reconnect_from connect_ok attempt remaining) in
  let trace := snd (reconnect_from connect_ok attempt remaining) in
  (attempts_made trace <= remaining)%nat
  /\ closes_made trace = attempts_made trace
  /\ (forall j, (S j < attempts_made trace)%nat -> connect_ok (attempt + j)%nat = false)
  /\ (ok = true ->
      (0 < attempts_made trace)%nat
      /\ connect_ok (attempt + (attempts_made trace - 1))%nat = true)
  /\ (ok = false ->
      attempts_made trace = remaining
      /\ forall j, (j < remaining)%nat -> connect_ok (attempt + j)%nat = false).
Proof.
  induction remaining as [|remaining IH]; intros attempt; cbv zeta.
  - cbn. split; [lia|]. split; [reflexivity|]. split; [intros j Hj; lia|].
    split; [intros Hok; discriminate Hok|].
    intros _. split; [reflexivity | intros j Hj; lia].
  - cbn [reconnect_from].
    set (this := ([AdapterClose]
                  ++ (if (1 <? attempt)%nat
                      then [Sleep (0.5 * inject_Z (Z.of_nat attempt))] else [])
                  ++ [AdapterConnect])%list).
    assert (Hthis : attempts_made this = 1%nat /\ closes_made this = 1%nat)
      by (subst this; destruct (1 <? attempt)%nat; split; reflexivity).
    destruct Hthis as [Ha Hc].
    destruct (connect_ok attempt) eqn:E.
    + cbn [fst snd]. rewrite Ha, Hc.
      split; [lia|]. split; [reflexivity|]. split; [intros j Hj; lia|].
      split; [|intros Hok; discriminate Hok].
      intros _. split; [lia|].
      replace (attempt + (1 - 1))%nat with attempt by lia. exact E.
    + specialize (IH (S attempt)). cbv zeta in IH.
      destruct (reconnect_from connect_ok (S attempt) remaining) as [ok later].
      cbn [fst snd] in *.
      destruct IH as (H1 & H2 & H3 & H4 & H5).
      assert (Happ_a : attempts_made (this ++ later) = S (attempts_made later))
        by (unfold attempts_made in *; rewrite flat_map_app, List.length_app, Ha; reflexivity).
      assert (Happ_c : closes_made (this ++ later) = S (closes_made later))
        by (unfold closes_made in *; rewrite flat_map_app, List.length_app, Hc; reflexivity).
      rewrite Happ_a, Happ_c.
      split; [lia|]. split; [lia|]. split; [|split].
      * intros j Hj. destruct j as [|j].
        -- replace (attempt + 0)%nat with attempt by lia. exact E.
        -- replace (attempt + S j)%nat with (S attempt + j)%nat by lia.
           apply H3. lia.
      * intros Hok. destruct (H4 Hok) as [Hpos Hlast]. split; [lia|].
        replace (attempt + (S (attempts_made later) - 1))%nat
          with (S attempt + (attempts_made later - 1))%nat by lia.
        exact Hlast.
      * intros Hok. destruct (H5 Hok) as [Hn Hall]. split; [lia|].
        intros j Hj. destruct j as [|j].
        -- replace (attempt + 0)%nat with attempt by lia. exact E.
        -- replace (attempt + S j)%nat with (S attempt + j)%nat by lia.
           apply Hall. lia.
Qed.

(** X13. [reconnect(max_retries)] for any number of retries: it stops at the
    first attempt that connects and returns true, or makes all
    [max_retries] attempts and returns false (at once, with no call at
    all, when [max_retries] is 0); it returns true exactly when one of the
    attempts 1 to [max_retries] connects, and every attempt is preceded by
    one [close()]. *)
Theorem reconnect_attempts (max_retries : nat) (connect_ok : nat -> bool) :
  let ok := fst (reconnect max_retries connect_ok) in
  let trace := snd (reconnect max_retries connect_ok) in
  (attempts_made trace <= max_retries)%nat
  /\ closes_made trace = attempts_made trace
  /\ (ok = true <->
      exists k, (1 <= k <= max_retries)%nat /\ connect_ok k = true)
  /\ (ok = true ->
      connect_ok (attempts_made trace) = true
      /\ forall j, (1 <= j < attempts_made trace)%nat -> connect_ok j = false)
  /\ (ok = false -> attempts_made trace = max_retries)
  /\ (max_retries = 0%nat -> ok = false /\ trace = []).
Proof.
  cbv zeta. unfold reconnect.
  pose proof (reconnect_from_attempts connect_ok max_retries 1) as H.
  cbv zeta in H. destruct H as (H1 & H2 & H3 & H4 & H5).
  split; [exact H1|]. split; [exact H2|].
  assert (Hfirst : forall j, (1 <= j < attempts_made
                                (snd (reconnect_from connect_ok 1 max_retries)))%nat ->
                             connect_ok j = false).
  { intros j Hj. replace j with (1 + (j - 1))%nat by lia. apply H3. lia. }
  split; [split|split; [|split]].
  - intros Hok. destruct (H4 Hok) as [Hpos Hlast].
    exists (1 + (attempts_made (snd (reconnect_from connect_ok 1 max_retries)) - 1))%nat.
    split; [lia | exact Hlast].
  - intros (k & Hk & Hconn).
    destruct (fst (reconnect_from connect_ok 1 max_retries)) eqn:E; [reflexivity|].
    destruct (H5 eq_refl) as [_ Hall].
    specialize (Hall (k - 1)%nat ltac:(lia)).
    replace (1 + (k - 1))%nat with k in Hall by lia. congruence.
  - intros Hok. destruct (H4 Hok) as [Hpos Hlast]. split; [|exact Hfirst].
    replace (attempts_made (snd (reconnect_from connect_ok 1 max_retries)))
      with (1 + (attempts_made (snd (reconnect_from connect_ok 1 max_retries)) - 1))%nat
      at 1 by lia.
    exact Hlast.
  - intros Hok. apply (H5 Hok).
  - intros ->. split; reflexivity.
Qed.

Lemma adapter_reconnect_from_refines (connect_ok : nat -> bool) :
  forall remaining attempt a,
  let result := adapter_reconnect_from connect_ok attempt remaining a in
  let trace := reconnect_from connect_ok attempt remaining in
  snd result = fst trace
  /\ List.length (handles_presented (snd (fst result))) = attempts_made (snd trace)
  /\ pauses_of (snd (fst result)) = sleeps_of (snd trace).
Proof.
  induction remaining as [|remaining IH]; intros attempt a; cbv zeta.
  - repeat split.
  - cbn [adapter_reconnect_from reconnect_from].
    destruct (adapter_close a) as [a1 closing] eqn:Hclose.
    assert (Hc : handles_presented closing = [] /\ pauses_of closing = []).
    { unfold adapter_close in Hclose.
      destruct (_context_manager a); injection Hclose as _ <-; split; reflexivity. }
    destruct Hc as [Hc1 Hc2].
    unfold adapter_connect.
    destruct (connect_ok attempt).
    + cbn [fst snd]. split; [reflexivity|].
      unfold handles_presented, pauses_of, attempts_made, sleeps_of in *.
      rewrite !flat_map_app, Hc1, Hc2.
      destruct (1 <? attempt)%nat; split; reflexivity.
    + specialize (IH (S attempt)
                     (mkAdapter (_session a1) true (_running a1) (_session_handle a1))).
      cbv zeta in IH.
      destruct (adapter_reconnect_from connect_ok (S attempt) remaining
                  (mkAdapter (_session a1) true (_running a1) (_session_handle a1)))
        as [[a2 later] ok].
      destruct (reconnect_from connect_ok (S attempt) remaining) as [ok' later'].
      cbn [fst snd] in *. destruct IH as (I1 & I2 & I3).
      split; [exact I1|].
      unfold handles_presented, pauses_of, attempts_made, sleeps_of in *.
      rewrite !flat_map_app, Hc1, Hc2, !List.length_app, I2, I3.
      destruct (1 <? attempt)%nat; split; reflexivity.
Qed.

(** X14. The outcome of [reconnect()] does not depend on the fields of the
    adapter: from every adapter state it returns the flag, makes the
    number of connection attempts (presenting one handle at each) and
    pauses for the seconds, in the order, that the trace of [reconnect]
    gives from the attempts that connect alone. *)
Theorem adapter_reconnect_refines (max_retries : nat) (connect_ok : nat -> bool)
    (a : Adapter) :
  let result := adapter_reconnect max_retries connect_ok a in
  let trace := reconnect max_retries connect_ok in
  snd result = fst trace
  /\ List.length (handles_presented (snd (fst result))) = attempts_made (snd trace)
  /\ pauses_of (snd (fst result)) = sleeps_of (snd trace).
Proof.
  apply adapter_reconnect_from_refines.
Qed.


(* ===================================================================== *)
(** * More of the adapter-to-client routine *)
(* ===================================================================== *)

(** The session fields that say who is talking. *)
Definition same_identity (st st' : SessionState) : Prop :=
  relationship_type st' = relationship_type st
  /\ familiarity_level st' = familiarity_level st
  /\ mbti st' = mbti st.

(** [st'] has the transcript of [st] and more, spoken by the user or the
    model. *)
Definition transcript_grows (st st' : SessionState) : Prop :=
  exists added,
    transcript_buffer st' = (transcript_buffer st ++ added)%list
    /\ Forall (fun entry => entry_role entry = "user" \/ entry_role entry = "model")
              added.

Definition keeps_record (st st' : SessionState) : Prop :=
  transcript_grows st st' /\ same_identity st st'.

Lemma keeps_record_refl (st : SessionState) : keeps_record st st.
Proof.
  split; [|repeat split]. exists []. rewrite app_nil_r. split; [reflexivity | constructor].
Qed.

Lemma keeps_record_trans (a b c : SessionState) :
  keeps_record a b -> keeps_record b c -> keeps_record a c.
Proof.
  intros [[add1 [E1 F1]] (I1 & I2 & I3)] [[add2 [E2 F2]] (J1 & J2 & J3)].
  split.
  - exists (add1 ++ add2)%list. split.
    + rewrite E2, E1, app_assoc. reflexivity.
    + apply Forall_app. split; assumption.
  - unfold same_identity. rewrite J1, J2, J3. auto.
Qed.

Lemma keeps_record_append (role text : string) (emotion : option string)
    (st : SessionState) :
  role = "user" \/ role = "model" ->
  keeps_record st (append_transcript (mkEntry role text emotion) st).
Proof.
  intros Hrole. split; [|repeat split].
  exists [mkEntry role text emotion]. split; [reflexivity|].
  constructor; [exact Hrole | constructor].
Qed.

Lemma handle_output_transcription_record `{PyStr} (text : string) (st : SessionState) :
  keeps_record st (fst (handle_output_transcription text st)).
Proof.
  unfold handle_output_transcription.
  destruct (user_interacted_since_last_emotion st);
    destruct (truthy (Some (strip text))); cbn [fst].
  - apply (keeps_record_trans _ (with_emotion
             (classify_to_circumplex text (relationship_type st) (familiarity_level st)
                (mbti st) (Some (current_emotion st))) false st)).
    + split; [|repeat split]. exists []. rewrite app_nil_r.
      split; [reflexivity | constructor].
    + apply keeps_record_append. right. reflexivity.
  - split; [|repeat split]. exists []. rewrite app_nil_r.
    split; [reflexivity | constructor].
  - apply keeps_record_append. right. reflexivity.
  - apply keeps_record_refl.
Qed.

Lemma handle_response_record `{PyStr} (now : Q) (response : Response)
    (st : SessionState) :
  keeps_record st (fst (fst (handle_response now response st))).
Proof.
  unfold handle_response.
  destruct (negb (running st)); [apply keeps_record_refl|].
  destruct (go_away response); [apply keeps_record_refl|].
  destruct (server_content response) as [content|]; [|apply keeps_record_refl].
  destruct (interrupted content); [apply keeps_record_refl|].
  destruct (turn_complete content).
  { split; [|repeat split]. exists []. rewrite app_nil_r.
    split; [reflexivity | constructor]. }
  assert (Hout : keeps_record st
            (fst match output_transcription content with
                 | Some text =>
                     if truthy (output_transcription content)
                     then handle_output_transcription text st else (st, [])
                 | None => (st, [])
                 end)).
  { destruct (output_transcription content) as [text|]; [|apply keeps_record_refl].
    destruct (truthy (Some text)); [|apply keeps_record_refl].
    apply handle_output_transcription_record. }
  destruct (match output_transcription content with
            | Some text =>
                if truthy (output_transcription content)
                then handle_output_transcription text st else (st, [])
            | None => (st, [])
            end) as [st1 out].
  cbn [fst] in Hout.
  destruct (input_transcription content) as [user_text|]; [|exact Hout].
  destruct (truthy (Some user_text)); [|exact Hout].
  cbn [handle_input_transcription fst].
  apply (keeps_record_trans st st1); [exact Hout|].
  apply (keeps_record_trans _ (append_transcript (mkEntry "user" user_text None) st1)).
  - apply keeps_record_append. left. reflexivity.
  - split; [|repeat split]. exists []. rewrite app_nil_r.
    split; [reflexivity | constructor].
Qed.

Lemma handle_responses_record `{PyStr} (evs : list (Q * Response)) : forall st,
  keeps_record st (fst (fst (handle_responses evs st))).
Proof.
  induction evs as [|[now response] evs IH]; intros st; [apply keeps_record_refl|].
  cbn [handle_responses].
  pose proof (handle_response_record now response st) as H1.
  destruct (handle_response now response st) as [[st1 effects] flow].
  cbn [fst] in H1. destruct flow; cbn [fst]; try exact H1.
  specialize (IH st1). destruct (handle_responses evs st1) as [[st2 later] flow2].
  cbn [fst] in *. apply (keeps_record_trans st st1); assumption.
Qed.

Lemma burst_rule_record (now : Q) (r : bool) (st : SessionState) :
  keeps_record st (fst (burst_rule now r st)).
Proof.
  unfold burst_rule.
  destruct (Qle_bool BURST_AROUSAL_THRESHOLD (arousal (current_emotion st))
            && (burst_count st <? BURST_MAX_FOLLOW_UPS)%nat
            && Qle_bool (burst_cooldown_until st) now);
    [|destruct (0 <? burst_count st)%nat]; cbn [fst];
    try apply keeps_record_refl;
    (split; [|repeat split]); exists []; rewrite app_nil_r;
    (split; [reflexivity | constructor]).
Qed.

Lemma turn_boundary_record (connect_ok : nat -> bool) (now : Q) (r : bool)
    (st : SessionState) :
  keeps_record st (fst (fst (turn_boundary connect_ok now r st))).
Proof.
  unfold turn_boundary.
  destruct (negb (running st)); [apply keeps_record_refl|].
  destruct (reconnect DEFAULT_MAX_RETRIES connect_ok) as [ok trace].
  destruct ok; cbn [negb fst]; [|apply keeps_record_refl].
  pose proof (burst_rule_record now r st) as Hb.
  destruct (burst_rule now r st) as [st1 burst]. exact Hb.
Qed.

(** X15. The adapter-to-client routine keeps the record: over any turns,
    from any state, the transcript buffer it leaves is the one it found
    followed by new entries, each of role "user" or "model" (nothing is
    removed, reordered or rewritten), and the relationship type, the
    familiarity level and the personality code of the session are
    unchanged. *)
Theorem forward_keeps_record `{PyStr} (turns : list Turn) (st : SessionState) :
  keeps_record st (fst (_forward_gemini_to_client turns st)).
Proof.
  revert st. induction turns as [|turn rest IH]; intros st;
    [apply keeps_record_refl|].
  cbn [_forward_gemini_to_client].
  destruct (negb (running st)); [apply keeps_record_refl|].
  pose proof (handle_responses_record (events turn) st) as H1.
  destruct (handle_responses (events turn) st) as [[st1 seen] flow].
  cbn [fst] in H1.
  assert (Hgo : keeps_record st1
            (fst (if stream_error turn then
                    let '(effects, outcome) := recover_after_error (connect_ok turn) st1 in
                    match outcome with
                    | Return => (st1, (seen ++ stamp (boundary_time turn) effects)%list)
                    | Continue =>
                        let '(st, later) := _forward_gemini_to_client rest st1 in
                        (st, (seen ++ stamp (boundary_time turn) effects ++ later)%list)
                    end
                  else
                    let '(st, effects, outcome) :=
                      turn_boundary (connect_ok turn) (boundary_time turn)
                                    (running_after_sleep turn) st1 in
                    match outcome with
                    | Return => (st, (seen ++ stamp (boundary_time turn) effects)%list)
                    | Continue =>
                        let '(st, later) := _forward_gemini_to_client rest st in
                        (st, (seen ++ stamp (boundary_time turn) effects ++ later)%list)
                    end))).
  { destruct (stream_error turn).
    - destruct (recover_after_error (connect_ok turn) st1) as [effects outcome].
      destruct outcome; [|apply keeps_record_refl].
      specialize (IH st1). destruct (_forward_gemini_to_client rest st1). exact IH.
    - pose proof (turn_boundary_record (connect_ok turn) (boundary_time turn)
                    (running_after_sleep turn) st1) as H2.
      destruct (turn_boundary (connect_ok turn) (boundary_time turn)
                  (running_after_sleep turn) st1) as [[st2 effects] outcome].
      cbn [fst] in H2. destruct outcome; [|exact H2].
      specialize (IH st2). destruct (_forward_gemini_to_client rest st2).
      cbn [fst] in *. apply (keeps_record_trans st1 st2); assumption. }
  destruct flow.
  - apply (keeps_record_trans st st1); [exact H1 | exact Hgo].
  - apply (keeps_record_trans st st1); [exact H1 | exact Hgo].
  - exact H1.
Qed.


Lemma audio_frames_stamp (emo : EmotionState) (parts : list (option InlineData)) :
  Forall (fun frame => exists d, frame = Audio d emo)
         (frames_sent (audio_frames emo parts)).
Proof.
  induction parts as [|part parts IH]; [constructor|].
  unfold audio_frames in *. cbn [flat_map]. rewrite frames_sent_app.
  apply Forall_app. split; [|exact IH].
  destruct part as [inline|]; [|constructor].
  destruct (mime_type inline) as [m|]; [|constructor].
  destruct (truthy (Some m) && py_in "audio" m); [|constructor].
  cbn. constructor; [eexists; reflexivity | constructor].
Qed.

(** X16. Frames are stamped with the emotion of their moment: of the frames
    one event sends, every audio frame carries the emotion that was
    current before the event and every text frame the emotion that is
    current after it (the reclassified one, when the event reclassifies),
    and a text frame is sent only for a text that was also appended to
    the transcript with that emotion's label. *)
Theorem frames_carry_current_emotion `{PyStr} (now : Q) (response : Response)
    (st : SessionState) :
  let result := handle_response now response st in
  let st' := fst (fst result) in
  Forall (fun frame =>
            match frame with
            | Audio _ emo => emo = current_emotion st
            | Text text emo =>
                emo = current_emotion st'
                /\ In (mkEntry "model" text (Some (label emo))) (transcript_buffer st')
            | Interrupted | TurnComplete => True
            | Status _ _ | Error _ _ => False
            end)
         (frames_sent (snd (fst result))).
Proof.
  cbv zeta. unfold handle_response.
  destruct (negb (running st)); [constructor|].
  destruct (go_away response); [constructor|].
  destruct (server_content response) as [content|]; [|constructor].
  destruct (interrupted content); [repeat constructor|].
  destruct (turn_complete content); [repeat constructor|].
  assert (Hout : exists st1 out,
             match output_transcription content with
             | Some text =>
                 if truthy (output_transcription content)
                 then handle_output_transcription text st else (st, [])
             | None => (st, [])
             end = (st1, out)
             /\ Forall (fun frame =>
                          match frame with
                          | Text text emo =>
                              emo = current_emotion st1
                              /\ In (mkEntry "model" text (Some (label emo)))
                                    (transcript_buffer st1)
                          | _ => False
                          end) (frames_sent out)).
  { destruct (output_transcription content) as [text|];
      [|exists st, []; split; [reflexivity | constructor]].
    destruct (truthy (Some text));
      [|exists st, []; split; [reflexivity | constructor]].
    unfold handle_output_transcription.
    destruct (user_interacted_since_last_emotion st);
      destruct (truthy (Some (strip text)));
      eexists _, _; (split; [reflexivity|]); cbn; repeat constructor;
      apply in_or_app; right; left; reflexivity. }
  destruct Hout as (st1 & out & -> & Hout).
  assert (Hin : exists st2 inp,
             match input_transcription content with
             | Some user_text =>
                 if truthy (input_transcription content)
                 then handle_input_transcription user_text st1 else (st1, [])
             | None => (st1, [])
             end = (st2, inp)
             /\ frames_sent inp = []
             /\ current_emotion st2 = current_emotion st1
             /\ forall entry, In entry (transcript_buffer st1) ->
                              In entry (transcript_buffer st2)).
  { destruct (input_transcription content) as [user_text|];
      [|exists st1, []; repeat split; auto].
    destruct (truthy (Some user_text)); [|exists st1, []; repeat split; auto].
    eexists _, _. split; [reflexivity|]. repeat split.
    intros entry Hentry. cbn. apply in_or_app. left. exact Hentry. }
  destruct Hin as (st2 & inp & -> & Hinp & Hemo & Hkeep).
  cbn [fst snd]. rewrite !frames_sent_app, Hinp, app_nil_r.
  apply Forall_app. split.
  - eapply List.Forall_impl; [|apply audio_frames_stamp].
    intros frame [d ->]. reflexivity.
  - eapply List.Forall_impl; [|exact Hout].
    intros frame Hf. destruct frame; try contradiction.
    destruct Hf as [He Hentry]. rewrite Hemo. split; [exact He | apply Hkeep, Hentry].
Qed.




(** X18. History decides the starting emotion: when the last persisted AI
    message has a non-empty emotion, the seeded state has that label
    whatever the relationship type and the session state, its intensity
    is the stored one or "low", its valence the stored one or 0, and its
    arousal is never 0: a stored arousal of 0, like a missing one, is
    read as 0.2. *)
Theorem history_seeds_emotion (la : LastAi) (rel : option string)
    (st : SessionState) (emotion : string) :
  last_emotion la = Some emotion -> emotion <> "" ->
  let s := seed_emotion (Some la) rel st in
  label s = emotion
  /\ s = seed_emotion (Some la) None initial_session
  /\ ~ arousal s == 0
  /\ (match last_arousal la with
      | Some a => a == 0
      | None => True
      end -> arousal s = 0.2)
  /\ (last_valence la = None -> valence s = 0.0)
  /\ (last_intensity la = None \/ last_intensity la = Some "" -> intensity s = "low").
Proof.
  intros He Hne. cbv zeta. unfold seed_emotion. rewrite He.
  destruct emotion as [|c emotion]; [contradiction Hne; reflexivity|].
  cbn [truthy or_str label arousal valence intensity].
  split; [reflexivity|]. split; [reflexivity|]. split; [|split; [|split]].
  - unfold or_float. destruct (last_arousal la) as [a|]; [|intros H; discriminate H].
    destruct (Qeq_bool a 0) eqn:E; [intros H; discriminate H|].
    intros H. apply Qeq_bool_iff in H. congruence.
  - unfold or_float. destruct (last_arousal la) as [a|]; [|reflexivity].
    intros H. apply Qeq_bool_iff in H. rewrite H. reflexivity.
  - intros ->. reflexivity.
  - intros [->| ->]; reflexivity.
Qed.

Lemma history_seeds_emotion_witness :
  let la := mkLastAi (Some "sad") (Some (-0.7)) (Some 0) None in
  seed_emotion (Some la) (Some "Best Friend") initial_session
  = mkEmotionState (-0.7) 0.2 "sad" "low".
Proof.
  cbv zeta.
  pose proof (history_seeds_emotion (mkLastAi (Some "sad") (Some (-0.7)) (Some 0) None)
                (Some "Best Friend") initial_session "sad" eq_refl
                ltac:(discriminate)) as (_ & Hs & _).
  cbv zeta in Hs. rewrite Hs. reflexivity.
Defined.


(* ===================================================================== *)
(** * app/api/ws_handler.py: the idle prompter *)
(* ===================================================================== *)

Definition IDLE_THRESHOLD_SECONDS : Q := 30.0.
Definition CHECK_INTERVAL_SECONDS : Q := 10.0.

(** [topic_prompts], built with [ai_loc = state.ai_location or "东京"]. *)
Definition topic_prompts (ai_location : option string) : list string :=
  let ai_loc := or_str ai_location "东京" in
  [ "聊天有点安静了，自然地聊起一个有趣的话题，比如最近的新闻或者问问用户今天怎么样。";
    "分享一些你觉得有趣的事情，或者问用户一个轻松的问题。";
    "聊聊" ++ ai_loc ++ "最近发生的有趣事情，或者问问用户那边怎么样。" ].

(** What the outside world does during one round of the prompter: the
    clock after the sleep, whether [send_text] returns, and the clock
    after it has returned. *)
Record IdleRound := mkIdleRound {
  checked_at : Q;
  send_returns : bool;
  sent_at : Q
}.

(** One round of [_idle_topic_prompter].  [gemini_session] tells whether
    [state.gemini_session] is set and [news_context] whether
    [state.news_context] is not empty; a send that raises is logged and
    the loop goes on. *)
Definition idle_round (gemini_session news_context : bool)
    (ai_location : option string) (round : IdleRound) (st : SessionState)
    : SessionState * list Effect * Outcome :=
  if negb (running st) || negb gemini_session
  then (st, [Sleep CHECK_INTERVAL_SECONDS], Return)
  else
    let idle_duration := checked_at round - last_activity_time st in
    if Qle_bool IDLE_THRESHOLD_SECONDS idle_duration then
      let prompt :=
        if news_context then nth 0 (topic_prompts ai_location) ""
        else nth 1 (topic_prompts ai_location) "" in
      (if send_returns round then with_activity (sent_at round) st else st,
       [Sleep CHECK_INTERVAL_SECONDS; AdapterSendText prompt], Continue)
    else (st, [Sleep CHECK_INTERVAL_SECONDS], Continue).

(** [_idle_topic_prompter] over the rounds it lives through, with the
    clock value of each effect. *)
Fixpoint _idle_topic_prompter (gemini_session news_context : bool)
    (ai_location : option string) (rounds : list IdleRound) (st : SessionState)
    : SessionState * list (Q * Effect) :=
  match rounds with
  | [] => (st, [])
  | round :: rest =>
      if negb (running st) then (st, [])
      else
        let '(st, effects, outcome) :=
          idle_round gemini_session news_context ai_location round st in
        match outcome with
        | Return => (st, stamp (checked_at round) effects)
        | Continue =>
            let '(st, later) :=
              _idle_topic_prompter gemini_session news_context ai_location rest st in
            (st, (stamp (checked_at round) effects ++ later)%list)
        end
  end.

(** The prompts a trace sends upstream. *)
Definition prompts_sent (effects : list Effect) : list string :=
  flat_map (fun effect => match effect with
                          | AdapterSendText text => [text]
                          | _ => []
                          end) effects.

(** X19. One round of the idle prompter: it prompts exactly when the
    session is running, the adapter exists and at least 30 seconds have
    passed since the last activity; the prompt is then the first template
    when news is cached and the second otherwise, never the third (the
    one that names the AI's location); the activity timer is reset to the
    clock after the send when the send returns and is left alone when it
    raises; nothing else of the state changes. *)
Theorem idle_round_behaviour (gemini_session news_context : bool)
    (ai_location : option string) (round : IdleRound) (st : SessionState) :
  let result := idle_round gemini_session news_context ai_location round st in
  let st' := fst (fst result) in
  let prompts := prompts_sent (snd (fst result)) in
  let due := running st && gemini_session
             && Qle_bool (last_activity_time st + IDLE_THRESHOLD_SECONDS)
                         (checked_at round) in
  prompts = (if due
             then [nth (if news_context then 0 else 1) (topic_prompts ai_location) ""]
             else [])
  /\ ~ In (nth 2 (topic_prompts ai_location) "") prompts
  /\ st' = (if due && send_returns round then with_activity (sent_at round) st else st).
Proof.
  cbv zeta. unfold idle_round.
  destruct (running st); cbn [negb orb andb];
    [|split; [reflexivity | split; [intros [] | reflexivity]]].
  destruct gemini_session; cbn [negb andb];
    [|split; [reflexivity | split; [intros [] | reflexivity]]].
  assert (E : Qle_bool IDLE_THRESHOLD_SECONDS (checked_at round - last_activity_time st)
              = Qle_bool (last_activity_time st + IDLE_THRESHOLD_SECONDS)
                         (checked_at round)).
  { destruct (Qle_bool IDLE_THRESHOLD_SECONDS (checked_at round - last_activity_time st))
      eqn:E1;
      destruct (Qle_bool (last_activity_time st + IDLE_THRESHOLD_SECONDS)
                         (checked_at round)) eqn:E2; try reflexivity.
    - apply Qle_bool_iff in E1.
      assert (~ last_activity_time st + IDLE_THRESHOLD_SECONDS <= checked_at round)
        by (rewrite <- Qle_bool_iff; congruence).
      lra.
    - apply Qle_bool_iff in E2.
      assert (~ IDLE_THRESHOLD_SECONDS <= checked_at round - last_activity_time st)
        by (rewrite <- Qle_bool_iff; congruence).
      lra. }
  rewrite E.
  destruct (Qle_bool (last_activity_time st + IDLE_THRESHOLD_SECONDS) (checked_at round));
    cbn [fst snd prompts_sent flat_map app andb];
    [|split; [reflexivity | split; [intros [] | reflexivity]]].
  split; [destruct news_context; reflexivity|]. split; [|reflexivity].
  assert (Hdiff : forall loc : string,
            String.eqb ("聊聊" ++ loc ++ "最近发生的有趣事情，或者问问用户那边怎么样。")
                       "聊天有点安静了，自然地聊起一个有趣的话题，比如最近的新闻或者问问用户今天怎么样。"
            = false
            /\ String.eqb ("聊聊" ++ loc ++ "最近发生的有趣事情，或者问问用户那边怎么样。")
                          "分享一些你觉得有趣的事情，或者问用户一个轻松的问题。" = false)
    by (intros loc; split; reflexivity).
  unfold topic_prompts. cbn [nth].
  destruct (Hdiff (or_str ai_location "东京")) as [H0 H1].
  apply String.eqb_neq in H0, H1.
  destruct news_context; intros [Heq|[]]; congruence.
Qed.


(** Each time is at least [gap] after the one before it. *)
Fixpoint apart (gap : Q) (times : list Q) : Prop :=
  match times with
  | [] => True
  | t :: rest =>
      match rest with
      | [] => True
      | t' :: _ => t + gap <= t'
      end /\ apart gap rest
  end.

(** X20. Idle prompts are at least 30 seconds apart: over any rounds of the
    idle prompter in which the sends return and the clock read after a
    send is not before the one read before it, each prompt is sent at
    least 30 seconds after the previous one, and the first at least 30
    seconds after the last activity. *)
Theorem idle_prompts_apart (gemini_session news_context : bool)
    (ai_location : option string) (rounds : list IdleRound) :
  forall st,
  Forall (fun round => send_returns round = true /\ checked_at round <= sent_at round)
         rounds ->
  let times := burst_times (snd (_idle_topic_prompter gemini_session news_context
                                   ai_location rounds st)) in
  apart IDLE_THRESHOLD_SECONDS times
  /\ forall t, In t times -> last_activity_time st + IDLE_THRESHOLD_SECONDS <= t.
Proof.
  induction rounds as [|round rest IH]; intros st Hall; cbv zeta.
  - split; [exact I | intros t []].
  - apply List.Forall_cons_iff in Hall as [[Hret Hclock] Hrest].
    cbn [_idle_topic_prompter].
    destruct (negb (running st)) eqn:Hrun; [split; [exact I | intros t []]|].
    unfold idle_round. rewrite Hrun. cbn [orb].
    destruct (negb gemini_session); cbn [orb].
    { cbn. split; [exact I | intros t []]. }
    destruct (Qle_bool IDLE_THRESHOLD_SECONDS (checked_at round - last_activity_time st))
      eqn:Edue.
    + rewrite Hret.
      specialize (IH (with_activity (sent_at round) st) Hrest). cbv zeta in IH.
      destruct (_idle_topic_prompter gemini_session news_context ai_location rest
                  (with_activity (sent_at round) st)) as [st2 later].
      cbn [fst snd] in *. destruct IH as [IH1 IH2].
      apply Qle_bool_iff in Edue. unfold IDLE_THRESHOLD_SECONDS in *.
      unfold stamp. cbn [map]. rewrite burst_times_app.
      cbn [burst_times flat_map snd fst app].
      split.
      * cbn [apart]. split; [|exact IH1].
        destruct (burst_times later) as [|t' ts] eqn:El; [exact I|].
        specialize (IH2 t' ltac:(left; reflexivity)). cbn in IH2. lra.
      * intros t [<-|Ht]; [lra|].
        specialize (IH2 t Ht). cbn in IH2. lra.
    + specialize (IH st Hrest). cbv zeta in IH.
      destruct (_idle_topic_prompter gemini_session news_context ai_location rest st)
        as [st2 later].
      cbn [fst snd] in *. unfold stamp. cbn [map]. rewrite burst_times_app.
      cbn [burst_times flat_map snd fst app]. exact IH.
Qed.

Lemma idle_prompts_apart_witness :
  let rounds := map (fun t => mkIdleRound t true t) [10; 20; 30; 40; 50; 60] in
  Forall (fun round => send_returns round = true /\ checked_at round <= sent_at round)
         rounds
  /\ burst_times (snd (_idle_topic_prompter true false None rounds initial_session))
     = [30; 60]
  /\ apart IDLE_THRESHOLD_SECONDS
           (burst_times (snd (_idle_topic_prompter true false None rounds
                                                   initial_session))).
Proof.
  cbv zeta.
  assert (Hall : Forall (fun round => send_returns round = true
                                      /\ checked_at round <= sent_at round)
                        (map (fun t => mkIdleRound t true t) [10; 20; 30; 40; 50; 60]))
    by (repeat constructor; cbn; lra).
  split; [exact Hall|]. split; [vm_compute; reflexivity|].
  apply (idle_prompts_apart true false None _ initial_session Hall).
Defined.


(* ===================================================================== *)
(** * app/api/ws_handler.py: tools and proactive search *)
(* ===================================================================== *)

(** Keywords that trigger proactive memory recall, and web search. *)
Definition RECALL_TRIGGERS : list string :=
  [ "记得"; "上次"; "之前"; "以前"; "还记得"; "说过"; "聊过"; "提过"; "讲过";
    "remember"; "last time"; "before"; "mentioned"; "told you" ].

Definition SEARCH_TRIGGERS : list string :=
  [ "新闻"; "搜索"; "查一下"; "搜一下"; "最新"; "最近发生"; "现在";
    "news"; "search"; "look up"; "what's happening"; "latest";
    "天气"; "weather"; "比分"; "score"; "股票"; "stock";
    "帮我查"; "帮我搜"; "你知道"; "告诉我" ].

(** What a collaborator answers: it is not configured, its call raises, or
    it returns a value. *)
Inductive Answer (A : Type) :=
| Missing
| Fails
| Gives (value : A).
Arguments Missing {A}.
Arguments Fails {A}.
Arguments Gives {A} value.

Record NewsItem := mkNews {
  news_title : string;
  news_summary : string;
  news_source : string
}.

(** The memory and search services as one call sees them. *)
Record Services := mkServices {
  recall_memories : Answer (list string);
  search_news : Answer (list NewsItem)
}.

(** ["\n".join(lines)] *)
Definition join_lines (lines : list string) : string := String.concat nl lines.

(** [_execute_tool(name, {"query": ...}, state)]; [None] when the service
    call raises. *)
Definition _execute_tool (name : string) (services : Services) : option string :=
  if String.eqb name "recall_memory" then
    match recall_memories services with
    | Missing => Some "Memory service not available."
    | Fails => None
    | Gives [] => Some "No relevant memories found for this query."
    | Gives memories => Some (join_lines (map (fun m => "- " ++ m) memories))
    end
  else if String.eqb name "search_web" then
    match search_news services with
    | Missing => Some "Search service not available."
    | Fails => None
    | Gives [] => Some "No search results found."
    | Gives results =>
        Some (join_lines
                (map (fun r => "- " ++ news_title r ++ " (" ++ news_source r ++ "): "
                               ++ news_summary r) results))
    end
  else Some ("Unknown tool: " ++ name).

(** One branch of [_proactive_search]: announce, run the tool, inject what
    it found unless the result is empty or holds [marker], announce the
    end; an exception of the tool is logged and ends the branch (the sends
    to the client and the injection are taken to return). *)
Definition search_branch (tool header marker : string) (services : Services)
    : list Effect :=
  WsSend (Status "searching" tool)
  :: match _execute_tool tool services with
     | None => []
     | Some result =>
         ((if truthy (Some result) && negb (py_in marker result)
           then [AdapterInject (header ++ nl ++ result)] else [])
          ++ [WsSend (Status "done" tool)])%list
     end.

(** [_proactive_search(text, ws, state)] *)
Definition _proactive_search `{PyStr} (text : string) (services : Services)
    : list Effect :=
  let text_lower := lower text in
  if existsb (fun trigger => py_in trigger text_lower) RECALL_TRIGGERS then
    search_branch "recall_memory" "[你回忆起了以下相关内容，请自然地融入回答中]:"
                  "No relevant" services
  else if existsb (fun trigger => py_in trigger text_lower) SEARCH_TRIGGERS then
    search_branch "search_web" "[以下是你搜索到的最新信息，请自然地分享给用户]:"
                  "No search" services
  else [].

Definition injections (effects : list Effect) : list string :=
  flat_map (fun effect => match effect with
                          | AdapterInject text => [text]
                          | _ => []
                          end) effects.

(** The tool a text calls for, if any: recall before search. *)
Definition tool_for `{PyStr} (text : string) : option string :=
  if existsb (fun trigger => py_in trigger (lower text)) RECALL_TRIGGERS
  then Some "recall_memory"
  else if existsb (fun trigger => py_in trigger (lower text)) SEARCH_TRIGGERS
  then Some "search_web"
  else None.



(** X22. What is injected after a recall trigger: nothing when the service
    raises or finds no memory; the found memories, one per line, under
    the recall header, unless their text holds "No relevant"; and, when
    the memory service is not configured, the sentence "Memory service
    not available." under that same header. *)
Theorem recall_injection `{PyStr} (text : string) (services : Services) :
  tool_for text = Some "recall_memory" ->
  let header := "[你回忆起了以下相关内容，请自然地融入回答中]:" in
  injections (_proactive_search text services)
  = match recall_memories services with
    | Missing => [header ++ nl ++ "Memory service not available."]
    | Fails => []
    | Gives [] => []
    | Gives memories =>
        let result := join_lines (map (fun m => "- " ++ m) memories) in
        if py_in "No relevant" result then [] else [header ++ nl ++ result]
    end.
Proof.
  intros Htool. cbv zeta. unfold tool_for in Htool. unfold _proactive_search.
  destruct (existsb (fun trigger => py_in trigger (lower text)) RECALL_TRIGGERS);
    [|destruct (existsb (fun trigger => py_in trigger (lower text)) SEARCH_TRIGGERS);
      discriminate Htool].
  unfold search_branch, _execute_tool. cbn [String.eqb Ascii.eqb Bool.eqb andb].
  destruct (recall_memories services) as [| |[|m memories]]; try reflexivity.
  set (result := join_lines (map (fun m0 => "- " ++ m0) (m :: memories))).
  assert (Ht : truthy (Some result) = true).
  { subst result. unfold join_lines. cbn [map String.concat].
    destruct memories; reflexivity. }
  rewrite Ht. cbn [andb]. destruct (py_in "No relevant" result); reflexivity.
Qed.

Lemma recall_injection_witness :
  tool_for "Do you remember the latest news?" = Some "recall_memory"
  /\ injections (_proactive_search "Do you remember the latest news?"
                                   (mkServices Missing (Gives [])))
     = ["[你回忆起了以下相关内容，请自然地融入回答中]:" ++ nl
        ++ "Memory service not available."].
Proof.
  assert (Ht : tool_for "Do you remember the latest news?" = Some "recall_memory")
    by (vm_compute; reflexivity).
  split; [exact Ht|].
  apply (recall_injection "Do you remember the latest news?"
           (mkServices Missing (Gives [])) Ht).
Defined.


(* ===================================================================== *)
(** * app/api/ws_handler.py: the client-to-adapter routine *)
(* ===================================================================== *)

(** What a client frame asks to forward upstream. *)
Inductive Upstream :=
| UpAudio (audio_bytes : string)
| UpText (text : string).

(** What the routine does for one client frame, in order. *)
Inductive ClientStep :=
| Try (what : Upstream)                 (* [send_audio] or [send_text] *)
| Reconnect (trace : list Effect)       (* [reconnect()] and its calls *)
| Wait (seconds : Q)
| Tell (frame : Frame)                  (* [ws.send_json] *)
| Search (text : string).               (* [create_task(_proactive_search(...))] *)

Definition MAX_SEND_RETRIES : nat := 3.

(** The retry loop [for attempt in range(max_retries)].  [send_ok attempt]
    tells whether the send returns at that attempt and
    [connect_ok attempt] is the fate of the connection attempts of the
    reconnection that follows its failure. *)
Fixpoint send_retrying (what : Upstream) (send_ok : nat -> bool)
    (connect_ok : nat -> nat -> bool) (attempt remaining : nat)
    : list ClientStep * Outcome :=
  match remaining with
  | O => ([], Continue)
  | S remaining' =>
      if send_ok attempt then ([Try what], Continue)
      else if (attempt <? MAX_SEND_RETRIES - 1)%nat then
        let '(ok, trace) := reconnect DEFAULT_MAX_RETRIES (connect_ok attempt) in
        if negb ok
        then ([Try what; Reconnect trace; Tell GEMINI_DISCONNECTED], Return)
        else
          let '(later, outcome) :=
            send_retrying what send_ok connect_ok (S attempt) remaining' in
          ((Try what :: Reconnect trace :: Wait 0.5 :: later)%list, outcome)
      else
        let '(later, outcome) :=
          send_retrying what send_ok connect_ok (S attempt) remaining' in
        ((Try what :: later)%list, outcome)
  end.

(** A parsed client frame. *)
Inductive ClientFrame :=
| AudioFrame (audio_bytes : string)
| TextFrame (text : string)
| ControlFrame (action : option string)
| OtherFrame.

(** One iteration of the loop of [_forward_client_to_gemini]. *)
Definition forward_client_frame (frame : ClientFrame) (now : Q)
    (send_ok : nat -> bool) (connect_ok : nat -> nat -> bool) (st : SessionState)
    : SessionState * list ClientStep * Outcome :=
  match frame with
  | AudioFrame audio_bytes =>
      let '(steps, outcome) :=
        send_retrying (UpAudio audio_bytes) send_ok connect_ok 0 MAX_SEND_RETRIES in
      match outcome with
      | Return => (st, steps, Return)
      | Continue => (user_activity now st, steps, Continue)
      end
  | TextFrame text =>
      let st := append_transcript (mkEntry "user" text None) st in
      let '(steps, outcome) :=
        send_retrying (UpText text) send_ok connect_ok 0 MAX_SEND_RETRIES in
      match outcome with
      | Return => (st, steps, Return)
      | Continue => (user_activity now st, (steps ++ [Search text])%list, Continue)
      end
  | ControlFrame action =>
      (st, [],
       match action with
       | Some a => if String.eqb a "end_session" then Return else Continue
       | None => Continue
       end)
  | OtherFrame => (st, [], Continue)
  end.

Definition tries (steps : list ClientStep) : nat :=
  List.length (flat_map (fun step => match step with Try _ => [tt] | _ => [] end) steps).

Definition reconnects (steps : list ClientStep) : nat :=
  List.length (flat_map (fun step => match step with Reconnect _ => [tt] | _ => [] end)
                        steps).

Definition told (steps : list ClientStep) : list Frame :=
  flat_map (fun step => match step with Tell frame => [frame] | _ => [] end) steps.

Lemma reconnect_flag_cases (c : nat -> bool) :
  fst (reconnect DEFAULT_MAX_RETRIES c) = c 1%nat || c 2%nat || c 3%nat.
Proof.
  unfold reconnect, DEFAULT_MAX_RETRIES. cbn.
  destruct (c 1%nat); [reflexivity|]. cbn.
  destruct (c 2%nat); [reflexivity|]. cbn.
  destruct (c 3%nat); reflexivity.
Qed.

(** Whether the reconnection that follows the failure of send [attempt]
    succeeds. *)
Definition reconnected (connect_ok : nat -> nat -> bool) (attempt : nat) : bool :=
  fst (reconnect DEFAULT_MAX_RETRIES (connect_ok attempt)).

(** The retry loop, case by case. *)
Lemma send_retrying_cases (what : Upstream) (send_ok : nat -> bool)
    (connect_ok : nat -> nat -> bool) :
  let steps := fst (send_retrying what send_ok connect_ok 0 MAX_SEND_RETRIES) in
  let outcome := snd (send_retrying what send_ok connect_ok 0 MAX_SEND_RETRIES) in
  (outcome = Return
   <-> send_ok 0%nat = false
       /\ (reconnected connect_ok 0 = false
           \/ (send_ok 1%nat = false /\ reconnected connect_ok 1 = false)))
  /\ tries steps
     = (if send_ok 0%nat then 1
        else if negb (reconnected connect_ok 0) then 1
        else if send_ok 1%nat then 2
        else if negb (reconnected connect_ok 1) then 2
        else 3)%nat
  /\ reconnects steps
     = (if send_ok 0%nat then 0
        else if negb (reconnected connect_ok 0) then 1
        else if send_ok 1%nat then 1
        else 2)%nat
  /\ told steps = match outcome with
                  | Return => [GEMINI_DISCONNECTED]
                  | Continue => []
                  end.
Proof.
  cbv zeta. unfold reconnected, MAX_SEND_RETRIES. cbn [send_retrying Nat.ltb Nat.leb Nat.sub].
  destruct (send_ok 0%nat).
  { cbn. repeat split; try reflexivity; try discriminate.
    intros (Hf & _). discriminate Hf. }
  destruct (reconnect DEFAULT_MAX_RETRIES (connect_ok 0%nat)) as [r0 t0]. cbn [fst negb].
  destruct r0; cbn [negb].
  2:{ cbn. repeat split; auto. }
  destruct (send_ok 1%nat).
  { cbn. repeat split; try reflexivity; try discriminate.
    intros (_ & [Hf|(Hf & _)]); discriminate Hf. }
  destruct (reconnect DEFAULT_MAX_RETRIES (connect_ok 1%nat)) as [r1 t1]. cbn [fst negb].
  destruct r1; cbn [negb].
  2:{ cbn. repeat split; auto. }
  destruct (send_ok 2%nat); cbn; repeat split; try reflexivity; try discriminate;
    intros (_ & [Hf|(_ & Hf)]); discriminate Hf.
Qed.

(** X23. Forwarding one client audio or text frame.  The routine returns
    (which ends the session) exactly when a send fails and the
    reconnection that follows it fails, that is, when none of its three
    connection attempts succeeds; this can happen after the first and
    after the second send only.  The client is then told
    GEMINI_DISCONNECTED, once, and the activity is not recorded.  In
    every other case, also when all three sends fail, nothing is told,
    the routine goes on, and the activity time, the interaction-pending
    flag and the reset of the burst counter are recorded.  The sends
    tried and the reconnections made are counted exactly: never more than
    3 and 2. *)
Theorem forward_client_frame_retries (audio_or_text : Upstream) (now : Q)
    (send_ok : nat -> bool) (connect_ok : nat -> nat -> bool) (st : SessionState) :
  let frame := match audio_or_text with
               | UpAudio audio_bytes => AudioFrame audio_bytes
               | UpText text => TextFrame text
               end in
  let result := forward_client_frame frame now send_ok connect_ok st in
  let steps := snd (fst result) in
  let st' := fst (fst result) in
  (snd result = Return
   <-> send_ok 0%nat = false
       /\ (reconnected connect_ok 0 = false
           \/ (send_ok 1%nat = false /\ reconnected connect_ok 1 = false)))
  /\ tries steps
     = (if send_ok 0%nat then 1
        else if negb (reconnected connect_ok 0) then 1
        else if send_ok 1%nat then 2
        else if negb (reconnected connect_ok 1) then 2
        else 3)%nat
  /\ reconnects steps
     = (if send_ok 0%nat then 0
        else if negb (reconnected connect_ok 0) then 1
        else if send_ok 1%nat then 1
        else 2)%nat
  /\ (tries steps <= 3)%nat /\ (reconnects steps <= 2)%nat
  /\ match snd result with
     | Return =>
         told steps = [GEMINI_DISCONNECTED]
         /\ burst_count st' = burst_count st
         /\ last_activity_time st' = last_activity_time st
     | Continue =>
         told steps = []
         /\ burst_count st' = 0%nat
         /\ last_activity_time st' = now
         /\ user_interacted_since_last_emotion st' = true
     end
  /\ (forall attempt,
        reconnected connect_ok attempt
        = connect_ok attempt 1%nat || connect_ok attempt 2%nat
          || connect_ok attempt 3%nat).
Proof.
  cbv zeta.
  assert (Hflag : forall attempt,
            reconnected connect_ok attempt
            = connect_ok attempt 1%nat || connect_ok attempt 2%nat
              || connect_ok attempt 3%nat)
    by (intros attempt; apply reconnect_flag_cases).
  assert (Hbound : forall b0 b1 b2 b3 : bool,
            ((if b0 then 1 else if b1 then 1 else if b2 then 2 else if b3 then 2 else 3)
             <= 3)%nat
            /\ ((if b0 then 0 else if b1 then 1 else if b2 then 1 else 2) <= 2)%nat)
    by (intros [] [] [] []; split; lia).
  destruct audio_or_text as [audio_bytes|text]; cbn [forward_client_frame].
  - pose proof (send_retrying_cases (UpAudio audio_bytes) send_ok connect_ok) as H.
    cbv zeta in H.
    destruct (send_retrying (UpAudio audio_bytes) send_ok connect_ok 0 MAX_SEND_RETRIES)
      as [steps outcome].
    cbn [fst snd] in H. destruct H as (H1 & H2 & H3 & H4).
    assert (Hret : snd (match outcome with
                        | Continue => (user_activity now st, steps, Continue)
                        | Return => (st, steps, Return)
                        end) = outcome) by (destruct outcome; reflexivity).
    rewrite Hret.
    assert (Hsteps : snd (fst (match outcome with
                               | Continue => (user_activity now st, steps, Continue)
                               | Return => (st, steps, Return)
                               end)) = steps) by (destruct outcome; reflexivity).
    rewrite Hsteps, H2, H3.
    split; [exact H1|]. split; [reflexivity|]. split; [reflexivity|].
    split; [apply Hbound|]. split; [apply (Hbound (send_ok 0%nat) _ _ true)|].
    split; [destruct outcome; cbn [fst snd]; repeat split; exact H4 | exact Hflag].
  - pose proof (send_retrying_cases (UpText text) send_ok connect_ok) as H.
    cbv zeta in H.
    destruct (send_retrying (UpText text) send_ok connect_ok 0 MAX_SEND_RETRIES)
      as [steps outcome].
    cbn [fst snd] in H. destruct H as (H1 & H2 & H3 & H4).
    destruct outcome; cbn [fst snd].
    + unfold tries, reconnects, told in *. rewrite !flat_map_app, !List.length_app.
      cbn [flat_map List.length app]. rewrite !Nat.add_0_r, H2, H3, H4, app_nil_r.
      split; [exact H1|]. split; [reflexivity|]. split; [reflexivity|].
      split; [apply Hbound|]. split; [apply (Hbound (send_ok 0%nat) _ _ true)|].
      split; [repeat split | exact Hflag].
    + rewrite H2, H3.
      split; [exact H1|]. split; [reflexivity|]. split; [reflexivity|].
      split; [apply Hbound|]. split; [apply (Hbound (send_ok 0%nat) _ _ true)|].
      split; [repeat split; exact H4 | exact Hflag].
Qed.

(** X24. A text the user typed is on record before it is sent: whatever
    becomes of the sends and the reconnections, also when the routine
    returns on a failed reconnection or gives up after three failed
    sends, the transcript buffer ends with the user's text; a proactive
    search on it is started only when the routine goes on. *)
Theorem typed_text_is_recorded (text : string) (now : Q)
    (send_ok : nat -> bool) (connect_ok : nat -> nat -> bool) (st : SessionState) :
  let result := forward_client_frame (TextFrame text) now send_ok connect_ok st in
  transcript_buffer (fst (fst result))
  = (transcript_buffer st ++ [mkEntry "user" text None])%list
  /\ (In (Search text) (snd (fst result)) <-> snd result = Continue).
Proof.
  cbv zeta. cbn [forward_client_frame].
  assert (Hno : forall remaining attempt,
            ~ In (Search text)
                 (fst (send_retrying (UpText text) send_ok connect_ok attempt remaining))).
  { induction remaining as [|remaining IH]; intros attempt; [intros []|].
    cbn [send_retrying].
    destruct (send_ok attempt); [intros [Hd|[]]; discriminate Hd|].
    destruct (attempt <? MAX_SEND_RETRIES - 1)%nat.
    - destruct (reconnect DEFAULT_MAX_RETRIES (connect_ok attempt)) as [ok trace].
      destruct ok; cbn [negb].
      + specialize (IH (S attempt)).
        destruct (send_retrying (UpText text) send_ok connect_ok (S attempt) remaining)
          as [later outcome].
        cbn [fst] in *. intros [Hd|[Hd|[Hd|Hin]]]; try discriminate Hd.
        exact (IH Hin).
      + cbn [fst]. intros [Hd|[Hd|[Hd|[]]]]; discriminate Hd.
    - specialize (IH (S attempt)).
      destruct (send_retrying (UpText text) send_ok connect_ok (S attempt) remaining)
        as [later outcome].
      cbn [fst] in *. intros [Hd|Hin]; [discriminate Hd | exact (IH Hin)]. }
  specialize (Hno MAX_SEND_RETRIES 0%nat).
  destruct (send_retrying (UpText text) send_ok connect_ok 0 MAX_SEND_RETRIES)
    as [steps outcome].
  cbn [fst] in Hno. destruct outcome; cbn [fst snd].
  - split; [reflexivity|]. split; [reflexivity|].
    intros _. apply in_or_app. right. left. reflexivity.
  - split; [reflexivity|]. split; [intros Hin; contradiction | intros Hd; discriminate Hd].
Qed.


(* ===================================================================== *)
(** * More of the delayed proactive task *)
(* ===================================================================== *)

(** A held lock has a task that holds it. *)
Definition lock_has_holder (loop : Loop) : Prop :=
  forall key, _proactive_locks loop !! key = Some true ->
    exists i t, tasks loop !! i = Some t /\ task_key t = key /\ holding t = true.

Lemma _fire_proactive_task_holder (user_id character_id : string)
    (emotion : EmotionState) (loop : Loop) :
  lock_has_holder loop ->
  lock_has_holder (_fire_proactive_task user_id character_id emotion loop).
Proof.
  intros Inv. unfold _fire_proactive_task.
  destruct (Qle_bool (arousal emotion) PROACTIVE_AROUSAL); [exact Inv|].
  intros key Hkey. cbn [_proactive_locks tasks] in *.
  assert (Hold : _proactive_locks loop !! key = Some true).
  { destruct (_proactive_locks loop !! (character_id, user_id)) eqn:E; [exact Hkey|].
    destruct (decide ((character_id, user_id) = key)) as [<-|Hne].
    - rewrite lookup_insert_eq in Hkey. discriminate Hkey.
    - rewrite lookup_insert_ne in Hkey by exact Hne. exact Hkey. }
  destruct (Inv key Hold) as (i & t & Hi & Hk & Hh).
  exists i, t. split; [|split; assumption].
  rewrite lookup_app_l; [exact Hi|]. apply (lookup_lt_Some _ _ _ Hi).
Qed.

Lemma _maybe_send_proactive_holder (i : nat) (loop : Loop) :
  lock_has_holder loop -> lock_has_holder (_maybe_send_proactive i loop).
Proof.
  intros Inv. unfold _maybe_send_proactive.
  destruct (tasks loop !! i) as [task|] eqn:Ei; [|exact Inv].
  pose proof (lookup_lt_Some _ _ _ Ei) as Hlt.
  destruct (task_stage task) eqn:Es.
  - (* Created *)
    destruct (locked loop (task_key task)) eqn:El.
    + intros key Hkey. cbn [_proactive_locks tasks] in *.
      destruct (Inv key Hkey) as (i' & t & Hi & Hk & Hh).
      exists i', t. split; [|split; assumption].
      rewrite list_lookup_insert_ne; [exact Hi|].
      intros <-. rewrite Ei in Hi. injection Hi as <-.
      unfold holding in Hh. rewrite Es in Hh. discriminate Hh.
    + intros key Hkey. cbn [_proactive_locks tasks] in *.
      destruct (decide (task_key task = key)) as [<-|Hne].
      * exists i, (at_stage Sleeping task). split; [|split; reflexivity].
        apply list_lookup_insert_eq, Hlt.
      * rewrite lookup_insert_ne in Hkey by exact Hne.
        destruct (Inv key Hkey) as (i' & t & Hi & Hk & Hh).
        exists i', t. split; [|split; assumption].
        rewrite list_lookup_insert_ne; [exact Hi|].
        intros <-. rewrite Ei in Hi. injection Hi as <-. contradiction.
  - (* Sleeping *)
    intros key Hkey. cbn [_proactive_locks tasks] in *.
    destruct (Inv key Hkey) as (i' & t & Hi & Hk & Hh).
    destruct (decide (i = i')) as [<-|Hne].
    + rewrite Ei in Hi. injection Hi as <-.
      exists i, (at_stage Generating task). split; [|split; [exact Hk | reflexivity]].
      apply list_lookup_insert_eq, Hlt.
    + exists i', t. split; [|split; assumption].
      rewrite list_lookup_insert_ne; [exact Hi | exact Hne].
  - (* Generating *)
    intros key Hkey. cbn [_proactive_locks tasks] in *.
    destruct (decide (task_key task = key)) as [<-|Hne].
    + rewrite lookup_insert_eq in Hkey. discriminate Hkey.
    + rewrite lookup_insert_ne in Hkey by exact Hne.
      destruct (Inv key Hkey) as (i' & t & Hi & Hk & Hh).
      exists i', t. split; [|split; assumption].
      rewrite list_lookup_insert_ne; [exact Hi|].
      intros <-. rewrite Ei in Hi. injection Hi as <-. contradiction.
  - exact Inv.
  - exact Inv.
Qed.

Lemma run_loop_holder (schedule : list LoopEvent) : forall loop,
  lock_has_holder loop -> lock_has_holder (run_loop schedule loop).
Proof.
  induction schedule as [|event schedule IH]; intros loop Hinv; [exact Hinv|].
  cbn [run_loop fold_left]. apply IH.
  destruct event as [user_id character_id emotion|i]; cbn [react].
  - apply _fire_proactive_task_holder, Hinv.
  - apply _maybe_send_proactive_holder, Hinv.
Qed.

Lemma empty_loop_holder : lock_has_holder empty_loop.
Proof.
  intros key Hkey. cbn in Hkey. rewrite lookup_empty in Hkey. discriminate Hkey.
Qed.

(** X25. One task per pair, and the table knows it: in every state the
    event loop can reach, two tasks that hold the lock of the same
    (character, user) pair are the same task, and the lock of a pair is
    held in the table exactly when some task of that pair is between its
    acquisition and the end of its generate-and-persist block. *)
Theorem one_holder_per_pair (history : list LoopEvent) :
  let loop := run_loop history empty_loop in
  (forall i j t u,
     tasks loop !! i = Some t -> tasks loop !! j = Some u ->
     holding t = true -> holding u = true -> task_key t = task_key u -> i = j)
  /\ (forall key,
        locked loop key = true
        <-> exists i t, tasks loop !! i = Some t /\ task_key t = key
                        /\ holding t = true).
Proof.
  cbv zeta.
  pose proof (run_loop_invariant history empty_loop empty_loop_invariant) as [Inv1 Inv2].
  pose proof (run_loop_holder history empty_loop empty_loop_holder) as Inv3.
  split; [exact Inv2|].
  intros key. unfold locked. split.
  - destruct (_proactive_locks (run_loop history empty_loop) !! key) as [[|]|] eqn:E;
      try discriminate. intros _. apply Inv3, E.
  - intros (i & t & Hi & <- & Hh). rewrite (Inv1 i t Hi Hh). reflexivity.
Qed.

(** X26. A free lock is taken: in a state the event loop can reach, a task
    that is resumed for the first time while no task of its pair holds
    the lock is not dropped: it takes the lock and goes to sleep, so a
    trigger that comes after the previous task has finished gets its
    turn. *)
Theorem free_lock_is_acquired (history : list LoopEvent) (j : nat)
    (task : ProactiveTask) :
  let loop := run_loop history empty_loop in
  tasks loop !! j = Some task ->
  task_stage task = Created ->
  (forall i t, tasks loop !! i = Some t -> task_key t = task_key task ->
               holding t = false) ->
  let after := _maybe_send_proactive j loop in
  stage_of after j = Some Sleeping
  /\ locked after (task_key task) = true.
Proof.
  cbv zeta. intros Hj Hs Hfree.
  pose proof (run_loop_holder history empty_loop empty_loop_holder) as Inv3.
  assert (Hl : locked (run_loop history empty_loop) (task_key task) = false).
  { unfold locked.
    destruct (_proactive_locks (run_loop history empty_loop) !! task_key task)
      as [[|]|] eqn:E; try reflexivity.
    destruct (Inv3 _ E) as (i & t & Hi & Hk & Hh).
    rewrite (Hfree i t Hi Hk) in Hh. discriminate Hh. }
  split.
  - unfold stage_of. rewrite (resume_self _ j task Hj), Hl, Hs. reflexivity.
  - unfold _maybe_send_proactive. rewrite Hj, Hs, Hl.
    unfold locked. cbn [_proactive_locks]. rewrite lookup_insert_eq. reflexivity.
Qed.

Lemma free_lock_is_acquired_witness :
  let e := mkEmotionState 0.8 0.9 "excited" "high" in
  let history := [Trigger "u" "c" e; Resume 0%nat; Resume 0%nat; Resume 0%nat;
                  Trigger "u" "c" e] in
  stage_of (run_loop history empty_loop) 0 = Some Finished
  /\ stage_of (_maybe_send_proactive 1 (run_loop history empty_loop)) 1
     = Some Sleeping.
Proof.
  cbv zeta. split; [reflexivity|].
  apply (free_lock_is_acquired
           [Trigger "u" "c" (mkEmotionState 0.8 0.9 "excited" "high");
            Resume 0%nat; Resume 0%nat; Resume 0%nat;
            Trigger "u" "c" (mkEmotionState 0.8 0.9 "excited" "high")]
           1%nat (mkTask ("c", "u") (mkEmotionState 0.8 0.9 "excited" "high") Created)
           eq_refl eq_refl).
  intros i t Hi Hk.
  destruct i as [|[|i]]; cbn in Hi;
    first [ discriminate Hi
          | injection Hi as <-; reflexivity
          | rewrite lookup_nil in Hi; discriminate Hi ].
Defined.

(** X27. The arousal gate of the delayed proactive message: an emotion with
    arousal at most 0.65 schedules nothing and leaves the lock table as it
    was; one with arousal above 0.65 schedules exactly one new task, for
    the pair (character, user) and with that emotion, and makes sure the
    pair has a lock, free if it is new and in its previous state if not;
    the tasks already there and the locks of other pairs are untouched. *)
Theorem proactive_arousal_gate (user_id character_id : string)
    (emotion : EmotionState) (loop : Loop) :
  let after := _fire_proactive_task user_id character_id emotion loop in
  (arousal emotion <= 0.65 -> after = loop)
  /\ (0.65 < arousal emotion ->
      tasks after
      = (tasks loop ++ [mkTask (character_id, user_id) emotion Created])%list
      /\ _proactive_locks after !! (character_id, user_id)
         = Some (locked loop (character_id, user_id))
      /\ forall key, key <> (character_id, user_id) ->
           _proactive_locks after !! key = _proactive_locks loop !! key).
Proof.
  cbv zeta. unfold _fire_proactive_task, PROACTIVE_AROUSAL. split.
  - intros Hle. apply Qle_bool_iff in Hle. rewrite Hle. reflexivity.
  - intros Hgt.
    assert (E : Qle_bool (arousal emotion) 0.65 = false).
    { destruct (Qle_bool (arousal emotion) 0.65) eqn:E; [|reflexivity].
      apply Qle_bool_iff in E. lra. }
    rewrite E. cbn [tasks _proactive_locks]. split; [reflexivity|].
    unfold locked.
    destruct (_proactive_locks loop !! (character_id, user_id)) as [held|] eqn:El.
    + split; [exact El | reflexivity].
    + split; [apply lookup_insert_eq|].
      intros key Hne. apply lookup_insert_ne. congruence.
Qed.


(* ===================================================================== *)
(** * app/api/message_routes.py: reading messages *)
(* ===================================================================== *)

(** The columns of a stored message that the media route reads. *)
Record StoredMessage := mkStored {
  stored_character_id : string;
  stored_user_id : string;
  stored_media_url : option string
}.

(** What a route hands back: its value, or the [HTTPException] it raises. *)
Inductive Http (A : Type) :=
| Served (a : A)
| HttpError (status : nat) (detail : string).
Arguments Served {A} a.
Arguments HttpError {A} status detail.

(** [get_message_media]; [message] is what [get_message(message_id)]
    returns and [path_exists] is [os.path.exists]. *)
Definition get_message_media (message : option StoredMessage)
    (character_id user_id : string) (path_exists : string -> bool) : Http string :=
  match message with
  | None => HttpError 404 "Message not found"
  | Some m =>
      if negb (String.eqb (stored_character_id m) character_id)
      then HttpError 404 "Message not found"
      else if negb (String.eqb (stored_user_id m) user_id)
      then HttpError 403 "Access denied"
      else
        match stored_media_url m with
        | Some path =>
            if negb (truthy (Some path)) || negb (path_exists path)
            then HttpError 404 "Media file not found"
            else Served path
        | None => HttpError 404 "Media file not found"
        end
  end.

(** X28. Media is served to its owner only: the route serves a file exactly
    when the message exists, belongs to the character and to the user of
    the request, and has a media path that exists on disk, and the file
    served is that path; a message of another character is reported as
    not found (404) whoever asks, and 403 is answered only for an
    existing message of that character owned by another user. *)
Theorem media_served_to_owner_only (message : option StoredMessage)
    (character_id user_id : string) (path_exists : string -> bool) :
  let reply := get_message_media message character_id user_id path_exists in
  (forall path,
     reply = Served path
     <-> exists m, message = Some m
           /\ stored_character_id m = character_id
           /\ stored_user_id m = user_id
           /\ stored_media_url m = Some path
           /\ path <> "" /\ path_exists path = true)
  /\ (forall detail,
        reply = HttpError 403 detail
        <-> exists m, message = Some m
              /\ stored_character_id m = character_id
              /\ stored_user_id m <> user_id
              /\ detail = "Access denied").
Proof.
  cbv zeta. unfold get_message_media.
  destruct message as [m|].
  - destruct (String.eqb_spec (stored_character_id m) character_id) as [Hc|Hc];
      cbn [negb].
    + destruct (String.eqb_spec (stored_user_id m) user_id) as [Hu|Hu]; cbn [negb].
      * split.
        -- intros path. destruct (stored_media_url m) as [[|c p]|] eqn:Em;
             cbn [truthy negb orb].
           ++ split; [discriminate|]. intros (m' & [= <-] & _ & _ & Hp & Hne & _).
              rewrite Em in Hp. injection Hp as <-. contradiction.
           ++ destruct (path_exists (String c p)) eqn:Ex; cbn [negb].
              ** split.
                 --- intros [= <-]. exists m. repeat split; auto.
                 --- intros (m' & [= <-] & _ & _ & Hp & _). congruence.
              ** split; [discriminate|].
                 intros (m' & [= <-] & _ & _ & Hp & _ & Hex).
                 rewrite Em in Hp. injection Hp as <-. congruence.
           ++ split; [discriminate|]. intros (m' & [= <-] & _ & _ & Hp & _).
              rewrite Em in Hp. discriminate Hp.
        -- intros detail. split.
           ++ destruct (stored_media_url m) as [[|c p]|]; cbn [truthy negb orb];
                [| destruct (path_exists (String c p)) |]; discriminate.
           ++ intros (m' & [= <-] & _ & Hne & _). contradiction.
      * split.
        -- intros path. split; [discriminate|].
           intros (m' & [= <-] & _ & Hu' & _). contradiction.
        -- intros detail. split.
           ++ intros [= <-]. exists m. auto.
           ++ intros (m' & [= <-] & _ & _ & ->). reflexivity.
    + split.
      * intros path. split; [discriminate|].
        intros (m' & [= <-] & Hc' & _). contradiction.
      * intros detail. split; [discriminate|].
        intros (m' & [= <-] & Hc' & _). contradiction.
  - split.
    + intros path. split; [discriminate|]. intros (m' & Hm & _). discriminate Hm.
    + intros detail. split; [discriminate|]. intros (m' & Hm & _). discriminate Hm.
Qed.

(** [MessageRepository.list_messages(limit)] on the messages of a pair in
    chronological order (those before [before], when it is given): the
    newest [limit] of them, returned oldest first. *)
Definition repo_list_messages {A : Type} (history : list A) (limit : nat) : list A :=
  last_n limit history.

(** The route [list_messages]: one message more than the page is fetched
    to learn whether older ones exist, and dropped again. *)
Definition list_messages {A : Type} (character_found : bool)
    (history : list A) (limit : nat) : Http (list A * bool) :=
  if negb character_found then HttpError 404 "Character not found"
  else
    let messages := repo_list_messages history (limit + 1) in
    let has_more := (limit <? List.length messages)%nat in
    Served (if has_more then tl messages else messages, has_more).

Lemma tl_skipn {A : Type} (l : list A) : forall k, tl (skipn k l) = skipn (S k) l.
Proof.
  induction l as [|x l IH]; intros k.
  - rewrite !skipn_nil. reflexivity.
  - destruct k as [|k]; [reflexivity|]. cbn [skipn]. apply IH.
Qed.

(** X29. A page of messages: for a character of the user, the route returns
    the newest [limit] messages of the history, oldest first, never more
    than [limit], and reports more exactly when the history holds more than
    [limit]; without the character it answers 404 whatever is stored. *)
Theorem list_messages_page {A : Type} (history : list A) (limit : nat) :
  (exists page has_more,
     list_messages true history limit = Served (page, has_more)
     /\ page = last_n limit history
     /\ has_more = (limit <? List.length history)%nat
     /\ (List.length page <= limit)%nat)
  /\ list_messages false history limit = HttpError 404 "Character not found".
Proof.
  split; [|reflexivity].
  unfold list_messages, repo_list_messages, last_n. cbn [negb].
  eexists _, _. split; [reflexivity|].
  rewrite List.length_skipn.
  destruct (Nat.ltb_spec limit (List.length history)) as [Hlt|Hge].
  - assert (E : (limit <? List.length history
                           - (List.length history - (limit + 1)))%nat = true)
      by (apply Nat.ltb_lt; lia).
    rewrite E. split; [|split; [reflexivity|]].
    + rewrite tl_skipn. f_equal. lia.
    + rewrite tl_skipn, List.length_skipn. lia.
  - assert (E : (limit <? List.length history
                           - (List.length history - (limit + 1)))%nat = false)
      by (apply Nat.ltb_ge; lia).
    rewrite E. split; [|split; [reflexivity|]].
    + f_equal. lia.
    + rewrite List.length_skipn. lia.
Qed.


(* ===================================================================== *)
(** * app/services/gemini_chat.py *)
(* ===================================================================== *)

(** The columns of a stored chat message that [send_message] reads. *)
Record ChatMessage := mkChat {
  chat_role : string;
  chat_content : option string
}.

(** [types.Part]: a text part or an inline blob. *)
Inductive Part :=
| TextPart (text : string)
| BlobPart (data mime_type : string).

(** [types.Content]. *)
Record Content := mkChatContent {
  content_role : string;
  content_parts : list Part
}.

(** A file handed to [send_message] by path: the path, what
    [mimetypes.guess_type(path)[0]] answers for it and the bytes read
    from it. *)
Record Attachment := mkAttachment {
  attachment_path : string;
  attachment_guess : option string;
  attachment_data : string
}.

Definition VOICE_INSTRUCTION : string := "请听这段语音消息并回复。".

(** The loop over [conversation_history]. *)
Definition history_contents (conversation_history : list ChatMessage) : list Content :=
  flat_map
    (fun msg =>
       let role := if String.eqb (chat_role msg) "user" then "user" else "model" in
       let parts := if truthy (chat_content msg)
                    then [TextPart (or_str (chat_content msg) "")] else [] in
       match parts with
       | [] => []
       | _ => [mkChatContent role parts]
       end)
    conversation_history.

Definition attached (file : option Attachment) : bool :=
  match file with
  | Some a => truthy (Some (attachment_path a))
  | None => false
  end.

Definition blob_of (file : option Attachment) (default : string) : list Part :=
  match file with
  | Some a =>
      if truthy (Some (attachment_path a))
      then [BlobPart (attachment_data a) (or_str (attachment_guess a) default)]
      else []
  | None => []
  end.

(** The [contents] that [send_message] passes to [generate_content]. *)
Definition send_message_contents (user_text : string)
    (conversation_history : list ChatMessage)
    (image audio : option Attachment) : list Content :=
  let contents := history_contents conversation_history in
  let user_parts := (blob_of image "image/jpeg" ++ blob_of audio "audio/webm")%list in
  let user_text :=
    if attached audio && negb (truthy (Some user_text))
    then VOICE_INSTRUCTION else user_text in
  (contents ++ [mkChatContent "user" (user_parts ++ [TextPart user_text])])%list.

Definition is_blob (p : Part) : Prop :=
  match p with BlobPart _ _ => True | TextPart _ => False end.

Definition chat_turn (c : Content) : Prop :=
  (content_role c = "user" \/ content_role c = "model") /\ content_parts c <> [].

Lemma history_contents_turns (conversation_history : list ChatMessage) :
  Forall chat_turn (history_contents conversation_history)
  /\ (List.length (history_contents conversation_history)
      <= List.length conversation_history)%nat.
Proof.
  induction conversation_history as [|msg rest [IH1 IH2]].
  - split; [constructor | cbn; lia].
  - unfold history_contents in *. cbn [flat_map].
    destruct (truthy (chat_content msg)); cbn [app].
    + split.
      * constructor; [|exact IH1]. split; [|discriminate]. cbn [content_role].
        destruct (String.eqb (chat_role msg) "user"); auto.
      * cbn [List.length]. lia.
    + split; [exact IH1 | cbn [List.length]; lia].
Qed.

Lemma blob_of_blobs (file : option Attachment) (default : string) :
  Forall is_blob (blob_of file default)
  /\ (List.length (blob_of file default) <= 1)%nat.
Proof.
  unfold blob_of. destruct file as [a|]; [|split; [constructor | cbn; lia]].
  destruct (truthy (Some (attachment_path a))).
  - split; [repeat constructor | cbn; lia].
  - split; [constructor | cbn; lia].
Qed.

(** X30. What the text chat sends to the model: every content carries the
    role user or model and at least one part, whatever role strings the
    stored history holds; stored messages without text are left out, so
    the history contributes at most one content per message; the request
    ends with the user's content, made of at most two blobs followed by
    one text part, and that text is empty only when the caller's text is
    empty and no audio file is attached. *)
Theorem chat_contents_shape (user_text : string)
    (conversation_history : list ChatMessage) (image audio : option Attachment) :
  let contents :=
    send_message_contents user_text conversation_history image audio in
  Forall chat_turn contents
  /\ exists before blobs text,
       contents = (before ++ [mkChatContent "user" (blobs ++ [TextPart text])])%list
       /\ (List.length before <= List.length conversation_history)%nat
       /\ Forall is_blob blobs /\ (List.length blobs <= 2)%nat
       /\ (text = "" -> user_text = "" /\ attached audio = false).
Proof.
  cbv zeta. unfold send_message_contents.
  destruct (history_contents_turns conversation_history) as [Ht Hl].
  destruct (blob_of_blobs image "image/jpeg") as [Bi Li].
  destruct (blob_of_blobs audio "audio/webm") as [Ba La].
  split.
  - apply Forall_app. split; [exact Ht|]. constructor; [|constructor].
    split; [left; reflexivity|]. cbn [content_parts].
    intros E. apply (f_equal (@List.length Part)) in E.
    rewrite !List.length_app in E. cbn in E. lia.
  - eexists _, _, _. split; [reflexivity|]. split; [exact Hl|].
    split; [apply Forall_app; split; assumption|].
    split; [rewrite List.length_app; lia|].
    destruct (attached audio); cbn [andb].
    + destruct user_text as [|c s]; cbn [truthy negb].
      * intros E. discriminate E.
      * intros E. discriminate E.
    + intros E. split; [exact E | reflexivity].
Qed.
